(** * Rating and statistics aggregation of the game catalog

    A shallow embedding of the Mongoose models [Game], [Category], [Review]
    and [User], of the review routes and of the view, favourite, statistics
    and list handlers, followed by the properties of the aggregation logic
    and of the handlers around it.

    Conventions of the embedding.
    - A JavaScript [Number] that only ever holds a counter is a [Z]; a
      [Number] that holds a quotient (an average, a score) is an exact
      rational [Q].  Results on [Q] are stated up to [==].  The category
      rollup rounds a quotient to one decimal place; there the rounding of
      the doubles decides the stored digit, and the doubles are modelled
      ([fl]).
    - An [ObjectId] is the 96-bit number it stores.
    - The records carry the paths the aggregation reads or writes.  The
      texts, the play time and the difficulty of a review are not stored
      here; a request body carries them, and they are validated as the
      routes and the schema validate them.
    - A text is a string of code units below 256, so that its length is
      the same to every validator; the rating of a body is a JSON number
      or string, as the handlers pass it on.
    - A document method that ends in [this.save()] returns the mutated
      document, or the exception raised on the way.  A quotient whose
      divisor is zero is reported as [DivisionByZero] (JavaScript would
      produce [NaN] or an infinity at that point).
    - Collections live in a [Store]; [findById] hands out a snapshot of the
      stored document and [save] writes the assigned paths back.  Requests
      are served one after the other, and an asynchronous hook has finished
      when the call that triggered it returns. *)

From Stdlib Require String Ascii.
From Stdlib Require Import ZArith QArith Qround Qabs Lqa List Lia Bool
  Permutation Sorted.
From stdpp Require Import gmap.
Import String.StringSyntax Ascii.AsciiSyntax.

Delimit Scope char_scope with char.
Local Open Scope string_scope.
Local Open Scope Z_scope.

Abbreviation ObjectId := N.

(** ** Exceptions *)

Inductive exn : Type :=
| DivisionByZero
| ValidationError
| DocumentNotFound
| DuplicateKey.

Definition result (A : Type) : Type := (exn + A)%type.

Definition ret {A : Type} (a : A) : result A := inr a.
Definition throw {A : Type} (e : exn) : result A := inl e.
Definition bind {A B : Type} (c : result A) (k : A -> result B) : result B :=
  match c with
  | inl e => inl e
  | inr a => k a
  end.

Notation "x <-- c ;; k" := (bind c (fun x => k))
  (at level 100, c at next level, right associativity).

(** The JavaScript quotient [a / b]. *)
Definition js_div (a b : Q) : result Q :=
  if Qeq_bool b 0 then throw DivisionByZero else ret (a / b)%Q.

(** [Math.round]: the nearest integer, halves rounded up. *)
Definition Math_round (x : Q) : Z := Qfloor (x + (1 # 2))%Q.

(** ** Doubles *)

(** [2^e], for an exponent of either sign. *)
Definition pow2 (e : Z) : Q :=
  if 0 <=? e then inject_Z (2 ^ e) else 1 # Z.to_pos (2 ^ (- e)).

(** The integer nearest to [y], a tie going to the even one. *)
Definition nearest_even (y : Q) : Z :=
  let f := Qfloor y in
  match (y - inject_Z f ?= 1 # 2)%Q with
  | Lt => f
  | Gt => f + 1
  | Eq => if Z.even f then f else f + 1
  end.

(** The exponent of the last place of the doubles of magnitude [a]: 52
    binary places below the leading one, and -1074 for the subnormal
    doubles. *)
Definition ulp_exponent (a : Q) : Z :=
  Z.max 0 (Z.log2 (Qfloor (a * inject_Z (2 ^ 1074))) - 52) - 1074.

(** The double nearest to [x], a tie going to the even significand: the
    value of a [Number] that is stored or computed as [x].  Magnitudes from
    2^1024 on, which are infinite as doubles, have no value here. *)
Definition fl (x : Q) : Q :=
  let e := ulp_exponent (Qabs x) in
  (inject_Z (nearest_even (x / pow2 e)) * pow2 e)%Q.

(** ** models/Game.js *)

Module Game.

Inductive Status : Type := active | inactive | maintenance.

Definition Status_eqb (a b : Status) : bool :=
  match a, b with
  | active, active | inactive, inactive | maintenance, maintenance => true
  | _, _ => false
  end.

(** [rating.distribution]: the five schema paths ['1'] .. ['5']. *)
Record Distribution : Type := mkDistribution {
  star1 : Z; star2 : Z; star3 : Z; star4 : Z; star5 : Z
}.

Record Rating : Type := mkRating {
  average : Q;
  count : Z;
  distribution : Distribution
}.

Record Stats : Type := mkStats {
  playCount : Z;
  totalPlayTime : Q;
  averagePlayTime : Q;
  favoriteCount : Z
}.

Record t : Type := mkGame {
  category : ObjectId;
  rating : Rating;
  stats : Stats;
  status : Status
}.

(** Schema defaults. *)
Definition zeroDistribution : Distribution := mkDistribution 0 0 0 0 0.
Definition defaultRating : Rating := mkRating 0 0 zeroDistribution.
Definition defaultStats : Stats := mkStats 0 0 0 0.

(** [Object.keys(this.rating.distribution)], already through [parseInt]. *)
Definition keys : list Z := [1; 2; 3; 4; 5].

(** [distribution[k]].  The route validators and the schema bounds keep
    [k] within 1..5; a key outside the schema reads as 0 here. *)
Definition get (d : Distribution) (k : Z) : Z :=
  if k =? 1 then star1 d
  else if k =? 2 then star2 d
  else if k =? 3 then star3 d
  else if k =? 4 then star4 d
  else if k =? 5 then star5 d
  else 0.

(** [distribution[k] = v].  A key outside the schema is not a path of the
    document and leaves the five buckets as they are. *)
Definition set (d : Distribution) (k v : Z) : Distribution :=
  if k =? 1 then mkDistribution v (star2 d) (star3 d) (star4 d) (star5 d)
  else if k =? 2 then mkDistribution (star1 d) v (star3 d) (star4 d) (star5 d)
  else if k =? 3 then mkDistribution (star1 d) (star2 d) v (star4 d) (star5 d)
  else if k =? 4 then mkDistribution (star1 d) (star2 d) (star3 d) v (star5 d)
  else if k =? 5 then mkDistribution (star1 d) (star2 d) (star3 d) (star4 d) v
  else d.

Definition with_rating (g : t) (r : Rating) : t :=
  mkGame (category g) r (stats g) (status g).

Definition with_stats (g : t) (s : Stats) : t :=
  mkGame (category g) (rating g) s (status g).

(** The validators that [save] runs on the rating paths:
    [average: { min: 0, max: 5 }].  *)
Definition validate (g : t) : result t :=
  if Qle_bool 0 (average (rating g)) && Qle_bool (average (rating g)) 5
  then ret g else throw ValidationError.

(** Virtual [ratingLevel]. *)
Inductive Level : Type := excellent | very_good | good | fair | poor.

Definition ratingLevel_of (avg : Q) : Level :=
  if Qle_bool (45 # 10) avg then excellent
  else if Qle_bool 4 avg then very_good
  else if Qle_bool (35 # 10) avg then good
  else if Qle_bool 3 avg then fair
  else poor.

Definition ratingLevel (this : t) : Level :=
  ratingLevel_of (average (rating this)).

(** Virtual [popularity]. *)
Definition popularity (this : t) : Q :=
  let playScore := (inject_Z (playCount (stats this)) * (4 # 10))%Q in
  let ratingScore :=
    (average (rating this) * inject_Z (count (rating this)) * (3 # 10))%Q in
  let favoriteScore := (inject_Z (favoriteCount (stats this)) * (3 # 10))%Q in
  (playScore + ratingScore + favoriteScore)%Q.

(** [updateStats(playTime = 0)]. *)
Definition updateStats (this : t) (playTime : Q) : result t :=
  let playCount' := playCount (stats this) + 1 in
  let totalPlayTime' := (totalPlayTime (stats this) + playTime)%Q in
  averagePlayTime' <-- js_div totalPlayTime' (inject_Z playCount') ;;
  ret (with_stats this
         (mkStats playCount' totalPlayTime' averagePlayTime'
                  (favoriteCount (stats this)))).

(** The weighted sum that [updateRating] folds over the buckets. *)
Definition totalRating (d : Distribution) : Z :=
  fold_left (fun sum rating => sum + rating * get d rating) keys 0.

(** [updateRating(newRating)]: the mutation of the in-memory document,
    then the validation of [save]. *)
Definition updateRating (this : t) (newRating : Z) : result t :=
  let distribution' :=
    set (distribution (rating this)) newRating
        (get (distribution (rating this)) newRating + 1) in
  average' <-- js_div (inject_Z (totalRating distribution'))
                      (inject_Z (count (rating this) + 1)) ;;
  validate (with_rating this
              (mkRating average' (count (rating this) + 1) distribution')).

(** [incrementFavorites()]. *)
Definition incrementFavorites (this : t) : t :=
  with_stats this
    (mkStats (playCount (stats this)) (totalPlayTime (stats this))
             (averagePlayTime (stats this)) (favoriteCount (stats this) + 1)).

(** [decrementFavorites()]. *)
Definition decrementFavorites (this : t) : t :=
  if 0 <? favoriteCount (stats this) then
    with_stats this
      (mkStats (playCount (stats this)) (totalPlayTime (stats this))
               (averagePlayTime (stats this)) (favoriteCount (stats this) - 1))
  else this.

End Game.

(** ** models/Review.js: the schema *)

Module Review.

Inductive Status : Type := active | hidden | deleted.

Definition Status_eqb (a b : Status) : bool :=
  match a, b with
  | active, active | hidden, hidden | deleted, deleted => true
  | _, _ => false
  end.

Inductive Reason : Type := spam | inappropriate | offensive | other.

Record Report : Type := mkReport {
  report_user : ObjectId;
  report_reason : Reason;
  report_description : String.string;
  report_createdAt : Z
}.

Record Helpful : Type := mkHelpful {
  helpful_count : Z;
  helpful_users : list ObjectId
}.

Record t : Type := mkReview {
  _id : ObjectId;
  game : ObjectId;
  user : ObjectId;
  rating : Z;
  helpful : Helpful;
  reports : list Report;
  status : Status
}.

Definition with_helpful (r : t) (h : Helpful) : t :=
  mkReview (_id r) (game r) (user r) (rating r) h (reports r) (status r).

Definition with_reports (r : t) (rs : list Report) : t :=
  mkReview (_id r) (game r) (user r) (rating r) (helpful r) rs (status r).

(** [Array.prototype.includes] on an array of ids. *)
Definition includes (l : list ObjectId) (x : ObjectId) : bool :=
  existsb (N.eqb x) l.

(** [Array.prototype.indexOf]: the first position of [x], or -1. *)
Fixpoint indexOf (l : list ObjectId) (x : ObjectId) : Z :=
  match l with
  | [] => -1
  | y :: l' =>
      if N.eqb y x then 0
      else let i := indexOf l' x in if i <? 0 then -1 else i + 1
  end.

(** [Array.prototype.splice(index, 1)] for [index >= 0]. *)
Definition splice1 {A : Type} (l : list A) (index : Z) : list A :=
  firstn (Z.to_nat index) l ++ skipn (S (Z.to_nat index)) l.

(** The document a successful [Review.create] starts from: the schema
    defaults for everything the request does not carry. *)
Definition fresh (id gameId userId : ObjectId) (r : Z) : t :=
  mkReview id gameId userId r (mkHelpful 0 []) [] active.

End Review.

(** ** Values of a request body *)

(** The rating of a body: a JSON number or a JSON string. *)
Inductive Json : Type :=
| JNumber (q : Q)
| JString (s : String.string).

(** The value of a decimal digit. *)
Definition digit (c : Ascii.ascii) : option Z :=
  let n := Z.of_N (Ascii.N_of_ascii c) in
  if (48 <=? n) && (n <=? 57) then Some (n - 48) else None.

(** The value of a string of decimal digits, read after [acc]. *)
Fixpoint digits (s : String.string) (acc : Z) : option Z :=
  match s with
  | String.EmptyString => Some acc
  | String.String c s' =>
      match digit c with
      | Some d => digits s' (10 * acc + d)
      | None => None
      end
  end.

(** One digit or more. *)
Definition unsigned (s : String.string) : option Z :=
  match s with
  | String.EmptyString => None
  | String.String _ _ => digits s 0
  end.

(** A string that matches [/^[-+]?[0-9]+$/], as the number it converts
    to. *)
Definition numeral (s : String.string) : option Z :=
  match s with
  | String.EmptyString => None
  | String.String c s' =>
      if Ascii.eqb c "+"%char then unsigned s'
      else if Ascii.eqb c "-"%char then option_map Z.opp (unsigned s')
      else unsigned s
  end.

(** The integer that the validator reads in a value, if it reads one: a
    number prints as a numeral when it is whole and below 10^21. *)
Definition integer (v : Json) : option Z :=
  match v with
  | JNumber q =>
      if Qeq_bool q (inject_Z (Qfloor q)) && (Z.abs (Qfloor q) <? 10 ^ 21)
      then Some (Qfloor q) else None
  | JString s => numeral s
  end.

(** [isInt({ min, max })]. *)
Definition isInt (min max : Z) (v : Json) : bool :=
  match integer v with
  | Some n => (min <=? n) && (n <=? max)
  | None => false
  end.

(** The cast of a rating to the [Number] of the schema, for the values
    that [isInt] lets through; the schema's rating is a [Z] here. *)
Definition castNumber (v : Json) : result Z :=
  match integer v with
  | Some n => ret n
  | None => throw ValidationError
  end.

(** The path of [rating.distribution] that the property key [v] names, if
    it names one: the keys are ['1'] .. ['5'], and a number is its
    numeral. *)
Definition bucket (v : Json) : option Z :=
  match v with
  | JNumber q =>
      if Qeq_bool q (inject_Z (Qfloor q))
         && (1 <=? Qfloor q) && (Qfloor q <=? 5)
      then Some (Qfloor q) else None
  | JString s =>
      if String.eqb s "1" then Some 1
      else if String.eqb s "2" then Some 2
      else if String.eqb s "3" then Some 3
      else if String.eqb s "4" then Some 4
      else if String.eqb s "5" then Some 5
      else None
  end.

(** A value in the condition of an [if]. *)
Definition truthy (v : Json) : bool :=
  match v with
  | JNumber q => negb (Qeq_bool q 0)
  | JString s => negb (String.eqb s "")
  end.

(** [v !== n] for a number [n]. *)
Definition strict_neq (v : Json) (n : Z) : bool :=
  match v with
  | JNumber q => negb (Qeq_bool q (inject_Z n))
  | JString _ => true
  end.

(** [notEmpty()] and [isLength({ max })] on a text. *)
Definition notEmpty (s : String.string) : bool :=
  negb (Nat.eqb (String.length s) 0).

Definition isLength (max : nat) (s : String.string) : bool :=
  Nat.leb (String.length s) max.

(** [String.prototype.trim]: the white space and the line terminators
    below 256 are the codes 9 to 13, 32 and 160. *)
Definition isWhiteSpace (c : Ascii.ascii) : bool :=
  let n := Z.of_N (Ascii.N_of_ascii c) in
  ((9 <=? n) && (n <=? 13)) || (n =? 32) || (n =? 160).

Fixpoint trimStart (s : String.string) : String.string :=
  match s with
  | String.EmptyString => String.EmptyString
  | String.String c s' => if isWhiteSpace c then trimStart s' else s
  end.

Fixpoint trimEnd (s : String.string) : String.string :=
  match s with
  | String.EmptyString => String.EmptyString
  | String.String c s' =>
      match trimEnd s' with
      | String.EmptyString =>
          if isWhiteSpace c then String.EmptyString
          else String.String c String.EmptyString
      | t => String.String c t
      end
  end.

Definition trim (s : String.string) : String.string :=
  trimEnd (trimStart s).

(** The paths of a review that a body sets besides those of [Review.t]. *)
Record Details : Type := mkDetails {
  content : option String.string;
  title : option String.string;
  pros : list String.string;
  cons : list String.string;
  playTime : option Q;
  difficulty : option String.string
}.

(** The schema validators of these paths, as [validate] runs them on a
    new document ([creating]) or on the paths a request has assigned:
    [content] is required and has [maxlength: 2000]; [title], and every
    entry of [pros] and [cons], is trimmed and has [maxlength: 100];
    [playTime] has [min: 0]; [difficulty] is one of three. *)
Definition Review_validate_details (creating : bool) (d : Details)
    : result unit :=
  if match content d with
     | Some c => notEmpty c && isLength 2000 c
     | None => negb creating
     end
     && match title d with
        | Some t => isLength 100 (trim t)
        | None => true
        end
     && forallb (fun p => isLength 100 (trim p)) (pros d)
     && forallb (fun c => isLength 100 (trim c)) (cons d)
     && match playTime d with
        | Some t => Qle_bool 0 t
        | None => true
        end
     && match difficulty d with
        | Some s =>
            String.eqb s "easy" || String.eqb s "medium" || String.eqb s "hard"
        | None => true
        end
  then ret tt else throw ValidationError.

(** ** The collections *)

Record Store : Type := mkStore {
  games : gmap ObjectId Game.t;
  reviews : list Review.t
}.

(** Store-passing computations that may throw; what was written before an
    exception stays written. *)
Definition M (A : Type) : Type := Store -> Store * result A.

Definition pure {A : Type} (a : A) : M A := fun db => (db, inr a).
Definition lift {A : Type} (r : result A) : M A := fun db => (db, r).
Definition mbind {A B : Type} (c : M A) (k : A -> M B) : M B :=
  fun db =>
    match c db with
    | (db', inr a) => k a db'
    | (db', inl e) => (db', inl e)
    end.

Notation "x <- c ;;; k" := (mbind c (fun x => k))
  (at level 100, c at next level, right associativity).
Notation "c1 ;;; c2" := (mbind c1 (fun _ => c2))
  (at level 100, right associativity).

(** [Game.findById(id)]: a snapshot of the stored document, or [null]. *)
Definition Game_findById (id : ObjectId) : M (option Game.t) :=
  fun db => (db, inr (games db !! id)).

(** The write of [game.save()]: [paths stored] is the stored document with
    the paths the caller assigned overwritten.  A document that is no
    longer in the collection makes [save] throw. *)
Definition Game_write (id : ObjectId) (paths : Game.t -> Game.t) : M unit :=
  fun db =>
    match games db !! id with
    | Some stored =>
        (mkStore (<[id := paths stored]> (games db)) (reviews db), inr tt)
    | None => (db, inl DocumentNotFound)
    end.

(** The paths [updateRating] assigns: [rating.average], [rating.count] and
    the one bucket [rating.distribution[newRating]]. *)
Definition updateRating_paths (this : Game.t) (newRating : Z)
    (stored : Game.t) : Game.t :=
  Game.with_rating stored
    (Game.mkRating
       (Game.average (Game.rating this))
       (Game.count (Game.rating this))
       (Game.set (Game.distribution (Game.rating stored)) newRating
          (Game.get (Game.distribution (Game.rating this)) newRating))).

(** [game.updateRating(newRating)] on the snapshot [this] of document [id]. *)
Definition updateRating (id : ObjectId) (this : Game.t) (newRating : Z)
    : M Game.t :=
  this' <- lift (Game.updateRating this newRating) ;;;
  Game_write id (updateRating_paths this' newRating) ;;;
  pure this'.

(** [game.updateRating(newRating)] with the value of a body as it came.
    A value that names one of the five paths counts into that bucket.  For
    any other value [distribution[newRating]] is [undefined]: the
    increment leaves [NaN] under a key of its own, the sum over the keys
    and the average are [NaN], and [save] rejects the document. *)
Definition updateRating_raw (id : ObjectId) (this : Game.t) (newRating : Json)
    : M Game.t :=
  match bucket newRating with
  | Some k => updateRating id this k
  | None => lift (throw ValidationError)
  end.

(** [Review.find({ game, status: 'active' })], in collection order. *)
Definition activeReviewsOf (gameId : ObjectId) (rs : list Review.t)
    : list Review.t :=
  filter (fun r => N.eqb (Review.game r) gameId
                   && Review.Status_eqb (Review.status r) Review.active) rs.

Definition Review_find_active (gameId : ObjectId) : M (list Review.t) :=
  fun db => (db, inr (activeReviewsOf gameId (reviews db))).

Definition Review_findById (id : ObjectId) : M (option Review.t) :=
  fun db => (db, inr (find (fun r => N.eqb (Review._id r) id) (reviews db))).

(** The write of [review.save()] on a document read from the collection:
    the stored document with this [_id] is replaced. *)
Fixpoint replace_by_id (this : Review.t) (rs : list Review.t) : list Review.t :=
  match rs with
  | [] => []
  | r :: rs' =>
      if N.eqb (Review._id r) (Review._id this) then this :: rs'
      else r :: replace_by_id this rs'
  end.

Definition has_id (id : ObjectId) (rs : list Review.t) : bool :=
  existsb (fun r => N.eqb (Review._id r) id) rs.

Definition Review_update (this : Review.t) : M unit :=
  fun db =>
    if has_id (Review._id this) (reviews db) then
      (mkStore (games db) (replace_by_id this (reviews db)), inr tt)
    else (db, inl DocumentNotFound).

(** The write of [save()] on a new document: it joins the collection,
    unless its [_id] is taken. *)
Definition Review_insert (this : Review.t) : M unit :=
  fun db =>
    if has_id (Review._id this) (reviews db) then (db, inl DuplicateKey)
    else (mkStore (games db) (reviews db ++ [this]), inr tt).

(** [reviewSchema.post('save')]. *)
Definition postSave (this : Review.t) : M unit :=
  if Review.Status_eqb (Review.status this) Review.active then
    game <- Game_findById (Review.game this) ;;;
    match game with
    | Some game => updateRating (Review.game this) game (Review.rating this) ;;;
                   pure tt
    | None => pure tt
    end
  else pure tt.

(** [review.save()] on a stored review: the write, then the post-save
    hook. *)
Definition Review_save (this : Review.t) : M Review.t :=
  Review_update this ;;; postSave this ;;; pure this.

(** The schema validators of the rating: [rating: { min: 1, max: 5 }]. *)
Definition Review_validate (this : Review.t) : result unit :=
  if (1 <=? Review.rating this) && (Review.rating this <=? 5)
  then ret tt else throw ValidationError.

(** [Review.create({...})]: validation, the write, then the post-save
    hook. *)
Definition Review_create (this : Review.t) (details : Details) : M Review.t :=
  lift (Review_validate this) ;;;
  lift (Review_validate_details true details) ;;;
  Review_insert this ;;;
  postSave this ;;;
  pure this.

(** The rescan of the deletion hook: average, count and distribution
    rebuilt from the remaining active reviews [rs] of the game. *)
Definition rescan (game : Game.t) (rs : list Review.t) : result Game.t :=
  let totalRating := fold_left (fun sum review => sum + Review.rating review) rs 0 in
  average' <-- js_div (inject_Z totalRating) (inject_Z (Z.of_nat (length rs))) ;;
  let distribution' :=
    fold_left (fun d review =>
                 Game.set d (Review.rating review)
                   (Game.get d (Review.rating review) + 1))
              rs Game.zeroDistribution in
  Game.validate
    (Game.with_rating game
       (Game.mkRating average' (Z.of_nat (length rs)) distribution')).

(** [reviewSchema.post('findOneAndDelete')]. *)
Definition postFindOneAndDelete (doc : option Review.t) : M unit :=
  match doc with
  | Some doc =>
      if Review.Status_eqb (Review.status doc) Review.active then
        game <- Game_findById (Review.game doc) ;;;
        match game with
        | Some game =>
            rs <- Review_find_active (Review.game doc) ;;;
            if 0 <? Z.of_nat (length rs) then
              game' <- lift (rescan game rs) ;;;
              Game_write (Review.game doc)
                (fun stored => Game.with_rating stored (Game.rating game'))
            else pure tt
        | None => pure tt
        end
      else pure tt
  | None => pure tt
  end.

(** [Review.findByIdAndDelete(id)]: the first document with this [_id]
    leaves the collection and is handed to the hook. *)
Fixpoint remove_by_id (id : ObjectId) (rs : list Review.t) : list Review.t :=
  match rs with
  | [] => []
  | r :: rs' =>
      if N.eqb (Review._id r) id then rs' else r :: remove_by_id id rs'
  end.

Definition Review_remove (id : ObjectId) : M unit :=
  fun db => (mkStore (games db) (remove_by_id id (reviews db)), inr tt).

Definition Review_findByIdAndDelete (id : ObjectId) : M (option Review.t) :=
  doc <- Review_findById id ;;;
  Review_remove id ;;;
  postFindOneAndDelete doc ;;;
  pure doc.

(** ** models/Review.js: the methods *)

(** [markHelpful(userId)]. *)
Definition markHelpful (this : Review.t) (userId : ObjectId) : M Review.t :=
  if negb (Review.includes (Review.helpful_users (Review.helpful this)) userId)
  then
    let users' := Review.helpful_users (Review.helpful this) ++ [userId] in
    Review_save
      (Review.with_helpful this
         (Review.mkHelpful (Z.of_nat (length users')) users'))
  else pure this.

(** [unmarkHelpful(userId)]. *)
Definition unmarkHelpful (this : Review.t) (userId : ObjectId) : M Review.t :=
  let index := Review.indexOf (Review.helpful_users (Review.helpful this)) userId in
  if -1 <? index then
    let users' := Review.splice1 (Review.helpful_users (Review.helpful this)) index in
    Review_save
      (Review.with_helpful this
         (Review.mkHelpful (Z.of_nat (length users')) users'))
  else pure this.

(** [report(userId, reason, description = '')]; [now] is the default of
    [createdAt]. *)
Definition report (this : Review.t) (userId : ObjectId)
    (reason : Review.Reason) (description : String.string) (now : Z)
    : M Review.t :=
  let existingReport :=
    find (fun report => N.eqb (Review.report_user report) userId)
         (Review.reports this) in
  match existingReport with
  | None =>
      Review_save
        (Review.with_reports this
           (Review.reports this
              ++ [Review.mkReport userId reason description now]))
  | Some _ => pure this
  end.

(** ** models/Category.js *)

Module Category.

Record Stats : Type := mkStats {
  gameCount : Z;
  totalPlayCount : Z;
  averageRating : Q
}.

Record t : Type := mkCategory {
  _id : ObjectId;
  stats : Stats
}.

(** The [$match] stage: the active games of the category. *)
Definition matched (categoryId : ObjectId) (db : Store) : list Game.t :=
  filter (fun g => N.eqb (Game.category g) categoryId
                   && Game.Status_eqb (Game.status g) Game.active)
         (map snd (map_to_list (games db))).

(** The [$group] stage over the matched games: no group for no game,
    otherwise one group with [$sum: 1], [$sum: '$stats.playCount'] and
    [$avg: '$rating.average'].  The average that the store holds of a game
    is the double nearest to the quotient of its document; [$avg] adds
    these doubles up (the server keeps the sum in double-double
    arithmetic, taken as exact here), rounds the sum to a double and
    divides it by the number of games. *)
Definition group (gs : list Game.t) : result (list Stats) :=
  match gs with
  | [] => ret []
  | _ :: _ =>
      let n := Z.of_nat (length gs) in
      let plays := fold_left (fun s g => s + Game.playCount (Game.stats g)) gs 0 in
      let total :=
        fold_left (fun s g => (s + fl (Game.average (Game.rating g)))%Q)
                  gs 0%Q in
      avg <-- js_div (fl total) (inject_Z n) ;;
      ret [mkStats n plays (fl avg)]
  end.

(** [updateStats()]; the product by 10 and the quotient by 10 are rounded
    to doubles, [Math.round] is exact. *)
Definition updateStats (db : Store) (this : t) : result t :=
  stats <-- group (matched (_id this) db) ;;
  match stats with
  | s :: _ =>
      ret (mkCategory (_id this)
             (mkStats (gameCount s) (totalPlayCount s)
                      (fl (inject_Z (Math_round (fl (averageRating s * 10)))
                           / 10))))
  | [] => ret (mkCategory (_id this) (mkStats 0 0 0))
  end.

End Category.

(** ** routes/reviews.js

    A handler maps the store to the store it leaves behind and the HTTP
    status it answers with.  Authentication ([protect]) and the rate limiter
    have let the request through.  A malformed id, which makes the store
    throw, is not an [ObjectId] here; of a body the handlers below see the
    paths of the two records and the details. *)

Inductive Role : Type := role_user | role_moderator | role_admin.

Definition is_admin (r : Role) : bool :=
  match r with role_admin => true | _ => false end.

Record ReqUser : Type := mkReqUser {
  req_id : ObjectId;
  req_role : Role
}.

(** [try { ... } catch (error) { res.status(500) }]. *)
Definition try_catch (c : M Z) : Store -> Store * Z :=
  fun db =>
    match c db with
    | (db', inr code) => (db', code)
    | (db', inl _) => (db', 500)
    end.

(** [Review.findOne({ game, user, status: 'active' })]. *)
Definition Review_findOne_active (gameId userId : ObjectId)
    : M (option Review.t) :=
  fun db =>
    (db, inr (find (fun r => N.eqb (Review.game r) gameId
                            && N.eqb (Review.user r) userId
                            && Review.Status_eqb (Review.status r) Review.active)
                   (reviews db))).

(** The body of [POST /api/reviews]; a field that the body does not have
    is [None]. *)
Record ReviewBody : Type := mkReviewBody {
  body_game : option ObjectId;
  body_rating : option Json;
  body_details : Details
}.

(** The validator chain of [POST /api/reviews]: [game] not empty, [rating]
    an integer from 1 to 5, [content] not empty and of at most 2000
    characters, [title], if there is one, of at most 100.  A missing field
    is validated as the empty string. *)
Definition post_validators (body : ReviewBody) : bool :=
  match body_game body with Some _ => true | None => false end
  && match body_rating body with Some v => isInt 1 5 v | None => false end
  && match content (body_details body) with
     | Some c => notEmpty c && isLength 2000 c
     | None => false
     end
  && match title (body_details body) with
     | Some t => isLength 100 t
     | None => true
     end.

(** [POST /api/reviews]; [newId] is the [_id] the driver gives the new
    document.  [gameExists] is read before [Review.create], whose post-save
    hook updates the stored game; the handler then calls [updateRating] on
    its own, older snapshot, with the rating as the body has it.  Between
    the two, [incrementReviewStats] touches the user document only. *)
Definition post_reviews (user : ReqUser) (body : ReviewBody)
    (newId : ObjectId) : Store -> Store * Z :=
  try_catch
    (if negb (post_validators body) then pure 400
     else
       match body_game body with
       | None => pure 404
       | Some game =>
           gameExists <- Game_findById game ;;;
           match gameExists with
           | None => pure 404
           | Some gameExists =>
               existingReview <- Review_findOne_active game (req_id user) ;;;
               match existingReview with
               | Some _ => pure 400
               | None =>
                   match body_rating body with
                   | None => lift (throw ValidationError)
                   | Some rating =>
                       rating' <- lift (castNumber rating) ;;;
                       Review_create
                         (Review.fresh newId game (req_id user) rating')
                         (body_details body) ;;;
                       updateRating_raw game gameExists rating ;;;
                       pure 201
                   end
               end
           end
       end).

(** [review.user.toString() !== req.user.id && req.user.role !== 'admin']. *)
Definition forbidden (review : Review.t) (user : ReqUser) : bool :=
  negb (N.eqb (Review.user review) (req_id user))
  && negb (is_admin (req_role user)).

(** The body of [PUT /api/reviews/:id]: the paths that [Object.assign]
    copies onto the review.  The body is not filtered, so besides the
    rating and the details it can name every other path of [Review.t] but
    the [_id]; [helpful], when it is there, has both its sub-paths. *)
Record ReviewPatch : Type := mkReviewPatch {
  patch_game : option ObjectId;
  patch_user : option ObjectId;
  patch_rating : option Json;
  patch_helpful : option Review.Helpful;
  patch_reports : option (list Review.Report);
  patch_status : option Review.Status;
  patch_details : Details
}.

(** The validator chain of [PUT /api/reviews/:id]: all three optional. *)
Definition put_validators (body : ReviewPatch) : bool :=
  match patch_rating body with Some v => isInt 1 5 v | None => true end
  && match content (patch_details body) with
     | Some c => isLength 2000 c
     | None => true
     end
  && match title (patch_details body) with
     | Some t => isLength 100 t
     | None => true
     end.

(** [Object.assign(review, req.body)]: every path of the body replaces
    that of the document, through the cast of the schema. *)
Definition assign (review : Review.t) (body : ReviewPatch) : result Review.t :=
  rating' <-- match patch_rating body with
              | Some v => castNumber v
              | None => ret (Review.rating review)
              end ;;
  ret (Review.mkReview
         (Review._id review)
         (default (Review.game review) (patch_game body))
         (default (Review.user review) (patch_user body))
         rating'
         (default (Review.helpful review) (patch_helpful body))
         (default (Review.reports review) (patch_reports body))
         (default (Review.status review) (patch_status body))).

(** [PUT /api/reviews/:id].  [save] validates the review as the body has
    left it, writes it and runs the post-save hook; the handler then
    compares the rating of the body with the rating it has just
    assigned. *)
Definition put_reviews (user : ReqUser) (id : ObjectId) (body : ReviewPatch)
    : Store -> Store * Z :=
  try_catch
    (if negb (put_validators body) then pure 400
     else
       review <- Review_findById id ;;;
       match review with
       | None => pure 404
       | Some review =>
           if forbidden review user then pure 403
           else
             review <- lift (assign review body) ;;;
             lift (Review_validate review) ;;;
             lift (Review_validate_details false (patch_details body)) ;;;
             Review_save review ;;;
             (match patch_rating body with
              | Some rating =>
                  if truthy rating && strict_neq rating (Review.rating review)
                  then
                    game <- Game_findById (Review.game review) ;;;
                    match game with
                    | Some game =>
                        updateRating_raw (Review.game review) game rating ;;;
                        pure tt
                    | None => pure tt
                    end
                  else pure tt
              | None => pure tt
              end) ;;;
             pure 200
       end).

(** [DELETE /api/reviews/:id]. *)
Definition delete_reviews (user : ReqUser) (id : ObjectId)
    : Store -> Store * Z :=
  try_catch
    (review <- Review_findById id ;;;
     match review with
     | None => pure 404
     | Some review =>
         if forbidden review user then pure 403
         else Review_findByIdAndDelete id ;;; pure 200
     end).

(** [POST /api/reviews/:id/helpful]. *)
Definition post_reviews_helpful (user : ReqUser) (id : ObjectId)
    : Store -> Store * Z :=
  try_catch
    (review <- Review_findById id ;;;
     match review with
     | None => pure 404
     | Some review =>
         let isHelpful :=
           Review.includes (Review.helpful_users (Review.helpful review))
                           (req_id user) in
         (if isHelpful then unmarkHelpful review (req_id user)
          else markHelpful review (req_id user)) ;;;
         pure 200
     end).

(** [POST /api/reviews/:id/report]; [reason] is [None] when the body has
    none of the four reasons, and [description] when it has no
    description: the validators want [reason] to be one of the four and
    [description], if there is one, of at most 500 characters. *)
Definition post_reviews_report (user : ReqUser) (id : ObjectId)
    (reason : option Review.Reason) (description : option String.string)
    (now : Z) : Store -> Store * Z :=
  try_catch
    (match reason with
     | None => pure 400
     | Some reason =>
         if negb match description with
                 | Some d => isLength 500 d
                 | None => true
                 end
         then pure 400
         else
           review <- Review_findById id ;;;
           match review with
           | None => pure 404
           | Some review =>
               report review (req_id user) reason
                 (default String.EmptyString description) now ;;;
               pure 200
           end
     end).

(** The requests of the review routes, and a run of them in order. *)
Inductive Request : Type :=
| PostReview (user : ReqUser) (body : ReviewBody) (newId : ObjectId)
| PutReview (user : ReqUser) (id : ObjectId) (body : ReviewPatch)
| DeleteReview (user : ReqUser) (id : ObjectId)
| PostHelpful (user : ReqUser) (id : ObjectId)
| PostReport (user : ReqUser) (id : ObjectId) (reason : option Review.Reason)
    (description : option String.string) (now : Z).

Definition handle (rq : Request) : Store -> Store * Z :=
  match rq with
  | PostReview user body newId => post_reviews user body newId
  | PutReview user id body => put_reviews user id body
  | DeleteReview user id => delete_reviews user id
  | PostHelpful user id => post_reviews_helpful user id
  | PostReport user id reason description now =>
      post_reviews_report user id reason description now
  end.

Fixpoint serve (rqs : list Request) (db : Store) : Store * list Z :=
  match rqs with
  | [] => (db, [])
  | rq :: rqs' =>
      let '(db1, code) := handle rq db in
      let '(db2, codes) := serve rqs' db1 in
      (db2, code :: codes)
  end.

(** ** models/User.js: statistics and level *)

Module User.

Record Stats : Type := mkStats {
  gamesPlayed : Z;
  totalPlayTime : Q;
  reviewsPosted : Z;
  achievements : list String.string
}.

Record t : Type := mkUser {
  _id : ObjectId;
  favoriteCategories : list ObjectId;
  stats : Stats
}.

Definition with_stats (u : t) (s : Stats) : t :=
  mkUser (_id u) (favoriteCategories u) s.

Definition with_favoriteCategories (u : t) (cs : list ObjectId) : t :=
  mkUser (_id u) cs (stats u).

(** Virtual [level]. *)
Definition level (this : t) : Z :=
  let totalPoints :=
    (inject_Z (gamesPlayed (stats this)) * 10
     + totalPlayTime (stats this) * (1 # 10)
     + inject_Z (reviewsPosted (stats this)) * 5)%Q in
  Qfloor (totalPoints / 100) + 1.

(** [incrementGameStats(playTime = 0)]. *)
Definition incrementGameStats (this : t) (playTime : Q) : t :=
  with_stats this
    (mkStats (gamesPlayed (stats this) + 1)
             (totalPlayTime (stats this) + playTime)%Q
             (reviewsPosted (stats this))
             (achievements (stats this))).

(** [incrementReviewStats()]. *)
Definition incrementReviewStats (this : t) : t :=
  with_stats this
    (mkStats (gamesPlayed (stats this))
             (totalPlayTime (stats this))
             (reviewsPosted (stats this) + 1)
             (achievements (stats this))).

(** [addAchievement(achievement)]. *)
Definition addAchievement (this : t) (achievement : String.string) : t :=
  if negb (existsb (String.eqb achievement) (achievements (stats this))) then
    with_stats this
      (mkStats (gamesPlayed (stats this))
               (totalPlayTime (stats this))
               (reviewsPosted (stats this))
               (achievements (stats this) ++ [achievement]))
  else this.

End User.

(** ** models/Review.js: the virtual [ratingLevel] *)

Definition Review_ratingLevel (this : Review.t) : Game.Level :=
  if Qle_bool (45 # 10) (inject_Z (Review.rating this)) then Game.excellent
  else if Qle_bool 4 (inject_Z (Review.rating this)) then Game.very_good
  else if Qle_bool (35 # 10) (inject_Z (Review.rating this)) then Game.good
  else if Qle_bool 3 (inject_Z (Review.rating this)) then Game.fair
  else Game.poor.

(** ** routes/games.js: views and favourites *)

(** The paths [Game.updateStats] assigns: the play count and the two play
    times. *)
Definition updateStats_paths (this stored : Game.t) : Game.t :=
  Game.with_stats stored
    (Game.mkStats (Game.playCount (Game.stats this))
                  (Game.totalPlayTime (Game.stats this))
                  (Game.averagePlayTime (Game.stats this))
                  (Game.favoriteCount (Game.stats stored))).

(** The path the two favourite methods assign. *)
Definition favorite_paths (this stored : Game.t) : Game.t :=
  Game.with_stats stored
    (Game.mkStats (Game.playCount (Game.stats stored))
                  (Game.totalPlayTime (Game.stats stored))
                  (Game.averagePlayTime (Game.stats stored))
                  (Game.favoriteCount (Game.stats this))).

(** [GET /api/games/:id]; [user] is [req.user], set by [optionalAuth] when
    the request carries the token of a verified user.  The handler calls
    [game.updateStats()] and [req.user.incrementGameStats()] without an
    argument, so both run with the default play time 0.  The answer is the
    store, the user document as saved, and the HTTP status. *)
Definition get_games_id (user : option User.t) (id : ObjectId)
    : Store -> Store * option User.t * Z :=
  fun db =>
    match games db !! id with
    | None => (db, user, 404)
    | Some game =>
        match user with
        | Some u =>
            match (game' <- lift (Game.updateStats game 0) ;;;
                   Game_write id (updateStats_paths game')) db with
            | (db', inr _) => (db', Some (User.incrementGameStats u 0), 200)
            | (db', inl _) => (db', user, 500)
            end
        | None => (db, user, 200)
        end
    end.

(** The body of a favourite answer: [isFavorited] and [favoriteCount]. *)
Record FavoriteAnswer : Type := mkFavoriteAnswer {
  isFavorited : bool;
  favoriteCount : Z
}.

(** [POST /api/games/:id/favorite]; [user] is [req.user].  The answer is
    the store, the user document as saved, the HTTP status and the body of
    a 200 answer. *)
Definition post_games_favorite (user : User.t) (id : ObjectId)
    : Store -> Store * User.t * Z * option FavoriteAnswer :=
  fun db =>
    match games db !! id with
    | None => (db, user, 404, None)
    | Some game =>
        let isFavorited :=
          Review.includes (User.favoriteCategories user) (Game.category game) in
        let user' :=
          if isFavorited then
            User.with_favoriteCategories user
              (List.filter
                 (fun catId => negb (N.eqb catId (Game.category game)))
                 (User.favoriteCategories user))
          else
            User.with_favoriteCategories user
              (User.favoriteCategories user ++ [Game.category game]) in
        let game' :=
          if isFavorited then Game.decrementFavorites game
          else Game.incrementFavorites game in
        match Game_write id (favorite_paths game') db with
        | (db', inr _) =>
            (db', user', 200,
             Some (mkFavoriteAnswer (negb isFavorited)
                     (Game.favoriteCount (Game.stats game'))))
        | (db', inl _) => (db', user, 500, None)
        end
    end.

(** ** models/Game.js: the most played games *)

(** [.sort({ 'stats.playCount': -1 })] on stored documents ([_id] and
    document): more plays first; documents with equal plays keep the order
    of the scan (the store leaves the order among them open). *)
Fixpoint insert_by_plays (x : ObjectId * Game.t)
    (l : list (ObjectId * Game.t)) : list (ObjectId * Game.t) :=
  match l with
  | [] => [x]
  | y :: l' =>
      if Game.playCount (Game.stats (snd y))
         <? Game.playCount (Game.stats (snd x))
      then x :: l
      else y :: insert_by_plays x l'
  end.

Definition sort_by_plays (l : list (ObjectId * Game.t))
    : list (ObjectId * Game.t) :=
  fold_right insert_by_plays [] l.

(** [Game.getPopularGames(limit = 10)], before [populate]. *)
Definition getPopularGames (limit : Z) (db : Store)
    : list (ObjectId * Game.t) :=
  let found :=
    sort_by_plays
      (List.filter
         (fun doc => Game.Status_eqb (Game.status (snd doc)) Game.active)
         (map_to_list (games db))) in
  if limit =? 0 then found else firstn (Z.to_nat (Z.abs limit)) found.

(** ** routes/users.js: the review statistics of a user *)

Record ReviewStats : Type := mkReviewStats {
  totalReviews : Z;
  averageRating : Q;
  totalHelpful : Z
}.

(** The aggregation of [GET /api/users/stats]: the active reviews of the
    user, grouped into their number, the average of their ratings (the
    double nearest to the sum of the ratings over their number) and the
    sum of their helpful counts; [reviewStats[0]] or the all-zero default
    when the user has no active review. *)
Definition reviewStats (userId : ObjectId) (db : Store) : ReviewStats :=
  let matched :=
    List.filter
      (fun r => N.eqb (Review.user r) userId
                && Review.Status_eqb (Review.status r) Review.active)
      (reviews db) in
  match matched with
  | [] => mkReviewStats 0 0 0
  | _ :: _ =>
      mkReviewStats
        (Z.of_nat (length matched))
        (fl
           (Qdiv
              (inject_Z (fold_left (fun s r => s + Review.rating r) matched 0))
              (inject_Z (Z.of_nat (length matched)))))
        (fold_left
           (fun s r => s + Review.helpful_count (Review.helpful r)) matched 0)
  end.

(** ** Paged lists (GET /api/reviews, GET /api/games, GET /api/users) *)

(** What [Math.ceil(total / limit)] can be for a count [total]. *)
Inductive JsNumber : Type :=
| Finite (z : Z)
| PosInfinity
| NotANumber.

Definition ceil_div (total : nat) (limit : Z) : JsNumber :=
  if limit =? 0 then
    match total with O => NotANumber | S _ => PosInfinity end
  else Finite (Qceiling (inject_Z (Z.of_nat total) / inject_Z limit)).

(** [page < totalPages]. *)
Definition js_lt (page : Z) (n : JsNumber) : bool :=
  match n with
  | Finite z => page <? z
  | PosInfinity => true
  | NotANumber => false
  end.

(** [.skip(skip).limit(limit)] on the documents a sorted query yields: the
    server rejects a negative skip, takes limit 0 as no limit, and a
    negative limit as its absolute value. *)
Definition cursor {A : Type} (skip limit : Z) (docs : list A)
    : option (list A) :=
  if skip <? 0 then None
  else
    let rest := skipn (Z.to_nat skip) docs in
    Some (if limit =? 0 then rest else firstn (Z.to_nat (Z.abs limit)) rest).

Record Pagination : Type := mkPagination {
  currentPage : Z;
  totalPages : JsNumber;
  total : Z;
  hasNext : bool;
  hasPrev : bool
}.

(** The paging block the three list handlers share; [found] is what
    [find(query).sort(sortObj)] yields, [page] and [limit] are the parsed
    query parameters.  [None] is the exception that makes the handler
    answer 500. *)
Definition list_page {A : Type} (found : list A) (page limit : Z)
    : option (list A * Pagination) :=
  let skip := (page - 1) * limit in
  match cursor skip limit found with
  | None => None
  | Some docs =>
      let total := length found in
      let totalPages := ceil_div total limit in
      Some (docs,
            mkPagination page totalPages (Z.of_nat total)
                         (js_lt page totalPages) (1 <? page))
  end.

(** ** Vocabulary of the properties *)

(** A call of one of the two favourite methods, and a run of such calls. *)
Inductive FavoriteCall : Type := Increment | Decrement.

Definition callFavorite (this : Game.t) (c : FavoriteCall) : Game.t :=
  match c with
  | Increment => Game.incrementFavorites this
  | Decrement => Game.decrementFavorites this
  end.

Definition callFavorites (cs : list FavoriteCall) (this : Game.t) : Game.t :=
  fold_left callFavorite cs this.

(** The number of reviews a distribution accounts for. *)
Definition sumBuckets (d : Game.Distribution) : Z :=
  Game.star1 d + Game.star2 d + Game.star3 d + Game.star4 d + Game.star5 d.

Definition sumRatings (rs : list Z) : Z := fold_right Z.add 0 rs.

Definition rating_in_range (r : Z) : Prop := 1 <= r <= 5.

(** A store before any review traffic: no review, every game with the
    schema's default rating. *)
Definition initial (db : Store) : Prop :=
  reviews db = [] /\
  forall id g, games db !! id = Some g -> Game.rating g = Game.defaultRating.

(** The stores the review routes can lead to. *)
Definition reachable (db : Store) : Prop :=
  exists db0 rqs, initial db0 /\ db = fst (serve rqs db0).

(** What the methods keep of a review's helpful votes and reports. *)
Definition helpful_counted (r : Review.t) : Prop :=
  Review.helpful_count (Review.helpful r)
  = Z.of_nat (length (Review.helpful_users (Review.helpful r))).

Definition reports_ok (r : Review.t) : Prop :=
  List.NoDup (map Review.report_user (Review.reports r)).

(** What the review routes keep of every stored review: its rating lies
    in 1..5.  (Its helpful votes and its reports are what the last [PUT]
    has made them.) *)
Definition review_ok (r : Review.t) : Prop :=
  rating_in_range (Review.rating r).

Definition buckets_match_count (g : Game.t) : Prop :=
  sumBuckets (Game.distribution (Game.rating g)) = Game.count (Game.rating g).

Definition buckets_nonneg (d : Game.Distribution) : Prop :=
  0 <= Game.star1 d /\ 0 <= Game.star2 d /\ 0 <= Game.star3 d /\
  0 <= Game.star4 d /\ 0 <= Game.star5 d.

(** What holds of a stored game's rating: no bucket is negative, the
    buckets add up to the count, and a game without a counted review has
    average 0. *)
Definition rating_ok (g : Game.t) : Prop :=
  buckets_nonneg (Game.distribution (Game.rating g)) /\
  buckets_match_count g /\
  (Game.count (Game.rating g) = 0 -> (Game.average (Game.rating g) == 0)%Q).

(** The invariant of the review routes. *)
Definition Inv (db : Store) : Prop :=
  (forall id g, games db !! id = Some g -> rating_ok g)
  /\ Forall review_ok (reviews db).

(** ** Auxiliary definitions of the proofs *)

(** The document [updateRating] leaves when its [save] goes through. *)
Definition updateRating_result (this : Game.t) (newRating : Z) : Game.t :=
  let distribution' :=
    Game.set (Game.distribution (Game.rating this)) newRating
      (Game.get (Game.distribution (Game.rating this)) newRating + 1) in
  Game.with_rating this
    (Game.mkRating
       (inject_Z (Game.totalRating distribution')
        / inject_Z (Game.count (Game.rating this) + 1))%Q
       (Game.count (Game.rating this) + 1)
       distribution').

(** Details that the validators of the route and of the schema let
    through on a new review: a content of 1 to 2000 characters, a title of
    at most 100, pros and cons of at most 100 each, a play time that is
    not negative, one of the three difficulties. *)
Definition details_ok (d : Details) : Prop :=
  (exists c, content d = Some c /\ (1 <= String.length c <= 2000)%nat) /\
  (forall t, title d = Some t -> (String.length t <= 100)%nat) /\
  (forall p, In p (pros d) -> (String.length p <= 100)%nat) /\
  (forall c, In c (cons d) -> (String.length c <= 100)%nat) /\
  (forall t, playTime d = Some t -> (0 <= t)%Q) /\
  (forall s, difficulty d = Some s ->
     s = "easy" \/ s = "medium" \/ s = "hard").

(** One review submission: who posts, the rating (sent as a JSON number),
    the details, and the [_id] of the new review. *)
Record Submission : Type := mkSubmission {
  sub_user : ReqUser;
  sub_rating : Z;
  sub_details : Details;
  sub_id : ObjectId
}.

Definition submit (game : ObjectId) (s : Submission) : Request :=
  PostReview (sub_user s)
    (mkReviewBody (Some game) (Some (JNumber (inject_Z (sub_rating s))))
       (sub_details s))
    (sub_id s).

(** The submissions come from distinct users who have no active review of
    the game yet, the driver gives them distinct unused ids, and their
    details pass the validators. *)
Definition admissible (db : Store) (game : ObjectId) (subs : list Submission)
    : Prop :=
  List.NoDup (map (fun s => req_id (sub_user s)) subs) /\
  List.NoDup (map sub_id subs) /\
  (forall r, In r (reviews db) ->
     ~ In (Review._id r) (map sub_id subs)) /\
  (forall r, In r (reviews db) ->
     Review.game r = game -> Review.status r = Review.active ->
     ~ In (Review.user r) (map (fun s => req_id (sub_user s)) subs)) /\
  Forall (fun s => details_ok (sub_details s)) subs.

(** What a submission needs of the game to go through. *)
Definition game_ok (g : Game.t) : Prop :=
  buckets_nonneg (Game.distribution (Game.rating g)) /\ buckets_match_count g.

(** The documents that [markHelpful], [unmarkHelpful] and [report] pass to
    [save]. *)
Definition marked (this : Review.t) (userId : ObjectId) : Review.t :=
  let users' := Review.helpful_users (Review.helpful this) ++ [userId] in
  Review.with_helpful this (Review.mkHelpful (Z.of_nat (length users')) users').

Definition unmarked (this : Review.t) (userId : ObjectId) : Review.t :=
  let users' :=
    Review.splice1 (Review.helpful_users (Review.helpful this))
      (Review.indexOf (Review.helpful_users (Review.helpful this)) userId) in
  Review.with_helpful this (Review.mkHelpful (Z.of_nat (length users')) users').

Definition reported (this : Review.t) (userId : ObjectId)
    (reason : Review.Reason) (description : String.string) (now : Z)
    : Review.t :=
  Review.with_reports this
    (Review.reports this ++ [Review.mkReport userId reason description now]).

(** The distribution the rescan builds by counting [rs] into [d]. *)
Definition rebuilt (rs : list Review.t) (d : Game.Distribution)
    : Game.Distribution :=
  fold_left (fun d review =>
               Game.set d (Review.rating review)
                 (Game.get d (Review.rating review) + 1))
            rs d.

(** The two sums of the [$group] stage: of the play counts, and of the
    averages as the store holds them. *)
Definition sumPlays (gs : list Game.t) : Z :=
  fold_left (fun s g => s + Game.playCount (Game.stats g)) gs 0.

Definition sumAverages (gs : list Game.t) : Q :=
  fold_left (fun s g => (s + fl (Game.average (Game.rating g)))%Q) gs 0%Q.

(** The tenths that [updateStats] rounds the mean of [gs] to. *)
Definition tenths (gs : list Game.t) : Z :=
  Math_round
    (fl (fl (fl (sumAverages gs) / inject_Z (Z.of_nat (length gs))) * 10)).

(** The stats [updateStats] stores for the matched games [gs]. *)
Definition rollup (gs : list Game.t) : Category.Stats :=
  match gs with
  | [] => Category.mkStats 0 0 0
  | _ :: _ =>
      Category.mkStats (Z.of_nat (length gs)) (sumPlays gs)
        (fl (inject_Z (tenths gs) / 10))
  end.

(** The active games of a category, as the store has them: [g] is the
    game with [id], it is of the category, and it is active. *)
Definition in_category (db : Store) (categoryId id : ObjectId) (g : Game.t)
    : Prop :=
  games db !! id = Some g /\
  Game.category g = categoryId /\
  Game.status g = Game.active.

(** [pop] lists these games with their ids, each once. *)
Definition population (db : Store) (categoryId : ObjectId)
    (pop : list (ObjectId * Game.t)) : Prop :=
  List.NoDup pop /\
  forall id g, In (id, g) pop <-> in_category db categoryId id g.

(** ** Vocabulary of the further properties *)

(** One write of the review routes to the rating of a game: an incremental
    update by a rating in 1..5, or a rescan of a non-empty population. *)
Definition rating_step (g g' : Game.t) : Prop :=
  (exists r, rating_in_range r /\ Game.updateRating g r = inr g') \/
  (exists rs,
      rs <> [] /\
      Forall (fun r => rating_in_range (Review.rating r)) rs /\
      rescan g rs = inr g').

(** What a save may do to the games: nothing, or one such write to one
    stored game. *)
Definition touch (db db' : Store) : Prop :=
  games db' = games db \/
  exists id g g',
    games db !! id = Some g /\
    games db' = <[id := g']> (games db) /\
    rating_step g g'.

(** What a request may do to the games: up to two such writes, that of the
    post-save hook and that of the handler. *)
Definition touches (db db' : Store) : Prop :=
  exists db1, touch db db1 /\ touch db1 db'.

(** The paths of a game that are not its rating. *)
Definition same_besides_rating (g g' : Game.t) : Prop :=
  Game.category g' = Game.category g /\
  Game.stats g' = Game.stats g /\
  Game.status g' = Game.status g.

(** Two stores with the same games up to their ratings. *)
Definition frame (db db' : Store) : Prop :=
  forall id,
    match games db !! id, games db' !! id with
    | Some g, Some g' => same_besides_rating g g'
    | None, None => True
    | _, _ => False
    end.

(** A computation that leaves the games as they are up to their ratings. *)
Definition framed {A : Type} (c : M A) : Prop :=
  forall db, frame db (fst (c db)).

(** The average is the weighted mean of the distribution and lies within
    the bounds of the schema. *)
Definition mean_ok (g : Game.t) : Prop :=
  (Game.average (Game.rating g) * inject_Z (Game.count (Game.rating g))
   == inject_Z (Game.totalRating (Game.distribution (Game.rating g))))%Q /\
  (0 <= Game.average (Game.rating g))%Q /\
  (Game.average (Game.rating g) <= 5)%Q.

(** The sum of the ratings of a list of reviews. *)
Definition sumReviewRatings (rs : list Review.t) : Z :=
  sumRatings (map Review.rating rs).

(** [x] has at least as many plays as [y]. *)
Definition more_plays (x y : ObjectId * Game.t) : Prop :=
  Game.playCount (Game.stats (snd y)) <= Game.playCount (Game.stats (snd x)).

(** The helpful votes that a list of reviews holds, and the sum of their
    [helpful.count]. *)
Definition votesHeld (rs : list Review.t) : Z :=
  fold_right
    (fun r s => Z.of_nat (length (Review.helpful_users (Review.helpful r))) + s)
    0 rs.

Definition countsHeld (rs : list Review.t) : Z :=
  fold_right (fun r s => Review.helpful_count (Review.helpful r) + s) 0 rs.

(** The numeral of a rating in 1..5. *)
Definition star_name (r : Z) : String.string :=
  if r =? 1 then "1"
  else if r =? 2 then "2"
  else if r =? 3 then "3"
  else if r =? 4 then "4"
  else "5".

(** The value [v] is the rating [r], as a number or as its numeral. *)
Definition names (v : Json) (r : Z) : Prop :=
  (exists q, v = JNumber q /\ (q == inject_Z r)%Q) \/ v = JString (star_name r).

Fixpoint zeros (n : nat) : String.string :=
  match n with
  | O => String.EmptyString
  | S n' => String.String "0"%char (zeros n')
  end.

(** The value [v] reads as the integer [r]: it is the number [r], or the
    numeral of [r] after any number of zeros, with a plus sign before
    them or without. *)
Definition reads_as (v : Json) (r : Z) : Prop :=
  (exists q, v = JNumber q /\ (q == inject_Z r)%Q) \/
  (exists n,
      v = JString (String.append (zeros n) (star_name r)) \/
      v = JString (String.String "+"%char
                     (String.append (zeros n) (star_name r)))).

(** The bodies that the validators of [POST /api/reviews] let through. *)
Definition well_formed (body : ReviewBody) : Prop :=
  is_Some (body_game body) /\
  (exists v r,
      body_rating body = Some v /\ rating_in_range r /\ reads_as v r) /\
  (exists c,
      content (body_details body) = Some c /\
      (1 <= String.length c <= 2000)%nat) /\
  (forall t,
      title (body_details body) = Some t -> (String.length t <= 100)%nat).

(** Case analysis on a rating known to lie in 1..5. *)
Ltac star_cases k H :=
  let C := fresh "C" in
  assert (C : k = 1 \/ k = 2 \/ k = 3 \/ k = 4 \/ k = 5)
    by (unfold rating_in_range in H; lia);
  destruct C as [-> | [-> | [-> | [-> | ->]]]].

(** A store with one game and no review, and a user, for the examples. *)
Definition example_game : Game.t :=
  Game.mkGame 7%N Game.defaultRating Game.defaultStats Game.active.

Definition example_store : Store :=
  mkStore (<[1%N := example_game]> ∅) [].

Definition example_user : ReqUser := mkReqUser 10%N role_user.

(** A catalog of two active games of category 7, with averages 4 and 2,
    an active game of category 8 and an inactive game of category 7, and
    the category document. *)
Definition example_catalog : Store :=
  mkStore
    (<[1%N := Game.mkGame 7%N
                (Game.mkRating 4 1 (Game.mkDistribution 0 0 0 1 0))
                Game.defaultStats Game.active]>
       (<[2%N := Game.mkGame 7%N
                   (Game.mkRating 2 1 (Game.mkDistribution 0 1 0 0 0))
                   Game.defaultStats Game.active]>
          (<[3%N := Game.mkGame 8%N
                      (Game.mkRating 5 1 (Game.mkDistribution 0 0 0 0 1))
                      Game.defaultStats Game.active]>
             (<[4%N := Game.mkGame 7%N
                         (Game.mkRating 1 1 (Game.mkDistribution 1 0 0 0 0))
                         Game.defaultStats Game.inactive]> ∅))))
    [].

Definition example_category : Category.t :=
  Category.mkCategory 7%N (Category.mkStats 0 0 0).

(** Two active games of category 9 with ten reviews each, of averages 1.1
    and 4.6. *)
Definition example_shelf : Store :=
  mkStore
    (<[1%N := Game.mkGame 9%N
                (Game.mkRating (11 # 10) 10 (Game.mkDistribution 9 1 0 0 0))
                Game.defaultStats Game.active]>
       (<[2%N := Game.mkGame 9%N
                   (Game.mkRating (46 # 10) 10 (Game.mkDistribution 0 0 0 4 6))
                   Game.defaultStats Game.active]> ∅))
    [].

(** A review that user 11 has marked helpful and reported. *)
Definition example_review : Review.t :=
  Review.mkReview 100%N 1%N 10%N 5
    (Review.mkHelpful 1 [11%N])
    [Review.mkReport 11%N Review.spam String.EmptyString 0]
    Review.active.

(** The details of a short review, and the body that sends them with a
    rating to the game of [example_store]. *)
Definition example_details : Details :=
  mkDetails (Some "Great fun") (Some "Fun") ["  short levels "] [] (Some 2%Q)
    (Some "easy").

Definition example_body (rating : Z) : ReviewBody :=
  mkReviewBody (Some 1%N) (Some (JNumber (inject_Z rating))) example_details.

(** The scenario of four reviews [5; 5; 5; 1] by four users. *)
Definition example_submissions : list Submission :=
  [mkSubmission (mkReqUser 10%N role_user) 5 example_details 100%N;
   mkSubmission (mkReqUser 11%N role_user) 5 example_details 101%N;
   mkSubmission (mkReqUser 12%N role_user) 5 example_details 102%N;
   mkSubmission (mkReqUser 13%N role_user) 1 example_details 103%N].

(** The store after two submissions, of ratings 5 and 3, to the game of
    [example_store], and a user document without favourites. *)
Definition example_reviewed : Store :=
  fst (serve [PostReview (mkReqUser 10%N role_user) (example_body 5) 100%N;
              PostReview (mkReqUser 11%N role_user) (example_body 3) 101%N]
         example_store).

Definition example_reviewed_game : Game.t :=
  updateRating_result (updateRating_result example_game 5) 3.

Definition example_account : User.t :=
  User.mkUser 10%N [] (User.mkStats 0 0 0 []).

(** ** The step function [ratingLevel] *)

Lemma Qle_bool_false (x y : Q) : Qle_bool x y = false <-> (y < x)%Q.
Proof.
  split; intros H.
  - apply Qnot_le_lt. intros Hle. apply Qle_bool_iff in Hle. congruence.
  - destruct (Qle_bool x y) eqn:E; [|reflexivity].
    apply Qle_bool_iff in E. exfalso. apply (Qlt_not_le _ _ H E).
Qed.

Lemma ratingLevel_of_spec (avg : Q) :
  (Game.ratingLevel_of avg = Game.excellent <-> (45 # 10 <= avg)%Q) /\
  (Game.ratingLevel_of avg = Game.very_good
     <-> (4 <= avg)%Q /\ (avg < 45 # 10)%Q) /\
  (Game.ratingLevel_of avg = Game.good
     <-> (35 # 10 <= avg)%Q /\ (avg < 4)%Q) /\
  (Game.ratingLevel_of avg = Game.fair
     <-> (3 <= avg)%Q /\ (avg < 35 # 10)%Q) /\
  (Game.ratingLevel_of avg = Game.poor <-> (avg < 3)%Q).
Proof.
  unfold Game.ratingLevel_of;
    destruct (Qle_bool (45 # 10) avg) eqn:E1;
    [| destruct (Qle_bool 4 avg) eqn:E2;
       [| destruct (Qle_bool (35 # 10) avg) eqn:E3;
          [| destruct (Qle_bool 3 avg) eqn:E4]]];
    repeat match goal with
           | H : Qle_bool _ _ = true |- _ => apply Qle_bool_iff in H
           | H : Qle_bool _ _ = false |- _ => apply Qle_bool_false in H
           end;
    repeat split; intros; try discriminate; try reflexivity;
    repeat match goal with H : _ /\ _ |- _ => destruct H end;
    lra.
Qed.

(** C6: [ratingLevel] is a total step function of the average with the
    thresholds 4.5, 4.0, 3.5 and 3.0, it gives equal levels to equal
    averages, and it maps 4.5 to excellent, 4.49999 to very-good, 3.0 to
    fair and 0 to poor. *)
Theorem ratingLevel_step_function :
  (forall this : Game.t,
      let avg := Game.average (Game.rating this) in
      (Game.ratingLevel this = Game.excellent <-> (45 # 10 <= avg)%Q) /\
      (Game.ratingLevel this = Game.very_good
         <-> ~ (45 # 10 <= avg)%Q /\ (4 <= avg)%Q) /\
      (Game.ratingLevel this = Game.good
         <-> ~ (4 <= avg)%Q /\ (35 # 10 <= avg)%Q) /\
      (Game.ratingLevel this = Game.fair
         <-> ~ (35 # 10 <= avg)%Q /\ (3 <= avg)%Q) /\
      (Game.ratingLevel this = Game.poor <-> ~ (3 <= avg)%Q)) /\
  (forall a b : Q, (a == b)%Q -> Game.ratingLevel_of a = Game.ratingLevel_of b) /\
  Game.ratingLevel_of (45 # 10) = Game.excellent /\
  Game.ratingLevel_of (449999 # 100000) = Game.very_good /\
  Game.ratingLevel_of 3 = Game.fair /\
  Game.ratingLevel_of 0 = Game.poor.
Proof.
  split; [| split; [| repeat split]].
  - intros this avg. unfold Game.ratingLevel. fold avg.
    destruct (ratingLevel_of_spec avg) as (H1 & H2 & H3 & H4 & H5).
    assert (N : forall a b : Q, ~ (a <= b)%Q <-> (b < a)%Q)
      by (intros; split; [apply Qnot_le_lt | apply Qlt_not_le]).
    rewrite !N, H1, H2, H3, H4, H5. tauto.
  - intros a b Hab. unfold Game.ratingLevel_of.
    assert (R : forall c, Qle_bool c a = Qle_bool c b).
    { intros c. destruct (Qle_bool c a) eqn:Ea; symmetry.
      - apply Qle_bool_iff. apply Qle_bool_iff in Ea. now rewrite <- Hab.
      - apply Qle_bool_false. apply Qle_bool_false in Ea. now rewrite <- Hab. }
    now rewrite !R.
Qed.

(** ** The derived score [popularity] *)

(** C8: the popularity score is playCount * 0.4 + average * count * 0.3 +
    favoriteCount * 0.3 of the document it is read from; it depends on
    these four fields only, and a read after a mutation of the document
    sees the mutated fields. *)
Theorem popularity_formula :
  (forall this : Game.t,
      (Game.popularity this
       == inject_Z (Game.playCount (Game.stats this)) * (4 # 10)
          + Game.average (Game.rating this)
            * inject_Z (Game.count (Game.rating this)) * (3 # 10)
          + inject_Z (Game.favoriteCount (Game.stats this)) * (3 # 10))%Q) /\
  (forall a b : Game.t,
      Game.playCount (Game.stats a) = Game.playCount (Game.stats b) ->
      (Game.average (Game.rating a) == Game.average (Game.rating b))%Q ->
      Game.count (Game.rating a) = Game.count (Game.rating b) ->
      Game.favoriteCount (Game.stats a) = Game.favoriteCount (Game.stats b) ->
      (Game.popularity a == Game.popularity b)%Q) /\
  (forall this : Game.t,
      (Game.popularity (Game.incrementFavorites this)
       == Game.popularity this + (3 # 10))%Q) /\
  (forall (this this' : Game.t) (newRating : Z),
      Game.updateRating this newRating = inr this' ->
      (Game.popularity this'
       == inject_Z (Game.playCount (Game.stats this)) * (4 # 10)
          + Game.average (Game.rating this')
            * inject_Z (Game.count (Game.rating this) + 1) * (3 # 10)
          + inject_Z (Game.favoriteCount (Game.stats this)) * (3 # 10))%Q).
Proof.
  split; [| split; [| split]].
  - intros this. unfold Game.popularity. cbv zeta. reflexivity.
  - intros a b Hp Ha Hc Hf. unfold Game.popularity. cbv zeta.
    rewrite Hp, Ha, Hc, Hf. reflexivity.
  - intros this. unfold Game.popularity, Game.incrementFavorites. cbn.
    rewrite inject_Z_plus. ring.
  - intros this this' newRating H. unfold Game.updateRating in H.
    destruct (js_div _ _) as [e | avg]; simpl in H; [discriminate |].
    unfold Game.validate in H. simpl in H.
    destruct (Qle_bool 0 avg && Qle_bool avg 5); [| discriminate].
    injection H as <-. unfold Game.popularity. cbn. reflexivity.
Qed.

(** ** The favourite counter *)

Lemma incrementFavorites_count (this : Game.t) :
  Game.favoriteCount (Game.stats (Game.incrementFavorites this))
  = Game.favoriteCount (Game.stats this) + 1.
Proof. reflexivity. Qed.

Lemma decrementFavorites_nonneg (this : Game.t) :
  0 <= Game.favoriteCount (Game.stats this) ->
  0 <= Game.favoriteCount (Game.stats (Game.decrementFavorites this)).
Proof.
  intros H. unfold Game.decrementFavorites.
  destruct (0 <? _) eqn:E; simpl; [apply Z.ltb_lt in E; lia | assumption].
Qed.

Lemma callFavorites_nonneg (cs : list FavoriteCall) :
  forall this : Game.t,
    0 <= Game.favoriteCount (Game.stats this) ->
    0 <= Game.favoriteCount (Game.stats (callFavorites cs this)).
Proof.
  induction cs as [| c cs IH]; intros this H; [assumption |].
  change (callFavorites (c :: cs) this)
    with (callFavorites cs (callFavorite this c)).
  apply IH. destruct c; unfold callFavorite.
  - rewrite incrementFavorites_count. lia.
  - now apply decrementFavorites_nonneg.
Qed.

(** C4: along every sequence of incrementFavorites and decrementFavorites
    calls on a game whose favoriteCount is not negative, the counter is
    not negative after any number of the calls; decrementFavorites at 0
    returns the document unchanged, below that it subtracts 1, and
    incrementFavorites adds exactly 1. *)
Theorem favoriteCount_never_negative
    (this : Game.t) (cs : list FavoriteCall) (n : nat) :
  0 <= Game.favoriteCount (Game.stats this) ->
  0 <= Game.favoriteCount (Game.stats (callFavorites (firstn n cs) this)) /\
  (Game.favoriteCount (Game.stats this) = 0 ->
   Game.decrementFavorites this = this) /\
  (0 < Game.favoriteCount (Game.stats this) ->
   Game.favoriteCount (Game.stats (Game.decrementFavorites this))
   = Game.favoriteCount (Game.stats this) - 1) /\
  Game.favoriteCount (Game.stats (Game.incrementFavorites this))
  = Game.favoriteCount (Game.stats this) + 1.
Proof.
  intros H. split; [now apply callFavorites_nonneg |].
  split; [| split].
  - intros H0. unfold Game.decrementFavorites. now rewrite H0.
  - intros Hpos. unfold Game.decrementFavorites.
    apply Z.ltb_lt in Hpos. now rewrite Hpos.
  - apply incrementFavorites_count.
Qed.

(** ** The distribution buckets *)

Lemma get_set (d : Game.Distribution) (k v : Z) :
  rating_in_range k -> Game.get (Game.set d k v) k = v.
Proof. intros H. star_cases k H; reflexivity. Qed.

Lemma set_get (d : Game.Distribution) (k : Z) :
  Game.set d k (Game.get d k) = d.
Proof.
  destruct d. unfold Game.set, Game.get. cbn.
  repeat (destruct (k =? _); [reflexivity |]). reflexivity.
Qed.

Lemma totalRating_unfold (d : Game.Distribution) :
  Game.totalRating d
  = 1 * Game.star1 d + 2 * Game.star2 d + 3 * Game.star3 d
    + 4 * Game.star4 d + 5 * Game.star5 d.
Proof. unfold Game.totalRating. cbn. lia. Qed.

Lemma sumBuckets_set (d : Game.Distribution) (k v : Z) :
  rating_in_range k ->
  sumBuckets (Game.set d k v) = sumBuckets d + (v - Game.get d k).
Proof.
  intros H. destruct d. star_cases k H; unfold sumBuckets; cbn; lia.
Qed.

Lemma totalRating_set (d : Game.Distribution) (k v : Z) :
  rating_in_range k ->
  Game.totalRating (Game.set d k v)
  = Game.totalRating d + k * (v - Game.get d k).
Proof.
  intros H. rewrite !totalRating_unfold.
  destruct d. star_cases k H; cbn; lia.
Qed.

Lemma buckets_nonneg_set (d : Game.Distribution) (k : Z) :
  buckets_nonneg d -> buckets_nonneg (Game.set d k (Game.get d k + 1)).
Proof.
  unfold buckets_nonneg, Game.set, Game.get. destruct d. cbn.
  intros H. repeat (destruct (k =? _); [cbn; lia |]). cbn. lia.
Qed.

Lemma totalRating_bounds (d : Game.Distribution) :
  buckets_nonneg d ->
  sumBuckets d <= Game.totalRating d <= 5 * sumBuckets d.
Proof.
  unfold buckets_nonneg, sumBuckets. rewrite totalRating_unfold.
  destruct d. cbn. lia.
Qed.

(** ** Quotients *)

Lemma js_div_inject_Z (a : Q) (b : Z) :
  b <> 0 -> js_div a (inject_Z b) = inr (a / inject_Z b)%Q.
Proof.
  intros H. unfold js_div.
  destruct (Qeq_bool (inject_Z b) 0) eqn:E; [| reflexivity].
  apply Qeq_bool_eq in E. unfold Qeq in E. simpl in E. lia.
Qed.

Lemma quotient_bounds (a b lo hi : Z) :
  0 < b -> lo * b <= a <= hi * b ->
  (inject_Z lo <= inject_Z a / inject_Z b)%Q /\
  (inject_Z a / inject_Z b <= inject_Z hi)%Q.
Proof.
  intros Hb [H1 H2].
  assert (Hb' : (0 < inject_Z b)%Q) by (change 0%Q with (inject_Z 0); rewrite <- Zlt_Qlt; exact Hb).
  split.
  - apply Qle_shift_div_l; [assumption |].
    rewrite <- inject_Z_mult, <- Zle_Qle. exact H1.
  - apply Qle_shift_div_r; [assumption |].
    rewrite <- inject_Z_mult, <- Zle_Qle. exact H2.
Qed.

Lemma quotient_times (a b : Z) :
  b <> 0 -> (inject_Z a / inject_Z b * inject_Z b == inject_Z a)%Q.
Proof.
  intros H. field. intros E. unfold Qeq in E. simpl in E. lia.
Qed.

(** ** [updateRating] on a document *)

Lemma updateRating_inr (this this' : Game.t) (newRating : Z) :
  Game.updateRating this newRating = inr this' ->
  this' = updateRating_result this newRating.
Proof.
  unfold Game.updateRating, js_div. cbv zeta.
  destruct (Qeq_bool _ 0); cbn [bind throw ret]; [discriminate |].
  unfold Game.validate.
  destruct (_ && _); cbn; [| discriminate].
  intros H. injection H as <-. reflexivity.
Qed.

Lemma updateRating_succeeds (this : Game.t) (newRating : Z) :
  rating_in_range newRating ->
  buckets_nonneg (Game.distribution (Game.rating this)) ->
  buckets_match_count this ->
  Game.updateRating this newRating = inr (updateRating_result this newRating).
Proof.
  intros Hr Hn Hc. unfold buckets_match_count in Hc.
  set (d := Game.distribution (Game.rating this)) in *.
  set (c := Game.count (Game.rating this)) in *.
  assert (Hc0 : 0 <= c) by (unfold buckets_nonneg, sumBuckets in *; lia).
  unfold Game.updateRating. cbv zeta. fold d c.
  rewrite js_div_inject_Z by lia. cbn [bind].
  unfold Game.validate. cbn [Game.rating Game.with_rating Game.average].
  pose proof (totalRating_bounds _ (buckets_nonneg_set d newRating Hn)) as B.
  rewrite sumBuckets_set in B by assumption.
  set (d' := Game.set d newRating (Game.get d newRating + 1)) in *.
  assert (Hb : 0 * (c + 1) <= Game.totalRating d' <= 5 * (c + 1)) by lia.
  apply quotient_bounds in Hb; [| lia]. destruct Hb as [H0 H5].
  apply Qle_bool_iff in H0, H5. change (inject_Z 0) with 0%Q in H0.
  change (inject_Z 5) with 5%Q in H5. rewrite H0, H5. reflexivity.
Qed.

(** ** Symbolic execution of the store primitives *)

Lemma store_eta (db : Store) : mkStore (games db) (reviews db) = db.
Proof. now destruct db. Qed.

Lemma updateRating_paths_self (this : Game.t) (newRating : Z) (stored : Game.t) :
  Game.updateRating stored newRating = inr this ->
  updateRating_paths this newRating stored = this.
Proof.
  intros H. apply updateRating_inr in H. subst this.
  unfold updateRating_paths, updateRating_result.
  cbn [Game.rating Game.with_rating Game.average Game.count Game.distribution].
  unfold Game.with_rating. f_equal. f_equal.
  destruct (Game.distribution (Game.rating stored)) as [a b c d e].
  unfold Game.set, Game.get. cbn.
  repeat (destruct (newRating =? _); [reflexivity |]). reflexivity.
Qed.

Lemma updateRating_paths_idem (this : Game.t) (newRating : Z) :
  updateRating_paths this newRating this = this.
Proof.
  unfold updateRating_paths. rewrite set_get. now destruct this as [? [] ? ?].
Qed.

(** The save of a snapshot that is still the stored document. *)
Lemma updateRating_current (id : ObjectId) (this : Game.t) (newRating : Z)
    (db : Store) :
  games db !! id = Some this ->
  updateRating id this newRating db =
  match Game.updateRating this newRating with
  | inr this' =>
      (mkStore (<[id := this']> (games db)) (reviews db), inr this')
  | inl e => (db, inl e)
  end.
Proof.
  intros H. unfold updateRating, mbind, lift, Game_write, pure.
  destruct (Game.updateRating this newRating) as [e | this'] eqn:E;
    [reflexivity |].
  rewrite H. now rewrite (updateRating_paths_self _ _ _ E).
Qed.

(** The save of a stale snapshot over a document that already carries the
    same update: nothing changes. *)
Lemma updateRating_again (id : ObjectId) (this this' : Game.t)
    (newRating : Z) (db : Store) :
  Game.updateRating this newRating = inr this' ->
  games db !! id = Some this' ->
  updateRating id this newRating db = (db, inr this').
Proof.
  intros E H. unfold updateRating, mbind, lift, Game_write, pure.
  rewrite E, H, updateRating_paths_idem.
  rewrite insert_id by assumption. now rewrite store_eta.
Qed.

Lemma postSave_exec (this : Review.t) (db : Store) :
  postSave this db =
  if Review.Status_eqb (Review.status this) Review.active then
    match games db !! Review.game this with
    | Some game =>
        match Game.updateRating game (Review.rating this) with
        | inr game' =>
            (mkStore (<[Review.game this := game']> (games db)) (reviews db),
             inr tt)
        | inl e => (db, inl e)
        end
    | None => (db, inr tt)
    end
  else (db, inr tt).
Proof.
  unfold postSave.
  destruct (Review.Status_eqb _ _); [| reflexivity].
  unfold mbind at 1. unfold Game_findById.
  destruct (games db !! Review.game this) as [game |] eqn:E; [| reflexivity].
  unfold mbind. rewrite (updateRating_current _ _ _ _ E).
  now destruct (Game.updateRating game (Review.rating this)).
Qed.

Lemma postSave_reviews (this : Review.t) (db : Store) :
  reviews (fst (postSave this db)) = reviews db.
Proof.
  rewrite postSave_exec.
  repeat match goal with
         | |- context [if ?b then _ else _] => destruct b
         | |- context [match ?x with _ => _ end] => destruct x
         end; reflexivity.
Qed.

(** ** The values of a body *)

Lemma Qfloor_integer (q : Q) (r : Z) : (q == inject_Z r)%Q -> Qfloor q = r.
Proof. intros H. rewrite (Qfloor_comp _ _ H). apply Qfloor_Z. Qed.

Lemma integer_number (q : Q) (r : Z) :
  Z.abs r < 10 ^ 21 ->
  (integer (JNumber q) = Some r <-> (q == inject_Z r)%Q).
Proof.
  intros Hr. cbn [integer]. split.
  - destruct (Qeq_bool q (inject_Z (Qfloor q))) eqn:E; [| discriminate].
    destruct (Z.abs (Qfloor q) <? 10 ^ 21); cbn [andb]; [| discriminate].
    intros H. injection H as <-. now apply Qeq_bool_eq.
  - intros H. rewrite (Qfloor_integer q r H).
    rewrite (proj2 (Qeq_bool_iff q (inject_Z r)) H).
    now rewrite (proj2 (Z.ltb_lt _ _) Hr).
Qed.

Lemma digit_spec (c : Ascii.ascii) (d : Z) :
  digit c = Some d ->
  0 <= d <= 9 /\ c = Ascii.ascii_of_N (Z.to_N (48 + d)).
Proof.
  unfold digit. cbv zeta.
  destruct (Z.leb_spec 48 (Z.of_N (Ascii.N_of_ascii c))) as [H1 | _];
    [| discriminate].
  destruct (Z.leb_spec (Z.of_N (Ascii.N_of_ascii c)) 57) as [H2 | _];
    [| discriminate].
  cbn [andb]. intros H. injection H as <-. split; [lia |].
  replace (48 + (Z.of_N (Ascii.N_of_ascii c) - 48))
    with (Z.of_N (Ascii.N_of_ascii c)) by lia.
  now rewrite N2Z.id, Ascii.ascii_N_embedding.
Qed.

Lemma digits_ge (s : String.string) :
  forall acc v,
    0 <= acc -> digits s acc = Some v ->
    acc <= v /\ (s <> String.EmptyString -> 10 * acc <= v).
Proof.
  induction s as [| c s IH]; intros acc v Hacc H; cbn [digits] in H.
  - injection H as <-. split; [lia | congruence].
  - destruct (digit c) as [d |] eqn:D; [| discriminate].
    apply digit_spec in D. destruct D as [Hd _].
    destruct (IH (10 * acc + d) v) as [H1 _]; [lia | assumption |].
    split; [lia | intros _; lia].
Qed.

Lemma digits_zeros (n : nat) (r : Z) :
  rating_in_range r ->
  digits (String.append (zeros n) (star_name r)) 0 = Some r.
Proof.
  intros Hr. induction n as [| n IH]; [star_cases r Hr; reflexivity |].
  exact IH.
Qed.

Lemma digits_reads (s : String.string) (r : Z) :
  rating_in_range r ->
  digits s 0 = Some r ->
  exists n, s = String.append (zeros n) (star_name r).
Proof.
  intros Hr. induction s as [| c s IH]; cbn [digits].
  - intros H. injection H as <-. unfold rating_in_range in Hr. lia.
  - destruct (digit c) as [d |] eqn:D; [| discriminate].
    apply digit_spec in D. destruct D as [Hd ->].
    change (10 * 0 + d) with d.
    destruct (Z.eq_dec d 0) as [-> | Hd0].
    + intros H. destruct (IH H) as [n ->]. now exists (S n).
    + intros H. destruct (digits_ge s d r) as [_ H10]; [lia | assumption |].
      destruct s as [| c' s'].
      * cbn [digits] in H. injection H as ->. exists O.
        star_cases r Hr; reflexivity.
      * unfold rating_in_range in Hr.
        assert (10 * d <= r) by (apply H10; discriminate). lia.
Qed.

Lemma unsigned_append (n : nat) (r : Z) :
  rating_in_range r ->
  unsigned (String.append (zeros n) (star_name r)) = Some r.
Proof.
  intros Hr. pose proof (digits_zeros n r Hr) as H.
  destruct n; [star_cases r Hr; reflexivity | exact H].
Qed.

Lemma numeral_reads (s : String.string) (r : Z) :
  rating_in_range r ->
  (numeral s = Some r <->
   exists n,
     s = String.append (zeros n) (star_name r) \/
     s = String.String "+"%char (String.append (zeros n) (star_name r))).
Proof.
  intros Hr. split.
  - destruct s as [| c s]; cbn [numeral]; [discriminate |].
    destruct (Ascii.eqb c "+"%char) eqn:Ep.
    + apply Ascii.eqb_eq in Ep. subst c.
      destruct s as [| c' s']; cbn [unsigned]; [discriminate |].
      intros H. destruct (digits_reads _ r Hr H) as [n ->]. exists n. now right.
    + destruct (Ascii.eqb c "-"%char).
      * destruct s as [| c' s']; cbn [unsigned option_map]; [discriminate |].
        destruct (digits (String.String c' s') 0) as [v |] eqn:D;
          cbn [option_map]; [| discriminate].
        intros H. injection H as <-.
        destruct (digits_ge _ 0 v (Z.le_refl 0) D) as [H0 _].
        unfold rating_in_range in Hr. lia.
      * cbn [unsigned]. intros H.
        destruct (digits_reads _ r Hr H) as [n E]. exists n. now left.
  - intros [n [-> | ->]].
    + pose proof (unsigned_append n r Hr) as H.
      destruct n; [star_cases r Hr; reflexivity | exact H].
    + cbn [numeral]. change (Ascii.eqb "+"%char "+"%char) with true.
      now apply unsigned_append.
Qed.

Lemma isInt_integer (v : Json) :
  isInt 1 5 v = true <->
  exists n, integer v = Some n /\ rating_in_range n.
Proof.
  unfold isInt, rating_in_range. split.
  - destruct (integer v) as [n |]; [| discriminate]. intros H.
    apply andb_true_iff in H. rewrite !Z.leb_le in H. now exists n.
  - intros (n & -> & H). apply andb_true_iff. now rewrite !Z.leb_le.
Qed.

Lemma integer_reads_as (v : Json) (r : Z) :
  rating_in_range r -> (integer v = Some r <-> reads_as v r).
Proof.
  intros Hr.
  assert (Hs : Z.abs r < 10 ^ 21) by (unfold rating_in_range in Hr; lia).
  destruct v as [q | s].
  - rewrite (integer_number q r Hs). unfold reads_as. split.
    + intros H. left. now exists q.
    + intros [(q' & E & H) | (n & [E | E])]; [| discriminate | discriminate].
      now injection E as <-.
  - cbn [integer]. rewrite (numeral_reads s r Hr). unfold reads_as. split.
    + intros H. now right; destruct H as [n [-> | ->]]; exists n; [left | right].
    + intros [(q & E & _) | (n & [E | E])]; [discriminate | |];
        injection E as ->; exists n; [now left | now right].
Qed.

Lemma bucket_integer (v : Json) (k : Z) :
  bucket v = Some k -> integer v = Some k /\ rating_in_range k.
Proof.
  destruct v as [q | s]; cbn [bucket].
  - destruct (Qeq_bool q (inject_Z (Qfloor q))) eqn:E; [| discriminate].
    destruct (Z.leb_spec 1 (Qfloor q)) as [H1 | _]; [| discriminate].
    destruct (Z.leb_spec (Qfloor q) 5) as [H5 | _]; [| discriminate].
    cbn [andb]. intros H. injection H as <-.
    split; [| unfold rating_in_range; lia].
    apply integer_number; [lia | now apply Qeq_bool_eq].
  - repeat match goal with
           | |- context [String.eqb s ?t] =>
               destruct (String.eqb_spec s t);
               [subst s; intros H; injection H as <-;
                split; [reflexivity | unfold rating_in_range; lia] |]
           end.
    discriminate.
Qed.

Lemma names_bucket (v : Json) (r : Z) :
  rating_in_range r -> names v r -> bucket v = Some r /\ integer v = Some r.
Proof.
  intros Hr [(q & -> & E) | ->].
  - split.
    + cbn [bucket]. rewrite (Qfloor_integer q r E).
      rewrite (proj2 (Qeq_bool_iff q (inject_Z r)) E).
      unfold rating_in_range in Hr.
      rewrite (proj2 (Z.leb_le 1 r)), (proj2 (Z.leb_le r 5)) by lia.
      reflexivity.
    + apply integer_number; [unfold rating_in_range in Hr; lia | exact E].
  - star_cases r Hr; split; reflexivity.
Qed.

Lemma castNumber_integer (v : Json) (n : Z) :
  integer v = Some n -> castNumber v = inr n.
Proof. unfold castNumber. now intros ->. Qed.

Lemma Review_validate_range (this : Review.t) :
  Review_validate this = inr tt <-> rating_in_range (Review.rating this).
Proof.
  unfold Review_validate, rating_in_range.
  destruct (Z.leb_spec 1 (Review.rating this)),
    (Z.leb_spec (Review.rating this) 5); cbn; split;
    intros; try reflexivity; try discriminate; lia.
Qed.

(** ** The validators of the texts *)

Lemma notEmpty_length (s : String.string) :
  notEmpty s = true <-> (1 <= String.length s)%nat.
Proof.
  unfold notEmpty. rewrite negb_true_iff, Nat.eqb_neq. lia.
Qed.

Lemma isLength_length (max : nat) (s : String.string) :
  isLength max s = true <-> (String.length s <= max)%nat.
Proof. unfold isLength. apply Nat.leb_le. Qed.

Lemma trimStart_length (s : String.string) :
  (String.length (trimStart s) <= String.length s)%nat.
Proof.
  induction s as [| c s IH]; cbn [trimStart]; [lia |].
  destruct (isWhiteSpace c); cbn [String.length]; lia.
Qed.

Lemma trimEnd_length (s : String.string) :
  (String.length (trimEnd s) <= String.length s)%nat.
Proof.
  induction s as [| c s IH]; cbn [trimEnd]; [lia |].
  destruct (trimEnd s) as [| c' t].
  - destruct (isWhiteSpace c); cbn [String.length]; lia.
  - cbn [String.length] in *. lia.
Qed.

Lemma trim_length (s : String.string) :
  (String.length (trim s) <= String.length s)%nat.
Proof.
  unfold trim. pose proof (trimEnd_length (trimStart s)).
  pose proof (trimStart_length s). lia.
Qed.

Lemma details_ok_validate (d : Details) :
  details_ok d -> Review_validate_details true d = inr tt.
Proof.
  intros ((c & Ec & Hc) & Ht & Hp & Hn & Hplay & Hd).
  unfold Review_validate_details. rewrite Ec.
  rewrite (proj2 (notEmpty_length c)), (proj2 (isLength_length 2000 c)) by lia.
  assert (T : match title d with
              | Some t => isLength 100 (trim t)
              | None => true
              end = true).
  { destruct (title d) as [t |]; [| reflexivity].
    apply isLength_length. pose proof (trim_length t).
    specialize (Ht t eq_refl). lia. }
  assert (P : forallb (fun p => isLength 100 (trim p)) (pros d) = true).
  { apply forallb_forall. intros p Hin. apply isLength_length.
    pose proof (trim_length p). specialize (Hp p Hin). lia. }
  assert (N : forallb (fun c => isLength 100 (trim c)) (cons d) = true).
  { apply forallb_forall. intros p Hin. apply isLength_length.
    pose proof (trim_length p). specialize (Hn p Hin). lia. }
  assert (L : match playTime d with
              | Some t => Qle_bool 0 t
              | None => true
              end = true).
  { destruct (playTime d) as [t |]; [| reflexivity].
    now apply Qle_bool_iff, Hplay. }
  assert (D : match difficulty d with
              | Some s =>
                  String.eqb s "easy" || String.eqb s "medium"
                  || String.eqb s "hard"
              | None => true
              end = true).
  { destruct (difficulty d) as [s |]; [| reflexivity].
    destruct (Hd s eq_refl) as [-> | [-> | ->]]; reflexivity. }
  now rewrite T, P, N, L, D.
Qed.

Lemma post_validators_well_formed (body : ReviewBody) :
  post_validators body = true <-> well_formed body.
Proof.
  unfold post_validators, well_formed. rewrite !andb_true_iff.
  assert (G : match body_game body with Some _ => true | None => false end
              = true <-> is_Some (body_game body)).
  { destruct (body_game body); split; intros H; try discriminate; eauto.
    now destruct H. }
  assert (R : match body_rating body with
              | Some v => isInt 1 5 v
              | None => false
              end = true <->
              exists v r, body_rating body = Some v /\ rating_in_range r /\
                          reads_as v r).
  { destruct (body_rating body) as [v |].
    - rewrite isInt_integer. split.
      + intros (n & E & Hn). exists v, n. split; [reflexivity |].
        split; [exact Hn | now apply integer_reads_as].
      + intros (v' & r & E & Hr & H). injection E as <-. exists r.
        split; [now apply integer_reads_as | exact Hr].
    - split; [discriminate | intros (v & r & E & _); discriminate]. }
  assert (C : match content (body_details body) with
              | Some c => notEmpty c && isLength 2000 c
              | None => false
              end = true <->
              exists c, content (body_details body) = Some c /\
                        (1 <= String.length c <= 2000)%nat).
  { destruct (content (body_details body)) as [c |].
    - rewrite andb_true_iff, notEmpty_length, isLength_length. split.
      + intros H. now exists c.
      + intros (c' & E & H). now injection E as <-.
    - split; [discriminate | intros (c & E & _); discriminate]. }
  assert (T : match title (body_details body) with
              | Some t => isLength 100 t
              | None => true
              end = true <->
              forall t, title (body_details body) = Some t ->
                        (String.length t <= 100)%nat).
  { destruct (title (body_details body)) as [t |].
    - rewrite isLength_length. split.
      + intros H t' E. now injection E as <-.
      + intros H. now apply H.
    - split; [intros _ t E; discriminate | reflexivity]. }
  rewrite G, R, C, T. tauto.
Qed.

(** ** [POST /api/reviews], case by case *)

Lemma post_validators_inv (body : ReviewBody) :
  post_validators body = true ->
  exists game rating n,
    body_game body = Some game /\ body_rating body = Some rating /\
    integer rating = Some n /\ rating_in_range n.
Proof.
  unfold post_validators. rewrite !andb_true_iff.
  intros (((G & R) & _) & _).
  destruct (body_game body) as [game |]; [| discriminate].
  destruct (body_rating body) as [rating |]; [| discriminate].
  apply isInt_integer in R. destruct R as (n & E & Hn).
  now exists game, rating, n.
Qed.

Lemma post_reviews_rejected (user : ReqUser) (body : ReviewBody)
    (newId : ObjectId) (db : Store) :
  post_validators body = false -> post_reviews user body newId db = (db, 400).
Proof. intros V. unfold post_reviews, try_catch. now rewrite V. Qed.

Lemma post_reviews_exec (user : ReqUser) (body : ReviewBody)
    (newId : ObjectId) (db : Store) (game : ObjectId) (rating : Json)
    (n : Z) :
  post_validators body = true ->
  body_game body = Some game ->
  body_rating body = Some rating ->
  integer rating = Some n ->
  rating_in_range n ->
  post_reviews user body newId db =
  match games db !! game with
  | None => (db, 404)
  | Some gameExists =>
      match find (fun r => N.eqb (Review.game r) game
                           && N.eqb (Review.user r) (req_id user)
                           && Review.Status_eqb (Review.status r) Review.active)
                 (reviews db) with
      | Some _ => (db, 400)
      | None =>
          match Review_validate_details true (body_details body) with
          | inl _ => (db, 500)
          | inr _ =>
              if has_id newId (reviews db) then (db, 500)
              else
                let created := Review.fresh newId game (req_id user) n in
                match Game.updateRating gameExists n with
                | inr game' =>
                    (mkStore (<[game := game']> (games db))
                             (reviews db ++ [created]),
                     match bucket rating with Some _ => 201 | None => 500 end)
                | inl _ => (mkStore (games db) (reviews db ++ [created]), 500)
                end
          end
      end
  end.
Proof.
  intros V EG ER EI Hn. unfold post_reviews, try_catch.
  rewrite V, EG, ER. cbn [negb].
  unfold mbind at 1. unfold Game_findById.
  destruct (games db !! game) as [gameExists |] eqn:G; [| reflexivity].
  unfold mbind at 1. unfold Review_findOne_active.
  destruct (find _ (reviews db)); [reflexivity |].
  unfold mbind at 1. unfold lift at 1.
  rewrite (castNumber_integer rating n EI).
  unfold mbind at 1. unfold Review_create.
  unfold mbind at 1. unfold lift at 1.
  rewrite (proj2 (Review_validate_range _)) by exact Hn.
  unfold mbind at 1. unfold lift at 1.
  destruct (Review_validate_details true (body_details body)) as [e | []];
    [reflexivity |].
  unfold mbind at 1. unfold Review_insert.
  cbn [Review._id Review.fresh].
  destruct (has_id newId (reviews db)); [reflexivity |].
  unfold mbind at 1. rewrite postSave_exec.
  cbn [Review.status Review.fresh Review.Status_eqb Review.game Review.rating
       games reviews].
  rewrite G. cbv zeta.
  destruct (Game.updateRating gameExists n) as [e | game'] eqn:U;
    [reflexivity |].
  unfold pure at 1. unfold mbind at 1. unfold updateRating_raw.
  destruct (bucket rating) as [k |] eqn:B; [| reflexivity].
  apply bucket_integer in B. destruct B as [B _].
  assert (k = n) by congruence. subst k.
  rewrite (updateRating_again game gameExists game' n _ U)
    by (cbn [games]; apply lookup_insert_eq).
  reflexivity.
Qed.

(** ** Sequences of review submissions *)

Lemma find_none_intro {A : Type} (f : A -> bool) (l : list A) :
  (forall x, In x l -> f x = false) -> find f l = None.
Proof.
  induction l as [| a l IH]; intros H; [reflexivity |].
  cbn. rewrite (H a) by now left. apply IH. intros x Hx. apply H. now right.
Qed.

Lemma has_id_false (id : ObjectId) (rs : list Review.t) :
  (forall r, In r rs -> Review._id r <> id) -> has_id id rs = false.
Proof.
  intros H. unfold has_id. destruct (existsb _ rs) eqn:E; [| reflexivity].
  apply existsb_exists in E. destruct E as (r & Hr & Heq).
  apply N.eqb_eq in Heq. now apply H in Hr.
Qed.

Lemma Status_eqb_eq (a b : Review.Status) :
  Review.Status_eqb a b = true <-> a = b.
Proof. destruct a, b; cbn; split; intros; congruence. Qed.

Lemma updateRating_result_ok (g : Game.t) (r : Z) :
  rating_in_range r -> game_ok g -> game_ok (updateRating_result g r).
Proof.
  intros Hr [Hn Hc]. split.
  - now apply buckets_nonneg_set.
  - unfold buckets_match_count, updateRating_result in *. cbn.
    rewrite sumBuckets_set by assumption. lia.
Qed.

Lemma admissible_step (db : Store) (game : ObjectId) (s : Submission)
    (subs : list Submission) (gs : gmap ObjectId Game.t) :
  admissible db game (s :: subs) ->
  admissible
    (mkStore gs
       (reviews db
        ++ [Review.fresh (sub_id s) game (req_id (sub_user s)) (sub_rating s)]))
    game subs.
Proof.
  intros (Hu & Hi & Hids & Husers & Hd). cbn in Hu, Hi.
  apply NoDup_cons_iff in Hu, Hi. destruct Hu as [Hu1 Hu2], Hi as [Hi1 Hi2].
  inversion Hd as [| ? ? _ Hd']; subst.
  repeat split; try assumption.
  - intros r Hr. cbn [reviews] in Hr. apply in_app_or in Hr.
    destruct Hr as [Hr | [<- | []]].
    + intros Hin. apply (Hids r Hr). now right.
    + exact Hi1.
  - intros r Hr Hg Hs. cbn [reviews] in Hr. apply in_app_or in Hr.
    destruct Hr as [Hr | [<- | []]].
    + intros Hin. apply (Husers r Hr Hg Hs). now right.
    + exact Hu1.
Qed.

Lemma number_names (r : Z) : names (JNumber (inject_Z r)) r.
Proof. left. exists (inject_Z r). split; reflexivity. Qed.

(** A body that the validators let through, whose rating names a bucket,
    posted to a game that accepts it, by a user without an active review
    of the game and under an unused id. *)
Lemma post_reviews_created (user : ReqUser) (game : ObjectId) (rating : Json)
    (r : Z) (d : Details) (newId : ObjectId) (db : Store) (g : Game.t) :
  rating_in_range r ->
  names rating r ->
  details_ok d ->
  games db !! game = Some g ->
  game_ok g ->
  (forall rv, In rv (reviews db) ->
     Review.game rv = game -> Review.user rv = req_id user ->
     Review.status rv <> Review.active) ->
  (forall rv, In rv (reviews db) -> Review._id rv <> newId) ->
  post_reviews user (mkReviewBody (Some game) (Some rating) d) newId db
  = (mkStore (<[game := updateRating_result g r]> (games db))
       (reviews db ++ [Review.fresh newId game (req_id user) r]),
     201).
Proof.
  intros Hr Hnames Hd Hg [Hn Hc] Huser Hid.
  destruct (names_bucket rating r Hr Hnames) as [B I].
  assert (V : post_validators (mkReviewBody (Some game) (Some rating) d) = true).
  { apply post_validators_well_formed. destruct Hd as (Hcontent & Htitle & _).
    split; [eauto |]. split; [| split; assumption].
    exists rating, r. split; [reflexivity |]. split; [exact Hr |].
    now apply integer_reads_as. }
  rewrite (post_reviews_exec user _ newId db game rating r V eq_refl eq_refl
             I Hr).
  rewrite Hg. cbn [body_details].
  rewrite find_none_intro.
  2:{ intros rv Hin.
      destruct (N.eqb (Review.game rv) game) eqn:E1; [| reflexivity].
      destruct (N.eqb (Review.user rv) (req_id user)) eqn:E2; [| reflexivity].
      destruct (Review.Status_eqb (Review.status rv) Review.active) eqn:E3;
        [| reflexivity].
      apply N.eqb_eq in E1, E2. apply Status_eqb_eq in E3.
      now destruct (Huser rv Hin E1 E2). }
  rewrite (details_ok_validate d Hd), has_id_false by assumption.
  cbv zeta. rewrite updateRating_succeeds by assumption. now rewrite B.
Qed.

Lemma submit_created (db : Store) (game : ObjectId) (s : Submission)
    (subs : list Submission) (g : Game.t) :
  admissible db game (s :: subs) ->
  rating_in_range (sub_rating s) ->
  games db !! game = Some g ->
  game_ok g ->
  handle (submit game s) db
  = (mkStore (<[game := updateRating_result g (sub_rating s)]> (games db))
       (reviews db
        ++ [Review.fresh (sub_id s) game (req_id (sub_user s)) (sub_rating s)]),
     201).
Proof.
  intros (Hu & Hi & Hids & Husers & Hd) Hr Hg Hok.
  inversion Hd as [| ? ? Hd1 _]; subst.
  cbn [handle submit].
  apply (post_reviews_created _ game _ (sub_rating s)); try assumption.
  - apply number_names.
  - intros rv Hin E1 E2 E3. apply (Husers rv Hin E1 E3). left. now symmetry.
  - intros rv Hin Heq. apply (Hids rv Hin). left. now symmetry.
Qed.

Lemma serve_submissions (game : ObjectId) (subs : list Submission) :
  forall (db : Store) (g : Game.t),
    admissible db game subs ->
    Forall (fun s => rating_in_range (sub_rating s)) subs ->
    games db !! game = Some g ->
    game_ok g ->
    exists g',
      snd (serve (map (submit game) subs) db) = map (fun _ => 201) subs /\
      games (fst (serve (map (submit game) subs) db)) !! game = Some g' /\
      game_ok g' /\
      Game.count (Game.rating g')
      = Game.count (Game.rating g) + Z.of_nat (length subs) /\
      Game.totalRating (Game.distribution (Game.rating g'))
      = Game.totalRating (Game.distribution (Game.rating g))
        + sumRatings (map sub_rating subs) /\
      (subs <> [] ->
       Game.average (Game.rating g')
       = (inject_Z (Game.totalRating (Game.distribution (Game.rating g')))
          / inject_Z (Game.count (Game.rating g')))%Q) /\
      (subs = [] -> g' = g).
Proof.
  induction subs as [| s subs IH]; intros db g Ha Hr Hg Hok.
  - exists g. cbn [map serve fst snd length sumRatings fold_right].
    split; [reflexivity |]. split; [assumption |]. split; [assumption |].
    split; [cbn; lia |]. split; [lia |]. split; [congruence | reflexivity].
  - inversion Hr as [| ? ? Hr1 Hr2]; subst.
    cbn [map serve].
    rewrite (submit_created db game s subs g Ha Hr1 Hg Hok).
    set (g1 := updateRating_result g (sub_rating s)).
    set (db1 := mkStore _ _).
    destruct (IH db1 g1) as (g' & Hcodes & Hlook & Hok' & Hcount & Htotal & Havg & Hnil).
    + now apply admissible_step.
    + assumption.
    + unfold db1. cbn [games]. apply lookup_insert_eq.
    + now apply updateRating_result_ok.
    + destruct (serve (map (submit game) subs) db1) as [db2 codes] eqn:S.
      cbn [fst snd] in *. exists g'.
      split; [now rewrite Hcodes |]. split; [assumption |].
      split; [assumption |]. split.
      { rewrite Hcount. unfold g1, updateRating_result. cbn [Game.rating Game.with_rating Game.count length]. lia. }
      split.
      { rewrite Htotal. unfold g1, updateRating_result.
        cbn [Game.rating Game.with_rating Game.distribution map sumRatings fold_right].
        rewrite totalRating_set by assumption.
        fold (sumRatings (map sub_rating subs)). lia. }
      split; [| discriminate].
      intros _. destruct subs as [| s' subs'].
      * rewrite (Hnil eq_refl). reflexivity.
      * apply Havg. discriminate.
Qed.

(** C1: N review submissions with ratings in 1..5, by distinct users, to a
    game with rating.count = 0 and all five buckets 0, each through the
    whole create-review path (the handler and the post-save hook), are all
    answered 201 and leave the game with rating.count = N and
    rating.average * N = r1 + ... + rN, that is with the arithmetic mean of
    the ratings as average when N > 0. *)
Theorem review_submissions_count_and_mean
    (db : Store) (game : ObjectId) (g : Game.t) (subs : list Submission) :
  games db !! game = Some g ->
  Game.count (Game.rating g) = 0 ->
  Game.distribution (Game.rating g) = Game.zeroDistribution ->
  admissible db game subs ->
  Forall (fun s => rating_in_range (sub_rating s)) subs ->
  snd (serve (map (submit game) subs) db) = map (fun _ => 201) subs /\
  exists g',
    games (fst (serve (map (submit game) subs) db)) !! game = Some g' /\
    Game.count (Game.rating g') = Z.of_nat (length subs) /\
    (Game.average (Game.rating g') * inject_Z (Z.of_nat (length subs))
     == inject_Z (sumRatings (map sub_rating subs)))%Q /\
    (subs <> [] ->
     (Game.average (Game.rating g')
      == inject_Z (sumRatings (map sub_rating subs))
         / inject_Z (Z.of_nat (length subs)))%Q).
Proof.
  intros Hg Hcount Hdist Ha Hr.
  assert (Hok : game_ok g).
  { unfold game_ok, buckets_match_count, buckets_nonneg.
    rewrite Hcount, Hdist. unfold sumBuckets. cbn. lia. }
  destruct (serve_submissions game subs db g Ha Hr Hg Hok)
    as (g' & Hcodes & Hlook & _ & Hcount' & Htotal & Havg & Hnil).
  split; [assumption |]. exists g'.
  rewrite Hcount in Hcount'. rewrite Hdist in Htotal.
  change (Game.totalRating Game.zeroDistribution) with 0 in Htotal.
  rewrite Z.add_0_l in Hcount', Htotal.
  split; [assumption |]. split; [assumption |].
  destruct subs as [| s subs].
  - cbn. split; [ring | congruence].
  - assert (Hne : s :: subs <> []) by discriminate.
    specialize (Havg Hne). rewrite Havg, Htotal, Hcount'.
    split; [| intros _; reflexivity].
    apply quotient_times. cbn [length]. lia.
Qed.

(** ** The invariant along the review routes *)

Lemma replace_by_id_Forall (P : Review.t -> Prop) (this : Review.t)
    (rs : list Review.t) :
  P this -> Forall P rs -> Forall P (replace_by_id this rs).
Proof.
  intros Hthis H. induction H as [| r rs Hr Hrs IH]; cbn; [constructor |].
  destruct (N.eqb _ _); constructor; assumption.
Qed.

Lemma remove_by_id_Forall (P : Review.t -> Prop) (id : ObjectId)
    (rs : list Review.t) :
  Forall P rs -> Forall P (remove_by_id id rs).
Proof.
  intros H. induction H as [| r rs Hr Hrs IH]; cbn; [constructor |].
  destruct (N.eqb _ _); [assumption | now constructor].
Qed.

Lemma find_Forall {A : Type} (P : A -> Prop) (f : A -> bool) (l : list A)
    (x : A) :
  Forall P l -> find f l = Some x -> P x.
Proof.
  intros H Hf. apply find_some in Hf. rewrite List.Forall_forall in H.
  apply H, Hf.
Qed.

Lemma updateRating_result_rating_ok (g : Game.t) (r : Z) :
  rating_in_range r -> rating_ok g -> rating_ok (updateRating_result g r).
Proof.
  intros Hr (Hn & Hc & _).
  destruct (updateRating_result_ok g r Hr (conj Hn Hc)) as [Hn' Hc'].
  split; [exact Hn' |]. split; [exact Hc' |].
  unfold updateRating_result, buckets_match_count, buckets_nonneg,
    sumBuckets in *. cbn. lia.
Qed.

Lemma Inv_insert_game (db : Store) (id : ObjectId) (g : Game.t)
    (rs : list Review.t) :
  Inv db -> rating_ok g -> Forall review_ok rs ->
  Inv (mkStore (<[id := g]> (games db)) rs).
Proof.
  intros [Hg _] Hok Hrs. split; [| exact Hrs].
  intros id' g' Hl. cbn [games] in Hl.
  destruct (decide (id = id')) as [<- | Hne].
  - rewrite lookup_insert_eq in Hl. now injection Hl as <-.
  - rewrite lookup_insert_ne in Hl by assumption. eapply Hg, Hl.
Qed.

Lemma Inv_reviews (db : Store) (rs : list Review.t) :
  Inv db -> Forall review_ok rs -> Inv (mkStore (games db) rs).
Proof. intros [Hg _] Hrs. split; assumption. Qed.

Lemma postSave_Inv (this : Review.t) (db : Store) :
  Inv db -> rating_in_range (Review.rating this) ->
  Inv (fst (postSave this db)).
Proof.
  intros HI Hr. rewrite postSave_exec.
  destruct (Review.Status_eqb _ _); [| exact HI].
  destruct (games db !! Review.game this) as [game |] eqn:G; [| exact HI].
  destruct (Game.updateRating game (Review.rating this)) as [e | game'] eqn:U;
    [exact HI |].
  apply updateRating_inr in U. subst game'. cbn [fst].
  apply Inv_insert_game; [assumption | | apply HI].
  apply updateRating_result_rating_ok; [assumption |].
  destruct HI as [Hg _]. eapply Hg, G.
Qed.

Lemma Review_save_exec (this : Review.t) (db : Store) :
  Review_save this db =
  if has_id (Review._id this) (reviews db) then
    match postSave this
            (mkStore (games db) (replace_by_id this (reviews db))) with
    | (db', inr _) => (db', inr this)
    | (db', inl e) => (db', inl e)
    end
  else (db, inl DocumentNotFound).
Proof.
  unfold Review_save. unfold mbind at 1. unfold Review_update.
  destruct (has_id _ _); [| reflexivity].
  unfold mbind. destruct (postSave this _) as [db' [e | []]]; reflexivity.
Qed.

Lemma Review_save_Inv (this : Review.t) (db : Store) :
  Inv db -> review_ok this ->
  Inv (fst (Review_save this db)) /\
  (forall v, snd (Review_save this db) = inr v -> v = this).
Proof.
  intros HI Hok. rewrite Review_save_exec.
  destruct (has_id _ _); [| split; [exact HI | discriminate]].
  pose proof (postSave_Inv this
                (mkStore (games db) (replace_by_id this (reviews db)))) as HP.
  destruct (postSave this _) as [db' [e | []]]; cbn [fst snd] in *.
  - split; [| discriminate]. apply HP; [| apply Hok].
    apply Inv_reviews; [assumption |].
    apply replace_by_id_Forall; [assumption | apply HI].
  - split; [| congruence]. apply HP; [| apply Hok].
    apply Inv_reviews; [assumption |].
    apply replace_by_id_Forall; [assumption | apply HI].
Qed.

Lemma Review_save_reviews (this : Review.t) (db : Store) :
  reviews (fst (Review_save this db))
  = if has_id (Review._id this) (reviews db)
    then replace_by_id this (reviews db) else reviews db.
Proof.
  rewrite Review_save_exec. destruct (has_id _ _); [| reflexivity].
  pose proof (postSave_reviews this
                (mkStore (games db) (replace_by_id this (reviews db)))) as HP.
  destruct (postSave this _) as [db' [e | []]]; exact HP.
Qed.

(** ** Helpful votes and reports *)

Lemma includes_In (l : list ObjectId) (x : ObjectId) :
  Review.includes l x = true <-> In x l.
Proof.
  unfold Review.includes. rewrite existsb_exists. split.
  - intros (y & Hy & E). apply N.eqb_eq in E. now subst.
  - intros H. exists x. split; [assumption | apply N.eqb_refl].
Qed.

Lemma indexOf_notin (l : list ObjectId) (x : ObjectId) :
  ~ In x l -> Review.indexOf l x = -1.
Proof.
  induction l as [| y l IH]; intros H; cbn; [reflexivity |].
  destruct (N.eqb y x) eqn:E.
  - apply N.eqb_eq in E. exfalso. apply H. now left.
  - rewrite IH by (intros Hin; apply H; now right). reflexivity.
Qed.

Lemma indexOf_in (l : list ObjectId) (x : ObjectId) :
  In x l -> -1 < Review.indexOf l x.
Proof.
  induction l as [| y l IH]; cbn; [tauto |].
  intros [-> | Hin].
  - rewrite N.eqb_refl. lia.
  - destruct (N.eqb y x); [lia |]. specialize (IH Hin).
    destruct (Review.indexOf l x <? 0) eqn:L; [apply Z.ltb_lt in L |]; lia.
Qed.

Lemma In_splice1 {A : Type} (l : list A) (i : Z) (x : A) :
  In x (Review.splice1 l i) -> In x l.
Proof.
  unfold Review.splice1. generalize (Z.to_nat i) as n.
  induction l as [| a l IH]; intros n H.
  - destruct n; cbn in H; contradiction.
  - destruct n as [| n]; cbn in H.
    + now right.
    + destruct H as [-> | H]; [now left | right; eapply IH, H].
Qed.

Lemma NoDup_splice1 {A : Type} (l : list A) (i : Z) :
  List.NoDup l -> List.NoDup (Review.splice1 l i).
Proof.
  unfold Review.splice1. generalize (Z.to_nat i) as n.
  induction l as [| a l IH]; intros n H.
  - destruct n; cbn; constructor.
  - apply NoDup_cons_iff in H. destruct H as [Ha Hl].
    destruct n as [| n]; cbn; [assumption |].
    constructor; [| now apply IH].
    intros Hin. apply Ha.
    apply (In_splice1 l (Z.of_nat n) a). unfold Review.splice1.
    now rewrite Nat2Z.id.
Qed.

Lemma NoDup_snoc {A : Type} (l : list A) (x : A) :
  ~ In x l -> List.NoDup l -> List.NoDup (l ++ [x]).
Proof.
  intros Hx Hl. apply (Permutation_NoDup (l := x :: l)).
  - apply Permutation_cons_append.
  - now constructor.
Qed.

(** After [splice], a user who was listed once is listed no more. *)
Lemma splice1_removes (l : list ObjectId) (x : ObjectId) :
  List.NoDup l -> -1 < Review.indexOf l x ->
  ~ In x (Review.splice1 l (Review.indexOf l x)).
Proof.
  induction l as [| y l IH]; intros Hnd; cbn; [lia |].
  apply NoDup_cons_iff in Hnd. destruct Hnd as [Hy Hl].
  destruct (N.eqb y x) eqn:E.
  - apply N.eqb_eq in E. subst y. intros _. unfold Review.splice1. cbn.
    exact Hy.
  - destruct (Review.indexOf l x <? 0) eqn:L; [lia |].
    apply Z.ltb_ge in L. intros _. unfold Review.splice1.
    replace (Z.to_nat (Review.indexOf l x + 1))
      with (S (Z.to_nat (Review.indexOf l x))) by lia.
    cbn. intros [Heq | Hin].
    + subst y. now rewrite N.eqb_refl in E.
    + apply IH; [assumption | lia | exact Hin].
Qed.

Lemma marked_ok (this : Review.t) (userId : ObjectId) :
  review_ok this -> review_ok (marked this userId).
Proof. intros H. exact H. Qed.

Lemma unmarked_ok (this : Review.t) (userId : ObjectId) :
  review_ok this -> review_ok (unmarked this userId).
Proof. intros H. exact H. Qed.

Lemma markHelpful_exec (this : Review.t) (userId : ObjectId) (db : Store) :
  markHelpful this userId db =
  if Review.includes (Review.helpful_users (Review.helpful this)) userId
  then (db, inr this)
  else Review_save (marked this userId) db.
Proof.
  unfold markHelpful. now destruct (Review.includes _ _).
Qed.

Lemma unmarkHelpful_exec (this : Review.t) (userId : ObjectId) (db : Store) :
  unmarkHelpful this userId db =
  if Review.includes (Review.helpful_users (Review.helpful this)) userId
  then Review_save (unmarked this userId) db
  else (db, inr this).
Proof.
  unfold unmarkHelpful. cbv zeta.
  destruct (Review.includes _ _) eqn:E.
  - apply includes_In, indexOf_in, Z.ltb_lt in E. now rewrite E.
  - rewrite indexOf_notin; [reflexivity |].
    intros Hin. apply includes_In in Hin. congruence.
Qed.

Lemma report_exec (this : Review.t) (userId : ObjectId)
    (reason : Review.Reason) (description : String.string) (now : Z)
    (db : Store) :
  report this userId reason description now db =
  match find (fun report => N.eqb (Review.report_user report) userId)
             (Review.reports this) with
  | None => Review_save (reported this userId reason description now) db
  | Some _ => (db, inr this)
  end.
Proof. unfold report. cbv zeta. now destruct (find _ _). Qed.

Lemma reported_ok (this : Review.t) (userId : ObjectId)
    (reason : Review.Reason) (description : String.string) (now : Z) :
  review_ok this -> review_ok (reported this userId reason description now).
Proof. intros H. exact H. Qed.

(** ** The rescan after a deletion *)

Lemma rebuilt_sum (rs : list Review.t) :
  forall d,
    Forall (fun r => rating_in_range (Review.rating r)) rs ->
    sumBuckets (rebuilt rs d) = sumBuckets d + Z.of_nat (length rs).
Proof.
  induction rs as [| r rs IH]; intros d H; [cbn; lia |].
  inversion H as [| ? ? Hr Hrs]; subst.
  change (rebuilt (r :: rs) d)
    with (rebuilt rs (Game.set d (Review.rating r)
                        (Game.get d (Review.rating r) + 1))).
  rewrite IH by assumption. rewrite sumBuckets_set by assumption.
  cbn [length]. lia.
Qed.

Lemma rebuilt_nonneg (rs : list Review.t) :
  forall d, buckets_nonneg d -> buckets_nonneg (rebuilt rs d).
Proof.
  induction rs as [| r rs IH]; intros d H; [exact H |].
  change (rebuilt (r :: rs) d)
    with (rebuilt rs (Game.set d (Review.rating r)
                        (Game.get d (Review.rating r) + 1))).
  apply IH. now apply buckets_nonneg_set.
Qed.

Lemma rescan_inr (game game' : Game.t) (rs : list Review.t) :
  rescan game rs = inr game' ->
  exists avg,
    game' = Game.with_rating game
              (Game.mkRating avg (Z.of_nat (length rs))
                 (rebuilt rs Game.zeroDistribution)).
Proof.
  unfold rescan, js_div.
  destruct (Qeq_bool _ 0); cbn [bind throw ret]; [discriminate |].
  unfold Game.validate. destruct (_ && _); cbn; [| discriminate].
  intros H. injection H as <-. eexists. reflexivity.
Qed.

Lemma rescan_not_zero_division (game : Game.t) (rs : list Review.t) :
  rs <> [] -> rescan game rs <> inl DivisionByZero.
Proof.
  intros Hne. unfold rescan.
  rewrite js_div_inject_Z by (destruct rs; [congruence | cbn; lia]).
  cbn [bind]. unfold Game.validate. destruct (_ && _); discriminate.
Qed.

Lemma postFindOneAndDelete_exec (doc : Review.t) (db : Store) :
  postFindOneAndDelete (Some doc) db =
  if Review.Status_eqb (Review.status doc) Review.active then
    match games db !! Review.game doc with
    | Some game =>
        let rs := activeReviewsOf (Review.game doc) (reviews db) in
        if 0 <? Z.of_nat (length rs) then
          match rescan game rs with
          | inr game' =>
              (mkStore (<[Review.game doc := game']> (games db)) (reviews db),
               inr tt)
          | inl e => (db, inl e)
          end
        else (db, inr tt)
    | None => (db, inr tt)
    end
  else (db, inr tt).
Proof.
  unfold postFindOneAndDelete.
  destruct (Review.Status_eqb _ _); [| reflexivity].
  unfold mbind at 1. unfold Game_findById.
  destruct (games db !! Review.game doc) as [game |] eqn:G; [| reflexivity].
  unfold mbind at 1. unfold Review_find_active. cbv zeta.
  destruct (0 <? _); [| reflexivity].
  unfold mbind, lift, Game_write.
  destruct (rescan game _) as [e | game'] eqn:R; [reflexivity |].
  rewrite G. apply rescan_inr in R. destruct R as [avg ->]. reflexivity.
Qed.

Lemma activeReviewsOf_Forall (P : Review.t -> Prop) (id : ObjectId)
    (rs : list Review.t) :
  Forall P rs -> Forall P (activeReviewsOf id rs).
Proof.
  intros H. unfold activeReviewsOf.
  induction H as [| r rs Hr Hrs IH]; cbn; [constructor |].
  destruct (_ && _); [now constructor | assumption].
Qed.

Lemma postFindOneAndDelete_Inv (doc : option Review.t) (db : Store) :
  Inv db -> Inv (fst (postFindOneAndDelete doc db)).
Proof.
  intros HI. destruct doc as [doc |]; [| exact HI].
  rewrite postFindOneAndDelete_exec.
  destruct (Review.Status_eqb _ _); [| exact HI].
  destruct (games db !! Review.game doc) as [game |] eqn:G; [| exact HI].
  cbv zeta. destruct (0 <? _) eqn:L; [| exact HI].
  destruct (rescan game _) as [e | game'] eqn:R; [exact HI |].
  apply rescan_inr in R. destruct R as [avg ->]. cbn [fst].
  apply Inv_insert_game; [assumption | | apply HI].
  apply Z.ltb_lt in L.
  split; [apply rebuilt_nonneg; unfold buckets_nonneg; cbn; lia |].
  split; [| cbn [Game.count Game.rating Game.with_rating]; lia].
  unfold buckets_match_count. cbn.
  rewrite rebuilt_sum; [change (sumBuckets Game.zeroDistribution) with 0; lia |].
  apply activeReviewsOf_Forall. destruct HI as [_ Hrs].
  eapply List.Forall_impl; [| exact Hrs]. intros r Hr. apply Hr.
Qed.

Lemma Review_findByIdAndDelete_Inv (id : ObjectId) (db : Store) :
  Inv db -> Inv (fst (Review_findByIdAndDelete id db)).
Proof.
  intros HI. unfold Review_findByIdAndDelete.
  unfold mbind at 1. unfold Review_findById.
  unfold mbind at 1. unfold Review_remove.
  set (doc := find _ (reviews db)).
  set (db1 := mkStore _ _).
  assert (H1 : Inv db1)
    by (apply Inv_reviews; [assumption |];
        apply remove_by_id_Forall; apply HI).
  pose proof (postFindOneAndDelete_Inv doc db1 H1) as HP.
  unfold mbind.
  destruct (postFindOneAndDelete doc db1) as [db2 [e | []]]; exact HP.
Qed.

(** ** Every handler keeps the invariant *)

Lemma try_catch_fst (c : M Z) (db : Store) :
  fst (try_catch c db) = fst (c db).
Proof. unfold try_catch. now destruct (c db) as [db' [e | code]]. Qed.

Lemma mbind_fst {A B : Type} (P : Store -> Prop) (c : M A) (k : A -> M B)
    (db : Store) :
  (forall db' e, c db = (db', inl e) -> P db') ->
  (forall db' a, c db = (db', inr a) -> P (fst (k a db'))) ->
  P (fst (mbind c k db)).
Proof.
  intros He Hk. unfold mbind. destruct (c db) as [db' [e | a]] eqn:E.
  - eapply He. reflexivity.
  - eapply Hk. reflexivity.
Qed.

Lemma fresh_ok (id gameId userId : ObjectId) (r : Z) :
  rating_in_range r -> review_ok (Review.fresh id gameId userId r).
Proof. intros H. exact H. Qed.

Lemma Forall_snoc {A : Type} (P : A -> Prop) (l : list A) (x : A) :
  Forall P l -> P x -> Forall P (l ++ [x]).
Proof. intros Hl Hx. apply Forall_app. split; [assumption | now constructor]. Qed.

Lemma post_reviews_Inv (user : ReqUser) (body : ReviewBody)
    (newId : ObjectId) (db : Store) :
  Inv db -> Inv (fst (post_reviews user body newId db)).
Proof.
  intros HI. destruct (post_validators body) eqn:V;
    [| now rewrite post_reviews_rejected].
  destruct (post_validators_inv body V) as (game & rating & n & EG & ER & EI & Hn).
  rewrite (post_reviews_exec user body newId db game rating n V EG ER EI Hn).
  destruct (games db !! game) as [g |] eqn:G; [| exact HI].
  destruct (find _ (reviews db)); [exact HI |].
  destruct (Review_validate_details true (body_details body)); [exact HI |].
  destruct (has_id newId (reviews db)); [exact HI |].
  cbv zeta.
  assert (Hrs : Forall review_ok
                  (reviews db ++ [Review.fresh newId game (req_id user) n]))
    by (apply Forall_snoc; [apply HI | now apply fresh_ok]).
  destruct (Game.updateRating g n) as [e | g'] eqn:U; cbn [fst].
  - now apply Inv_reviews.
  - apply updateRating_inr in U. subst g'.
    apply Inv_insert_game; [assumption | | assumption].
    apply updateRating_result_rating_ok; [assumption |].
    destruct HI as [Hg _]. eapply Hg, G.
Qed.

(** ** [PUT /api/reviews/:id], case by case *)

Lemma updateRating_raw_exec (id : ObjectId) (this : Game.t) (rating : Json)
    (db : Store) :
  games db !! id = Some this ->
  updateRating_raw id this rating db =
  match bucket rating with
  | Some k =>
      match Game.updateRating this k with
      | inr this' =>
          (mkStore (<[id := this']> (games db)) (reviews db), inr this')
      | inl e => (db, inl e)
      end
  | None => (db, inl ValidationError)
  end.
Proof.
  intros G. unfold updateRating_raw.
  destruct (bucket rating) as [k |]; [| reflexivity].
  now apply updateRating_current.
Qed.

Lemma put_reviews_exec (user : ReqUser) (id : ObjectId) (body : ReviewPatch)
    (db : Store) :
  put_reviews user id body db =
  if negb (put_validators body) then (db, 400)
  else
    match find (fun r => N.eqb (Review._id r) id) (reviews db) with
    | None => (db, 404)
    | Some review =>
        if forbidden review user then (db, 403)
        else
          match assign review body with
          | inl _ => (db, 500)
          | inr review' =>
              match Review_validate review' with
              | inl _ => (db, 500)
              | inr _ =>
                  match Review_validate_details false (patch_details body) with
                  | inl _ => (db, 500)
                  | inr _ =>
                      match Review_save review' db with
                      | (db1, inl _) => (db1, 500)
                      | (db1, inr _) =>
                          match patch_rating body with
                          | Some rating =>
                              if truthy rating
                                 && strict_neq rating (Review.rating review')
                              then
                                match games db1 !! Review.game review' with
                                | Some game =>
                                    match updateRating_raw
                                            (Review.game review') game rating
                                            db1 with
                                    | (db2, inl _) => (db2, 500)
                                    | (db2, inr _) => (db2, 200)
                                    end
                                | None => (db1, 200)
                                end
                              else (db1, 200)
                          | None => (db1, 200)
                          end
                      end
                  end
              end
          end
    end.
Proof.
  unfold put_reviews, try_catch.
  destruct (negb (put_validators body)); [reflexivity |].
  unfold mbind at 1. unfold Review_findById. cbn beta iota.
  destruct (find _ (reviews db)) as [review |]; [| reflexivity].
  destruct (forbidden review user); [reflexivity |].
  unfold mbind at 1. unfold lift at 1.
  destruct (assign review body) as [e | review']; [reflexivity |].
  unfold mbind at 1. unfold lift at 1.
  destruct (Review_validate review') as [e | []]; [reflexivity |].
  unfold mbind at 1. unfold lift at 1.
  destruct (Review_validate_details false (patch_details body)) as [e | []];
    [reflexivity |].
  unfold mbind at 1.
  destruct (Review_save review' db) as [db1 [e | saved]]; [reflexivity |].
  unfold mbind at 1.
  destruct (patch_rating body) as [rating |]; [| reflexivity].
  destruct (truthy rating && strict_neq rating (Review.rating review'));
    [| reflexivity].
  unfold mbind at 1. unfold Game_findById. cbn beta iota.
  destruct (games db1 !! Review.game review') as [game |]; [| reflexivity].
  unfold mbind at 1.
  now destruct (updateRating_raw (Review.game review') game rating db1)
    as [db2 [e | g']].
Qed.

Lemma updateRating_raw_Inv (id : ObjectId) (this : Game.t) (rating : Json)
    (db : Store) :
  Inv db -> games db !! id = Some this ->
  Inv (fst (updateRating_raw id this rating db)).
Proof.
  intros HI G. rewrite (updateRating_raw_exec id this rating db G).
  destruct (bucket rating) as [k |] eqn:B; [| exact HI].
  apply bucket_integer in B. destruct B as [_ Hk].
  destruct (Game.updateRating this k) as [e | this'] eqn:U; [exact HI |].
  apply updateRating_inr in U. subst this'. cbn [fst].
  apply Inv_insert_game; [assumption | | apply HI].
  apply updateRating_result_rating_ok; [assumption |].
  destruct HI as [Hg _]. eapply Hg, G.
Qed.

Lemma put_reviews_Inv (user : ReqUser) (id : ObjectId) (body : ReviewPatch)
    (db : Store) :
  Inv db -> Inv (fst (put_reviews user id body db)).
Proof.
  intros HI. rewrite put_reviews_exec.
  destruct (negb (put_validators body)); [exact HI |].
  destruct (find _ (reviews db)) as [review |]; [| exact HI].
  destruct (forbidden review user); [exact HI |].
  destruct (assign review body) as [e | review']; [exact HI |].
  destruct (Review_validate review') as [e | []] eqn:V; [exact HI |].
  apply Review_validate_range in V.
  destruct (Review_validate_details false (patch_details body)) as [e | []];
    [exact HI |].
  destruct (Review_save_Inv review' db HI V) as [HS _].
  destruct (Review_save review' db) as [db1 [e | saved]]; cbn [fst] in *;
    [exact HS |].
  destruct (patch_rating body) as [rating |]; [| exact HS].
  destruct (truthy rating && strict_neq rating (Review.rating review'));
    [| exact HS].
  destruct (games db1 !! Review.game review') as [game |] eqn:G; [| exact HS].
  pose proof (updateRating_raw_Inv _ game rating db1 HS G) as HU.
  now destruct (updateRating_raw (Review.game review') game rating db1)
    as [db2 [e | g']].
Qed.

Lemma delete_reviews_Inv (user : ReqUser) (id : ObjectId) (db : Store) :
  Inv db -> Inv (fst (delete_reviews user id db)).
Proof.
  intros HI. unfold delete_reviews. rewrite try_catch_fst.
  apply mbind_fst; unfold Review_findById; intros db' x E;
    [discriminate | injection E as <- <-].
  destruct (find _ (reviews db)) as [review |]; [| exact HI].
  destruct (forbidden review user); [exact HI |].
  pose proof (Review_findByIdAndDelete_Inv id db HI) as HD.
  apply mbind_fst; intros db' x E; rewrite E in HD; exact HD.
Qed.

Lemma markHelpful_Inv (this : Review.t) (userId : ObjectId) (db : Store) :
  Inv db -> review_ok this -> Inv (fst (markHelpful this userId db)).
Proof.
  intros HI Hok. rewrite markHelpful_exec.
  destruct (Review.includes _ _) eqn:E; [exact HI |].
  apply Review_save_Inv; [assumption |]. now apply marked_ok.
Qed.

Lemma unmarkHelpful_Inv (this : Review.t) (userId : ObjectId) (db : Store) :
  Inv db -> review_ok this -> Inv (fst (unmarkHelpful this userId db)).
Proof.
  intros HI Hok. rewrite unmarkHelpful_exec.
  destruct (Review.includes _ _); [| exact HI].
  apply Review_save_Inv; [assumption |]. now apply unmarked_ok.
Qed.

Lemma report_Inv (this : Review.t) (userId : ObjectId)
    (reason : Review.Reason) (description : String.string) (now : Z)
    (db : Store) :
  Inv db -> review_ok this ->
  Inv (fst (report this userId reason description now db)).
Proof.
  intros HI Hok. rewrite report_exec.
  destruct (find _ (Review.reports this)) eqn:F; [exact HI |].
  apply Review_save_Inv; [assumption |]. now apply reported_ok.
Qed.

Lemma post_reviews_helpful_Inv (user : ReqUser) (id : ObjectId) (db : Store) :
  Inv db -> Inv (fst (post_reviews_helpful user id db)).
Proof.
  intros HI. unfold post_reviews_helpful. rewrite try_catch_fst.
  apply mbind_fst; unfold Review_findById; intros db' x E;
    [discriminate | injection E as <- <-].
  destruct (find _ (reviews db)) as [review |] eqn:F; [| exact HI].
  pose proof (find_Forall review_ok _ _ _ (proj2 HI) F) as Hok.
  cbv zeta.
  assert (H : Inv (fst ((if Review.includes
                               (Review.helpful_users (Review.helpful review))
                               (req_id user)
                         then unmarkHelpful review (req_id user)
                         else markHelpful review (req_id user)) db))).
  { destruct (Review.includes _ _);
      [now apply unmarkHelpful_Inv | now apply markHelpful_Inv]. }
  apply mbind_fst; intros db' x E; rewrite E in H; exact H.
Qed.

Lemma post_reviews_report_Inv (user : ReqUser) (id : ObjectId)
    (reason : option Review.Reason) (description : option String.string)
    (now : Z) (db : Store) :
  Inv db -> Inv (fst (post_reviews_report user id reason description now db)).
Proof.
  intros HI. unfold post_reviews_report. rewrite try_catch_fst.
  destruct reason as [reason |]; [| exact HI].
  destruct (negb _); [exact HI |].
  apply mbind_fst; unfold Review_findById; intros db' x E;
    [discriminate | injection E as <- <-].
  destruct (find _ (reviews db)) as [review |] eqn:F; [| exact HI].
  pose proof (find_Forall review_ok _ _ _ (proj2 HI) F) as Hok.
  pose proof (report_Inv review (req_id user) reason
                (default String.EmptyString description) now db HI Hok)
    as H.
  apply mbind_fst; intros db' x E; rewrite E in H; exact H.
Qed.

Create HintDb handlers.

#[local] Hint Resolve post_reviews_Inv put_reviews_Inv delete_reviews_Inv
  post_reviews_helpful_Inv post_reviews_report_Inv : handlers.

Lemma handle_Inv (rq : Request) (db : Store) :
  Inv db -> Inv (fst (handle rq db)).
Proof. destruct rq; cbn [handle]; auto with handlers. Qed.

Lemma serve_Inv (rqs : list Request) :
  forall db, Inv db -> Inv (fst (serve rqs db)).
Proof.
  induction rqs as [| rq rqs IH]; intros db HI; [exact HI |].
  cbn [serve]. pose proof (handle_Inv rq db HI) as H1.
  destruct (handle rq db) as [db1 code]. cbn [fst] in H1.
  specialize (IH db1 H1). destruct (serve rqs db1) as [db2 codes].
  exact IH.
Qed.

Lemma initial_Inv (db : Store) : initial db -> Inv db.
Proof.
  intros [Hrs Hg]. split.
  - intros id g Hl. unfold rating_ok, buckets_match_count, buckets_nonneg.
    rewrite (Hg id g Hl). unfold sumBuckets. cbn.
    split; [lia |]. split; [reflexivity |]. intros _. reflexivity.
  - rewrite Hrs. constructor.
Qed.

Lemma reachable_Inv (db : Store) : reachable db -> Inv db.
Proof.
  intros (db0 & rqs & H0 & ->). apply serve_Inv. now apply initial_Inv.
Qed.

(** ** The distribution adds up to the count *)

(** C3: in every store the review routes can lead to, the five buckets of
    every game add up to its rating.count; the incremental update of a
    document keeps that equality for a rating in 1..5, and the rescan
    after a deletion establishes it. *)
Theorem distribution_sums_to_count (db : Store) (id : ObjectId) (g : Game.t) :
  reachable db ->
  games db !! id = Some g ->
  sumBuckets (Game.distribution (Game.rating g)) = Game.count (Game.rating g)
  /\ (forall newRating g',
        rating_in_range newRating ->
        Game.updateRating g newRating = inr g' ->
        sumBuckets (Game.distribution (Game.rating g'))
        = Game.count (Game.rating g'))
  /\ (forall rs g',
        Forall (fun r => rating_in_range (Review.rating r)) rs ->
        rescan g rs = inr g' ->
        sumBuckets (Game.distribution (Game.rating g'))
        = Game.count (Game.rating g')).
Proof.
  intros Hreach Hl. apply reachable_Inv in Hreach.
  destruct Hreach as [Hg _]. destruct (Hg id g Hl) as (Hn & Hc & Hz).
  split; [exact Hc |]. split.
  - intros newRating g' Hr U. apply updateRating_inr in U. subst g'.
    now apply (updateRating_result_ok g newRating Hr (conj Hn Hc)).
  - intros rs g' Hrs R. apply rescan_inr in R. destruct R as [avg ->]. cbn.
    rewrite rebuilt_sum by assumption.
    change (sumBuckets Game.zeroDistribution) with 0. lia.
Qed.

(** ** Deleting the last review *)

(** When the deleted review was the last active one of its game, the hook
    finds no review to rescan and writes nothing. *)
Lemma delete_last_review_unchanged (user : ReqUser) (id : ObjectId)
    (review : Review.t) (db : Store) :
  find (fun r => N.eqb (Review._id r) id) (reviews db) = Some review ->
  forbidden review user = false ->
  activeReviewsOf (Review.game review) (remove_by_id id (reviews db)) = [] ->
  delete_reviews user id db
  = (mkStore (games db) (remove_by_id id (reviews db)), 200).
Proof.
  intros F Hperm Hlast. unfold delete_reviews, try_catch.
  unfold mbind at 1. unfold Review_findById. rewrite F, Hperm.
  unfold mbind at 1. unfold Review_findByIdAndDelete.
  unfold mbind at 1. unfold Review_findById. rewrite F.
  unfold mbind at 1. unfold Review_remove.
  unfold mbind at 1. rewrite postFindOneAndDelete_exec. cbn [games reviews].
  rewrite Hlast. cbn [length Z.of_nat Z.ltb Z.compare].
  now destruct (Review.Status_eqb _ _), (games db !! Review.game review).
Qed.

(** C2, evaluated: one review with rating 5 is posted to a game without
    reviews and then deleted by its author; both requests succeed, no
    review is left, and the game keeps rating.count = 1 and
    rating.average = 5. *)
Theorem delete_last_review_keeps_rating :
  let run := serve [PostReview example_user (example_body 5) 100%N;
                    DeleteReview example_user 100%N] example_store in
  snd run = [201; 200] /\
  reviews (fst run) = [] /\
  exists g,
    games (fst run) !! 1%N = Some g /\
    Game.count (Game.rating g) = 1 /\
    (Game.average (Game.rating g) == 5)%Q /\
    Game.distribution (Game.rating g) = Game.mkDistribution 0 0 0 0 1.
Proof.
  cbv zeta. split; [vm_compute; reflexivity |].
  split; [vm_compute; reflexivity |].
  eexists. split; [vm_compute; reflexivity |].
  split; [reflexivity |]. split; reflexivity.
Qed.

(** ** The category rollup *)

Lemma updateStats_exec (db : Store) (this : Category.t) :
  Category.updateStats db this
  = inr (Category.mkCategory (Category._id this)
           (rollup (Category.matched (Category._id this) db))).
Proof.
  unfold Category.updateStats, Category.group, rollup, tenths, sumAverages,
    sumPlays.
  destruct (Category.matched _ db) as [| g gs]; [reflexivity |].
  cbv zeta. rewrite js_div_inject_Z by (cbn [length]; lia).
  cbn [bind ret Category.gameCount Category.totalPlayCount
       Category.averageRating].
  reflexivity.
Qed.

Lemma fold_plays_shift (gs : list Game.t) :
  forall a,
    fold_left (fun s g => s + Game.playCount (Game.stats g)) gs a
    = a + sumPlays gs.
Proof.
  unfold sumPlays. induction gs as [| g gs IH]; intros a; cbn; [lia |].
  rewrite IH, (IH (0 + _)). lia.
Qed.

Lemma fold_averages_shift (gs : list Game.t) :
  forall a,
    (fold_left (fun s g => s + fl (Game.average (Game.rating g))) gs a
     == a + sumAverages gs)%Q.
Proof.
  unfold sumAverages. induction gs as [| g gs IH]; intros a; cbn [fold_left];
    [ring |].
  rewrite IH, (IH (0 + _)%Q). ring.
Qed.

Lemma sumPlays_cons (g : Game.t) (gs : list Game.t) :
  sumPlays (g :: gs) = Game.playCount (Game.stats g) + sumPlays gs.
Proof. unfold sumPlays at 1. cbn. now rewrite fold_plays_shift. Qed.

Lemma sumAverages_cons (g : Game.t) (gs : list Game.t) :
  (sumAverages (g :: gs)
   == fl (Game.average (Game.rating g)) + sumAverages gs)%Q.
Proof.
  unfold sumAverages at 1. cbn [fold_left]. rewrite fold_averages_shift. ring.
Qed.

Lemma sumPlays_perm (gs gs' : list Game.t) :
  Permutation gs gs' -> sumPlays gs = sumPlays gs'.
Proof.
  induction 1; rewrite ?sumPlays_cons; try lia; congruence.
Qed.

Lemma sumAverages_perm (gs gs' : list Game.t) :
  Permutation gs gs' -> (sumAverages gs == sumAverages gs')%Q.
Proof.
  induction 1 as [| g l l' _ IH | g h l | l l' l'' _ IH1 _ IH2].
  - reflexivity.
  - rewrite !sumAverages_cons, IH. reflexivity.
  - rewrite !sumAverages_cons. ring.
  - now rewrite IH1.
Qed.

(** ** The rounding to a double *)

Lemma ulp_exponent_comp (a b : Q) :
  (a == b)%Q -> ulp_exponent a = ulp_exponent b.
Proof.
  intros H. unfold ulp_exponent.
  now rewrite (Qfloor_comp _ _ (Qmult_comp _ _ H _ _ (Qeq_refl _))).
Qed.

Lemma nearest_even_comp (y z : Q) :
  (y == z)%Q -> nearest_even y = nearest_even z.
Proof.
  intros H. unfold nearest_even. cbv zeta. rewrite (Qfloor_comp _ _ H).
  assert (E : (y - inject_Z (Qfloor z) == z - inject_Z (Qfloor z))%Q)
    by now rewrite H.
  now rewrite (Qcompare_comp _ _ E _ _ (Qeq_refl (1 # 2))).
Qed.

Lemma fl_comp (x y : Q) : (x == y)%Q -> fl x = fl y.
Proof.
  intros H. unfold fl. cbv zeta.
  rewrite (ulp_exponent_comp _ _ (Qabs_wd _ _ H)).
  now rewrite (nearest_even_comp _ _
                 (Qdiv_comp _ _ H _ _ (Qeq_refl (pow2 _)))).
Qed.

Lemma pow2_pos (e : Z) : (0 < pow2 e)%Q.
Proof.
  unfold pow2. destruct (Z.leb_spec 0 e) as [H | H].
  - change 0%Q with (inject_Z 0). rewrite <- Zlt_Qlt.
    now apply Z.pow_pos_nonneg.
  - reflexivity.
Qed.

Lemma pow2_inverse (e : Z) :
  e <= 0 -> (pow2 e * inject_Z (2 ^ (- e)) == 1)%Q.
Proof.
  intros H. unfold pow2. destruct (Z.leb_spec 0 e) as [H0 | H0].
  - replace e with 0 by lia. reflexivity.
  - assert (Hp : 0 < 2 ^ (- e)) by (apply Z.pow_pos_nonneg; lia).
    unfold Qeq, Qmult, inject_Z. cbn [Qnum Qden].
    rewrite Pos.mul_1_r, Z2Pos.id by assumption. lia.
Qed.

Lemma nearest_even_le (y : Q) (n : Z) :
  (y <= inject_Z n)%Q -> nearest_even y <= n.
Proof.
  intros H. unfold nearest_even. cbv zeta.
  pose proof (Qfloor_resp_le _ _ H) as F. rewrite Qfloor_Z in F.
  destruct (Z.eq_dec (Qfloor y) n) as [E | E].
  - rewrite E.
    destruct (Qcompare_spec (y - inject_Z n) (1 # 2)) as [C | C | C];
      [lra | lia | lra].
  - destruct (y - inject_Z (Qfloor y) ?= 1 # 2)%Q;
      [destruct (Z.even _) | |]; lia.
Qed.

Lemma nearest_even_ge (y : Q) (n : Z) :
  (inject_Z n <= y)%Q -> n <= nearest_even y.
Proof.
  intros H. unfold nearest_even. cbv zeta.
  pose proof (Qfloor_resp_le _ _ H) as F. rewrite Qfloor_Z in F.
  destruct (y - inject_Z (Qfloor y) ?= 1 # 2)%Q;
    [destruct (Z.even _) | |]; lia.
Qed.


(** Below 2^53 the spacing of the doubles is at most 1. *)
Lemma ulp_exponent_nonpos (x : Q) (c : Z) :
  (0 <= x)%Q -> (x <= inject_Z c)%Q -> c < 2 ^ 53 ->
  ulp_exponent (Qabs x) <= 0.
Proof.
  intros H0 Hc H53. unfold ulp_exponent.
  assert (Ha : (Qabs x * inject_Z (2 ^ 1074)
                <= inject_Z (c * 2 ^ 1074))%Q).
  { rewrite (Qabs_pos x H0), inject_Z_mult.
    apply Qmult_le_compat_r; [assumption |].
    change 0%Q with (inject_Z 0). rewrite <- Zle_Qle.
    apply Z.pow_nonneg. lia. }
  apply Qfloor_resp_le in Ha. rewrite Qfloor_Z in Ha.
  set (a := Qfloor (Qabs x * inject_Z (2 ^ 1074))) in *.
  assert (Hlog : Z.log2 a < 1127).
  { destruct (Z.le_gt_cases a 0) as [Hle | Hgt].
    - rewrite Z.log2_nonpos by assumption. lia.
    - apply Z.log2_lt_pow2; [assumption |].
      replace 1127 with (53 + 1074) by reflexivity.
      rewrite Z.pow_add_r by lia.
      assert (0 < 2 ^ 1074) by (apply Z.pow_pos_nonneg; lia).
      generalize dependent (2 ^ 1074). generalize dependent (2 ^ 53).
      intros. nia. }
  lia.
Qed.

(** Rounding does not pass a whole number below 2^53. *)
Lemma fl_le_integer (x : Q) (c : Z) :
  (0 <= x)%Q -> (x <= inject_Z c)%Q -> c < 2 ^ 53 ->
  (fl x <= inject_Z c)%Q.
Proof.
  intros H0 Hc H53. unfold fl. cbv zeta.
  pose proof (ulp_exponent_nonpos x c H0 Hc H53) as He.
  set (e := ulp_exponent (Qabs x)) in *.
  pose proof (pow2_pos e) as Hp. pose proof (pow2_inverse e He) as Hi.
  assert (Hm : 0 < 2 ^ (- e)) by (apply Z.pow_pos_nonneg; lia).
  set (m := 2 ^ (- e)) in *.
  assert (Hm' : (0 < inject_Z m)%Q)
    by (change 0%Q with (inject_Z 0); now rewrite <- Zlt_Qlt).
  assert (Ec : (inject_Z c * inject_Z m * pow2 e == inject_Z c)%Q).
  { assert (R : (inject_Z c * inject_Z m * pow2 e
                 == inject_Z c * (pow2 e * inject_Z m))%Q) by ring.
    rewrite R, Hi. ring. }
  assert (Hy : (x / pow2 e <= inject_Z (c * m))%Q).
  { apply Qle_shift_div_r; [assumption |]. rewrite inject_Z_mult, Ec.
    exact Hc. }
  apply nearest_even_le in Hy. rewrite Zle_Qle, inject_Z_mult in Hy.
  rewrite <- Ec. apply Qmult_le_compat_r; [assumption | lra].
Qed.

Lemma fl_ge_integer (x : Q) (c d : Z) :
  0 <= c -> (inject_Z c <= x)%Q -> (x <= inject_Z d)%Q -> d < 2 ^ 53 ->
  (inject_Z c <= fl x)%Q.
Proof.
  intros H0 Hc Hd H53.
  assert (Hx : (0 <= x)%Q).
  { apply Qle_trans with (inject_Z c); [| assumption].
    change 0%Q with (inject_Z 0). now rewrite <- Zle_Qle. }
  unfold fl. cbv zeta.
  pose proof (ulp_exponent_nonpos x d Hx Hd H53) as He.
  set (e := ulp_exponent (Qabs x)) in *.
  pose proof (pow2_pos e) as Hp. pose proof (pow2_inverse e He) as Hi.
  assert (Hm : 0 < 2 ^ (- e)) by (apply Z.pow_pos_nonneg; lia).
  set (m := 2 ^ (- e)) in *.
  assert (Ec : (inject_Z c * inject_Z m * pow2 e == inject_Z c)%Q).
  { assert (R : (inject_Z c * inject_Z m * pow2 e
                 == inject_Z c * (pow2 e * inject_Z m))%Q) by ring.
    rewrite R, Hi. ring. }
  assert (Hy : (inject_Z (c * m) <= x / pow2 e)%Q).
  { apply Qle_shift_div_l; [assumption |]. rewrite inject_Z_mult, Ec.
    exact Hc. }
  apply nearest_even_ge in Hy. rewrite Zle_Qle, inject_Z_mult in Hy.
  rewrite <- Ec. apply Qmult_le_compat_r; [assumption | lra].
Qed.

Lemma tenths_perm (gs gs' : list Game.t) :
  Permutation gs gs' -> tenths gs = tenths gs'.
Proof.
  intros H. unfold tenths.
  now rewrite (Permutation_length H), (fl_comp _ _ (sumAverages_perm _ _ H)).
Qed.

Lemma rollup_perm (gs gs' : list Game.t) :
  Permutation gs gs' -> rollup gs = rollup gs'.
Proof.
  intros H. pose proof (Permutation_length H) as Hlen.
  destruct gs as [| g gs], gs' as [| g' gs']; try discriminate;
    [reflexivity |].
  unfold rollup. now rewrite Hlen, (sumPlays_perm _ _ H), (tenths_perm _ _ H).
Qed.

(** ** The games of a category *)

Lemma Game_Status_eqb_eq (a b : Game.Status) :
  Game.Status_eqb a b = true <-> a = b.
Proof. destruct a, b; cbn; split; intros; congruence. Qed.

Lemma matched_keyed (c : ObjectId) (l : list (ObjectId * Game.t)) :
  filter (fun g => N.eqb (Game.category g) c
                   && Game.Status_eqb (Game.status g) Game.active)
         (map snd l)
  = map snd
      (List.filter
         (fun x => N.eqb (Game.category (snd x)) c
                   && Game.Status_eqb (Game.status (snd x)) Game.active)
         l).
Proof.
  induction l as [| [id g] l IH]; [reflexivity |].
  cbn [map snd List.filter]. rewrite filter_cons, IH.
  destruct (_ && _); destruct (decide _) as [d | d]; try reflexivity.
  - now destruct d.
  - now destruct d.
Qed.

Lemma keyed_population (db : Store) (c : ObjectId) :
  population db c
    (List.filter
       (fun x => N.eqb (Game.category (snd x)) c
                 && Game.Status_eqb (Game.status (snd x)) Game.active)
       (map_to_list (games db))).
Proof.
  split.
  - apply List.NoDup_filter, NoDup_ListNoDup, NoDup_map_to_list.
  - intros id g. rewrite filter_In, <- list_elem_of_In, elem_of_map_to_list.
    cbn [snd]. rewrite andb_true_iff, N.eqb_eq, Game_Status_eqb_eq.
    reflexivity.
Qed.

Lemma populations_perm (db : Store) (c : ObjectId)
    (pop pop' : list (ObjectId * Game.t)) :
  population db c pop -> population db c pop' -> Permutation pop pop'.
Proof.
  intros [N1 I1] [N2 I2]. apply Permutation.NoDup_Permutation; try assumption.
  intros [id g]. now rewrite I1, I2.
Qed.

Lemma matched_population (db : Store) (c : ObjectId)
    (pop : list (ObjectId * Game.t)) :
  population db c pop -> Permutation (Category.matched c db) (map snd pop).
Proof.
  intros H. unfold Category.matched. rewrite matched_keyed.
  apply Permutation_map.
  exact (populations_perm db c _ _ (keyed_population db c) H).
Qed.

(** C5: updateStats always returns; the stats it stores are determined by
    the active games of the category as the store has them (two stores
    that agree on which games are of the category and active give the same
    stats, whatever else they hold and whatever the stats were before);
    running it again on an unchanged game population changes nothing; and
    for a category whose active games are exactly two, with averages 4.0
    and 2.0, the stored averageRating is 3.0 and the gameCount 2. *)
Theorem updateStats_pure_idempotent :
  (forall (db : Store) (this : Category.t),
      exists this', Category.updateStats db this = inr this') /\
  (forall (db db' : Store) (this that this' that' : Category.t),
      (forall id g,
          (games db !! id = Some g /\
           Game.category g = Category._id this /\
           Game.status g = Game.active) <->
          (games db' !! id = Some g /\
           Game.category g = Category._id that /\
           Game.status g = Game.active)) ->
      Category.updateStats db this = inr this' ->
      Category.updateStats db' that = inr that' ->
      Category.stats this' = Category.stats that') /\
  (forall (db : Store) (this this' : Category.t),
      Category.updateStats db this = inr this' ->
      Category.updateStats db this' = inr this') /\
  (forall (db : Store) (this this' : Category.t) (id1 id2 : ObjectId)
          (g1 g2 : Game.t),
      id1 <> id2 ->
      games db !! id1 = Some g1 ->
      games db !! id2 = Some g2 ->
      (forall id g,
          games db !! id = Some g ->
          (Game.category g = Category._id this /\
           Game.status g = Game.active) <->
          (id = id1 \/ id = id2)) ->
      (Game.average (Game.rating g1) == 4)%Q ->
      (Game.average (Game.rating g2) == 2)%Q ->
      Category.updateStats db this = inr this' ->
      (Category.averageRating (Category.stats this') == 3)%Q /\
      Category.gameCount (Category.stats this') = 2).
Proof.
  split; [| split; [| split]].
  - intros db this. rewrite updateStats_exec. eexists. reflexivity.
  - intros db db' this that this' that' Hsame H1 H2.
    rewrite updateStats_exec in H1, H2.
    injection H1 as <-. injection H2 as <-. cbn [Category.stats].
    apply rollup_perm.
    pose proof (keyed_population db (Category._id this)) as P.
    rewrite (matched_population db _ _ P).
    symmetry. apply matched_population.
    destruct P as [Hnd Hin]. split; [exact Hnd |].
    intros id g. rewrite Hin. unfold in_category. apply Hsame.
  - intros db this this' H. rewrite updateStats_exec in H. injection H as <-.
    rewrite updateStats_exec. reflexivity.
  - intros db this this' id1 id2 g1 g2 Hne G1 G2 Hall H4 H2 H.
    rewrite updateStats_exec in H. injection H as <-.
    assert (P : population db (Category._id this) [(id1, g1); (id2, g2)]).
    { split.
      - constructor; [intros [E | []]; congruence |].
        constructor; [intros [] | constructor].
      - intros id g. unfold in_category. split.
        + intros [E | [E | []]]; injection E as <- <-.
          * split; [exact G1 |]. apply (Hall id1 g1 G1). now left.
          * split; [exact G2 |]. apply (Hall id2 g2 G2). now right.
        + intros (G & Hin).
          destruct (proj1 (Hall id g G) Hin) as [-> | ->].
          * left. congruence.
          * right. left. congruence. }
    rewrite (rollup_perm _ _ (matched_population db _ _ P)).
    cbn [map snd Category.stats rollup length].
    cbn [Category.averageRating Category.gameCount]. split; [| reflexivity].
    assert (E : (sumAverages [g1; g2] == 6)%Q).
    { rewrite !sumAverages_cons, (fl_comp _ _ H4), (fl_comp _ _ H2).
      vm_compute. reflexivity. }
    unfold tenths. rewrite (fl_comp _ _ E). vm_compute. reflexivity.
Qed.

(** ** No quotient has a zero divisor *)

Lemma validate_not_zero_division (g : Game.t) :
  Game.validate g <> inl DivisionByZero.
Proof. unfold Game.validate. destruct (_ && _); discriminate. Qed.

Lemma updateRating_not_zero_division (this : Game.t) (newRating : Z) :
  0 <= Game.count (Game.rating this) ->
  Game.updateRating this newRating <> inl DivisionByZero.
Proof.
  intros H. unfold Game.updateRating. cbv zeta.
  rewrite js_div_inject_Z by lia. cbn [bind].
  apply validate_not_zero_division.
Qed.

Lemma postFindOneAndDelete_not_zero_division (doc : option Review.t)
    (db : Store) :
  snd (postFindOneAndDelete doc db) <> inl DivisionByZero.
Proof.
  destruct doc as [doc |]; [| discriminate].
  rewrite postFindOneAndDelete_exec.
  destruct (Review.Status_eqb _ _); [| discriminate].
  destruct (games db !! Review.game doc) as [game |]; [| discriminate].
  cbv zeta. destruct (0 <? _) eqn:L; [| discriminate].
  pose proof (rescan_not_zero_division game
                (activeReviewsOf (Review.game doc) (reviews db))) as R.
  destruct (rescan game _) as [e | game']; [| discriminate].
  cbn [snd]. intros E. injection E as ->. apply R; [| reflexivity].
  intros E. rewrite E in L. discriminate.
Qed.

(** C7: the schema default gives a game without reviews average 0, and in
    every store the review routes can lead to a game with count 0 has
    average 0; updateRating on a document with count >= 0 never divides
    by zero (its divisor is count + 1), nor does the play-time average for
    playCount >= 0; the deletion hook never divides by zero (it rescans a
    non-empty population only); and the category rollup never divides by
    zero and stores averageRating 0 for a category without active
    games. *)
Theorem no_division_by_zero :
  (Game.count Game.defaultRating = 0 /\
   (Game.average Game.defaultRating == 0)%Q) /\
  (forall (db : Store) (id : ObjectId) (g : Game.t),
      reachable db -> games db !! id = Some g ->
      0 <= Game.count (Game.rating g) /\
      (Game.count (Game.rating g) = 0 ->
       (Game.average (Game.rating g) == 0)%Q)) /\
  (forall (this : Game.t) (newRating : Z),
      0 <= Game.count (Game.rating this) ->
      Game.updateRating this newRating <> inl DivisionByZero) /\
  (forall (this : Game.t) (playTime : Q),
      0 <= Game.playCount (Game.stats this) ->
      Game.updateStats this playTime <> inl DivisionByZero) /\
  (forall (doc : option Review.t) (db : Store),
      snd (postFindOneAndDelete doc db) <> inl DivisionByZero) /\
  (forall (db : Store) (this : Category.t),
      Category.updateStats db this <> inl DivisionByZero /\
      (Category.matched (Category._id this) db = [] ->
       exists this',
         Category.updateStats db this = inr this' /\
         Category.averageRating (Category.stats this') = 0%Q)).
Proof.
  split; [split; reflexivity |].
  split; [| split; [| split; [| split]]].
  - intros db id g Hreach Hl. apply reachable_Inv in Hreach.
    destruct Hreach as [Hg _]. destruct (Hg id g Hl) as (Hn & Hc & Hz).
    split; [| exact Hz].
    unfold buckets_match_count, buckets_nonneg, sumBuckets in *. lia.
  - exact updateRating_not_zero_division.
  - intros this playTime H. unfold Game.updateStats. cbv zeta.
    rewrite js_div_inject_Z by lia. discriminate.
  - exact postFindOneAndDelete_not_zero_division.
  - intros db this. rewrite updateStats_exec. split; [discriminate |].
    intros E. eexists. split; [reflexivity |]. rewrite E. reflexivity.
Qed.

(** ** Helpful votes *)

Lemma Review_save_value (this v : Review.t) (db : Store) :
  snd (Review_save this db) = inr v -> v = this.
Proof.
  rewrite Review_save_exec. destruct (has_id _ _); [| discriminate].
  destruct (postSave this _) as [db' [e | []]]; cbn [snd]; congruence.
Qed.

Lemma Review_save_keeps (P : Review.t -> Prop) (this : Review.t) (db : Store) :
  P this -> Forall P (reviews db) ->
  Forall P (reviews (fst (Review_save this db))).
Proof.
  intros Hthis Hrs. rewrite Review_save_reviews.
  destruct (has_id _ _); [now apply replace_by_id_Forall | assumption].
Qed.

Lemma markHelpful_keeps (P : Review.t -> Prop) (this : Review.t)
    (userId : ObjectId) (db : Store) :
  P this ->
  (~ In userId (Review.helpful_users (Review.helpful this)) ->
   P (marked this userId)) ->
  (forall v, snd (markHelpful this userId db) = inr v -> P v) /\
  (Forall P (reviews db) ->
   Forall P (reviews (fst (markHelpful this userId db)))).
Proof.
  intros Hthis Hmarked. rewrite markHelpful_exec.
  destruct (Review.includes _ _) eqn:E.
  - split; [cbn; congruence | trivial].
  - assert (Hnot : ~ In userId (Review.helpful_users (Review.helpful this)))
      by (intros Hin; apply includes_In in Hin; congruence).
    split.
    + intros v Hv. apply Review_save_value in Hv. subst v. auto.
    + apply Review_save_keeps. auto.
Qed.

Lemma unmarkHelpful_keeps (P : Review.t -> Prop) (this : Review.t)
    (userId : ObjectId) (db : Store) :
  P this ->
  (In userId (Review.helpful_users (Review.helpful this)) ->
   P (unmarked this userId)) ->
  (forall v, snd (unmarkHelpful this userId db) = inr v -> P v) /\
  (Forall P (reviews db) ->
   Forall P (reviews (fst (unmarkHelpful this userId db)))).
Proof.
  intros Hthis Hunmarked. rewrite unmarkHelpful_exec.
  destruct (Review.includes _ _) eqn:E.
  - apply includes_In in E. split.
    + intros v Hv. apply Review_save_value in Hv. subst v. auto.
    + apply Review_save_keeps. auto.
  - split; [cbn; congruence | trivial].
Qed.

(** C9: markHelpful and unmarkHelpful keep helpful.count equal to the
    length of helpful.users, on the document they return and on every
    stored review; marking by a user already listed and unmarking by a user
    not listed change neither the document nor the store; a list without
    duplicates stays without duplicates, a successful mark lists the user
    and a successful unmark of such a list removes the user, so that a
    user counts at most once. *)
Theorem helpful_count_matches_users :
  (forall (this : Review.t) (userId : ObjectId) (db : Store),
      helpful_counted this ->
      (forall v, snd (markHelpful this userId db) = inr v ->
                 helpful_counted v) /\
      (forall v, snd (unmarkHelpful this userId db) = inr v ->
                 helpful_counted v) /\
      (Forall helpful_counted (reviews db) ->
       Forall helpful_counted (reviews (fst (markHelpful this userId db))) /\
       Forall helpful_counted (reviews (fst (unmarkHelpful this userId db))))) /\
  (forall (this : Review.t) (userId : ObjectId) (db : Store),
      In userId (Review.helpful_users (Review.helpful this)) ->
      markHelpful this userId db = (db, inr this)) /\
  (forall (this : Review.t) (userId : ObjectId) (db : Store),
      ~ In userId (Review.helpful_users (Review.helpful this)) ->
      unmarkHelpful this userId db = (db, inr this)) /\
  (forall (this : Review.t) (userId : ObjectId) (db : Store),
      List.NoDup (Review.helpful_users (Review.helpful this)) ->
      (forall v, snd (markHelpful this userId db) = inr v ->
                 List.NoDup (Review.helpful_users (Review.helpful v)) /\
                 In userId (Review.helpful_users (Review.helpful v))) /\
      (forall v, snd (unmarkHelpful this userId db) = inr v ->
                 List.NoDup (Review.helpful_users (Review.helpful v)) /\
                 ~ In userId (Review.helpful_users (Review.helpful v)))).
Proof.
  split; [| split; [| split]].
  - intros this userId db Hc.
    destruct (markHelpful_keeps helpful_counted this userId db Hc)
      as [M1 M2]; [intros _; reflexivity |].
    destruct (unmarkHelpful_keeps helpful_counted this userId db Hc)
      as [U1 U2]; [intros _; reflexivity |].
    auto.
  - intros this userId db Hin. rewrite markHelpful_exec.
    apply includes_In in Hin. now rewrite Hin.
  - intros this userId db Hnot. rewrite unmarkHelpful_exec.
    destruct (Review.includes _ _) eqn:E; [| reflexivity].
    apply includes_In in E. contradiction.
  - intros this userId db Hnd. split.
    + intros v Hv. rewrite markHelpful_exec in Hv.
      destruct (Review.includes _ _) eqn:E.
      * cbn in Hv. injection Hv as <-. apply includes_In in E. auto.
      * apply Review_save_value in Hv. subst v. cbn. split.
        -- apply NoDup_snoc; [| assumption].
           intros Hin. apply includes_In in Hin. congruence.
        -- apply in_or_app. right. now left.
    + intros v Hv. rewrite unmarkHelpful_exec in Hv.
      destruct (Review.includes _ _) eqn:E.
      * apply Review_save_value in Hv. subst v. cbn. split.
        -- now apply NoDup_splice1.
        -- apply splice1_removes; [assumption |].
           now apply indexOf_in, includes_In.
      * cbn in Hv. injection Hv as <-. split; [assumption |].
        intros Hin. apply includes_In in Hin. congruence.
Qed.

(** ** Reports *)

Lemma find_report_some (rps : list Review.Report) (userId : ObjectId) :
  In userId (map Review.report_user rps) ->
  exists rp,
    find (fun report => N.eqb (Review.report_user report) userId) rps
    = Some rp.
Proof.
  intros Hin. apply in_map_iff in Hin. destruct Hin as (rp & Heq & Hin).
  destruct (find _ rps) as [rp' |] eqn:F; [now exists rp' |].
  pose proof (find_none _ _ F rp Hin) as N. cbn in N.
  rewrite Heq, N.eqb_refl in N. discriminate.
Qed.

(** C10: a report by a user who already has an entry in the reports list
    changes neither the review nor the store, so a second report by the
    same user after a first one is without effect; and a list that names
    no user twice stays so under any report, on the returned document and
    on every stored review. *)
Theorem report_once_per_user :
  (forall (this : Review.t) (userId : ObjectId) (reason : Review.Reason)
          (description : String.string) (now : Z) (db : Store),
      In userId (map Review.report_user (Review.reports this)) ->
      report this userId reason description now db = (db, inr this)) /\
  (forall (this v : Review.t) (userId : ObjectId)
          (reason reason' : Review.Reason)
          (description description' : String.string) (now now' : Z)
          (db db' : Store),
      report this userId reason description now db = (db', inr v) ->
      report v userId reason' description' now' db' = (db', inr v)) /\
  (forall (this : Review.t) (userId : ObjectId) (reason : Review.Reason)
          (description : String.string) (now : Z) (db : Store),
      reports_ok this ->
      (forall v, snd (report this userId reason description now db) = inr v ->
                 reports_ok v) /\
      (Forall reports_ok (reviews db) ->
       Forall reports_ok
         (reviews (fst (report this userId reason description now db))))).
Proof.
  assert (Hnoop :
    forall this userId reason description now db,
      In userId (map Review.report_user (Review.reports this)) ->
      report this userId reason description now db = (db, inr this)).
  { intros this userId reason description now db Hin. rewrite report_exec.
    destruct (find_report_some _ _ Hin) as [rp ->]. reflexivity. }
  assert (Hok :
    forall this userId reason description now,
      reports_ok this ->
      find (fun report => N.eqb (Review.report_user report) userId)
           (Review.reports this) = None ->
      reports_ok (reported this userId reason description now)).
  { intros this userId reason description now Hrep Hnone.
    unfold reports_ok, reported in *. cbn. rewrite map_app. cbn.
    apply NoDup_snoc; [| assumption].
    intros Hin. destruct (find_report_some _ _ Hin) as [rp F]. congruence. }
  split; [exact Hnoop |]. split.
  - intros this v userId reason reason' description description' now now'
           db db' H.
    apply Hnoop. rewrite report_exec in H.
    destruct (find _ (Review.reports this)) as [rp |] eqn:F.
    + injection H as <- <-. apply find_some in F. destruct F as [Hin Heq].
      apply N.eqb_eq in Heq. apply in_map_iff. now exists rp.
    + assert (Hv : v = reported this userId reason description now)
        by (apply (Review_save_value _ _ db); now rewrite H).
      subst v. cbn. rewrite map_app. apply in_or_app. right. now left.
  - intros this userId reason description now db Hrep.
    rewrite report_exec.
    destruct (find _ (Review.reports this)) as [rp |] eqn:F.
    + split; [cbn; congruence | trivial].
    + split.
      * intros v Hv. apply Review_save_value in Hv. subst v. now apply Hok.
      * apply Review_save_keeps. now apply Hok.
Qed.

(** ** The properties at concrete inputs *)

Lemma example_store_initial : initial example_store.
Proof.
  split; [reflexivity |]. intros id g H. unfold example_store in H.
  cbn [games] in H. destruct (decide (id = 1%N)) as [-> | Hne].
  - rewrite lookup_insert_eq in H. now injection H as <-.
  - rewrite lookup_insert_ne, lookup_empty in H by congruence. discriminate.
Qed.

Lemma example_details_ok : details_ok example_details.
Proof.
  unfold details_ok, example_details. cbn [content title pros cons playTime
                                           difficulty].
  split; [eexists; split; [reflexivity | cbn; lia] |].
  split; [intros t E; injection E as <-; cbn; lia |].
  split; [intros p [<- | []]; cbn; lia |].
  split; [intros c [] |].
  split; [intros t E; injection E as <-; discriminate |].
  intros s E. injection E as <-. now left.
Qed.

Lemma example_submissions_admissible :
  admissible example_store 1%N example_submissions.
Proof.
  unfold admissible, example_submissions. cbn [map sub_user sub_id req_id].
  split; [repeat (constructor; [cbn; intuition discriminate |]); constructor |].
  split; [repeat (constructor; [cbn; intuition discriminate |]); constructor |].
  split; [intros r [] |]. split; [intros r [] |].
  repeat (constructor; [exact example_details_ok |]). constructor.
Qed.

Lemma review_submissions_count_and_mean_witness :
  snd (serve (map (submit 1%N) example_submissions) example_store)
  = map (fun _ => 201) example_submissions /\
  exists g',
    games (fst (serve (map (submit 1%N) example_submissions) example_store))
      !! 1%N = Some g' /\
    Game.count (Game.rating g') = Z.of_nat (length example_submissions) /\
    (Game.average (Game.rating g')
     * inject_Z (Z.of_nat (length example_submissions))
     == inject_Z (sumRatings (map sub_rating example_submissions)))%Q /\
    (example_submissions <> [] ->
     (Game.average (Game.rating g')
      == inject_Z (sumRatings (map sub_rating example_submissions))
         / inject_Z (Z.of_nat (length example_submissions)))%Q).
Proof.
  apply (review_submissions_count_and_mean example_store 1%N example_game
           example_submissions).
  - vm_compute. reflexivity.
  - reflexivity.
  - reflexivity.
  - exact example_submissions_admissible.
  - unfold example_submissions, rating_in_range.
    repeat constructor; cbn; lia.
Defined.

Lemma distribution_sums_to_count_witness :
  reachable
    (fst (serve [PostReview example_user (example_body 5) 100%N]
            example_store)) /\
  sumBuckets
    (Game.distribution (Game.rating (updateRating_result example_game 5)))
  = Game.count (Game.rating (updateRating_result example_game 5)).
Proof.
  assert (R : reachable
                (fst (serve [PostReview example_user (example_body 5) 100%N]
                        example_store))).
  { exists example_store, [PostReview example_user (example_body 5) 100%N].
    split; [exact example_store_initial | reflexivity]. }
  split; [exact R |].
  apply (distribution_sums_to_count
           (fst (serve [PostReview example_user (example_body 5) 100%N]
                   example_store))
           1%N (updateRating_result example_game 5) R).
  vm_compute. reflexivity.
Defined.

Lemma favoriteCount_never_negative_witness :
  0 <= Game.favoriteCount (Game.stats example_game) /\
  0 <= Game.favoriteCount
         (Game.stats
            (callFavorites
               (firstn 3 [Decrement; Increment; Decrement; Decrement])
               example_game)).
Proof.
  split; [cbn; lia |].
  apply (favoriteCount_never_negative example_game
           [Decrement; Increment; Decrement; Decrement] 3).
  cbn. lia.
Defined.

Lemma updateStats_pure_idempotent_witness :
  exists this',
    Category.updateStats example_catalog example_category = inr this' /\
    (Category.averageRating (Category.stats this') == 3)%Q /\
    Category.gameCount (Category.stats this') = 2.
Proof.
  destruct updateStats_pure_idempotent as (Htotal & _ & _ & Htwo).
  destruct (Htotal example_catalog example_category) as [this' H].
  exists this'. split; [exact H |].
  apply (Htwo example_catalog example_category this' 1%N 2%N
           (Game.mkGame 7%N (Game.mkRating 4 1 (Game.mkDistribution 0 0 0 1 0))
              Game.defaultStats Game.active)
           (Game.mkGame 7%N (Game.mkRating 2 1 (Game.mkDistribution 0 1 0 0 0))
              Game.defaultStats Game.active)).
  - discriminate.
  - vm_compute. reflexivity.
  - vm_compute. reflexivity.
  - intros id g G. unfold example_catalog in G. cbn [games] in G.
    destruct (decide (id = 1%N)) as [-> | N1].
    { rewrite lookup_insert_eq in G. injection G as <-.
      split; [intros _; now left | intros _; split; reflexivity]. }
    rewrite lookup_insert_ne in G by congruence.
    destruct (decide (id = 2%N)) as [-> | N2].
    { rewrite lookup_insert_eq in G. injection G as <-.
      split; [intros _; now right | intros _; split; reflexivity]. }
    rewrite lookup_insert_ne in G by congruence.
    destruct (decide (id = 3%N)) as [-> | N3].
    { rewrite lookup_insert_eq in G. injection G as <-.
      split; [intros [E _]; discriminate | intros [E | E]; discriminate]. }
    rewrite lookup_insert_ne in G by congruence.
    destruct (decide (id = 4%N)) as [-> | N4].
    { rewrite lookup_insert_eq in G. injection G as <-.
      split; [intros [_ E]; discriminate | intros [E | E]; discriminate]. }
    rewrite lookup_insert_ne, lookup_empty in G by congruence. discriminate.
  - reflexivity.
  - reflexivity.
  - exact H.
Defined.

Lemma no_division_by_zero_witness :
  Game.updateRating example_game 5 <> inl DivisionByZero /\
  (0 <= Game.count (Game.rating (updateRating_result example_game 5)) /\
   (Game.count (Game.rating (updateRating_result example_game 5)) = 0 ->
    (Game.average (Game.rating (updateRating_result example_game 5)) == 0)%Q)).
Proof.
  destruct no_division_by_zero as (_ & Hzero & Hupdate & _).
  split.
  - apply (Hupdate example_game 5). cbn. lia.
  - apply (Hzero
             (fst (serve [PostReview example_user (example_body 5) 100%N]
                     example_store))
             1%N).
    + exists example_store, [PostReview example_user (example_body 5) 100%N].
      split; [exact example_store_initial | reflexivity].
    + vm_compute. reflexivity.
Defined.

Lemma popularity_formula_witness :
  (Game.popularity (updateRating_result example_game 5) == 15 # 10)%Q.
Proof.
  destruct popularity_formula as (_ & _ & _ & Hread).
  rewrite (Hread example_game (updateRating_result example_game 5) 5).
  - vm_compute. reflexivity.
  - vm_compute. reflexivity.
Defined.

Lemma helpful_count_matches_users_witness :
  markHelpful example_review 11%N example_store
  = (example_store, inr example_review) /\
  unmarkHelpful example_review 12%N example_store
  = (example_store, inr example_review).
Proof.
  destruct helpful_count_matches_users as (_ & Hmark & Hunmark & _).
  split.
  - apply (Hmark example_review 11%N example_store). cbn. now left.
  - apply (Hunmark example_review 12%N example_store). cbn.
    intros [H | []]. discriminate.
Defined.

Lemma report_once_per_user_witness :
  report example_review 11%N Review.offensive String.EmptyString 1
    example_store
  = (example_store, inr example_review).
Proof.
  destruct report_once_per_user as (Hnoop & _).
  apply (Hnoop example_review 11%N Review.offensive String.EmptyString 1
           example_store).
  cbn. now left.
Defined.

(** The scenario of the four reviews 5, 5, 5 and 1: average 4, count 4,
    one review in bucket 1 and three in bucket 5, level very-good. *)
Example four_reviews_scenario :
  exists g,
    games (fst (serve (map (submit 1%N) example_submissions) example_store))
      !! 1%N = Some g /\
    (Game.average (Game.rating g) == 4)%Q /\
    Game.count (Game.rating g) = 4 /\
    Game.distribution (Game.rating g) = Game.mkDistribution 1 0 0 0 3 /\
    Game.ratingLevel g = Game.very_good.
Proof.
  eexists. split; [vm_compute; reflexivity |].
  repeat split.
Qed.

(** * Further properties of the embedded code *)

(** ** What a request does to the games *)

Lemma validate_inr (g g' : Game.t) :
  Game.validate g = inr g' ->
  g' = g /\
  (0 <= Game.average (Game.rating g))%Q /\
  (Game.average (Game.rating g) <= 5)%Q.
Proof.
  unfold Game.validate.
  destruct (Qle_bool 0 _) eqn:E0; [| discriminate].
  destruct (Qle_bool _ 5) eqn:E5; [| discriminate].
  cbn. intros H. injection H as <-.
  apply Qle_bool_iff in E0, E5. auto.
Qed.

Lemma updateRating_average_bounds (g g' : Game.t) (r : Z) :
  Game.updateRating g r = inr g' ->
  (0 <= Game.average (Game.rating g'))%Q /\
  (Game.average (Game.rating g') <= 5)%Q.
Proof.
  unfold Game.updateRating. cbv zeta.
  destruct (js_div _ _) as [e | avg]; cbn [bind]; [discriminate |].
  intros H. apply validate_inr in H. destruct H as (-> & H0 & H5). auto.
Qed.

Lemma rescan_average_bounds (g g' : Game.t) (rs : list Review.t) :
  rescan g rs = inr g' ->
  (0 <= Game.average (Game.rating g'))%Q /\
  (Game.average (Game.rating g') <= 5)%Q.
Proof.
  unfold rescan.
  destruct (js_div _ _) as [e | avg]; cbn [bind]; [discriminate |].
  intros H. apply validate_inr in H. destruct H as (-> & H0 & H5). auto.
Qed.

Lemma rescan_average (g g' : Game.t) (rs : list Review.t) :
  rs <> [] ->
  rescan g rs = inr g' ->
  Game.rating g'
  = Game.mkRating
      (Qdiv
         (inject_Z
            (fold_left (fun sum review => sum + Review.rating review) rs 0))
         (inject_Z (Z.of_nat (length rs))))
      (Z.of_nat (length rs))
      (rebuilt rs Game.zeroDistribution).
Proof.
  intros Hne. unfold rescan.
  rewrite js_div_inject_Z by (destruct rs; [congruence | cbn; lia]).
  cbn [bind]. intros H. apply validate_inr in H. destruct H as (-> & _).
  reflexivity.
Qed.

Lemma fold_ratings_shift (rs : list Review.t) :
  forall a,
    fold_left (fun sum review => sum + Review.rating review) rs a
    = a + sumReviewRatings rs.
Proof.
  unfold sumReviewRatings, sumRatings.
  induction rs as [| r rs IH]; intros a; cbn; [lia |].
  rewrite IH. lia.
Qed.

Lemma rebuilt_total (rs : list Review.t) :
  forall d,
    Forall (fun r => rating_in_range (Review.rating r)) rs ->
    Game.totalRating (rebuilt rs d)
    = Game.totalRating d + sumReviewRatings rs.
Proof.
  unfold sumReviewRatings, sumRatings.
  induction rs as [| r rs IH]; intros d H; [cbn; lia |].
  inversion H as [| ? ? Hr Hrs]; subst.
  change (rebuilt (r :: rs) d)
    with (rebuilt rs (Game.set d (Review.rating r)
                        (Game.get d (Review.rating r) + 1))).
  rewrite IH by assumption. rewrite totalRating_set by assumption.
  cbn [map fold_right]. lia.
Qed.

Lemma rating_step_same_besides (g g' : Game.t) :
  rating_step g g' -> same_besides_rating g g'.
Proof.
  intros [(r & _ & U) | (rs & _ & _ & R)].
  - apply updateRating_inr in U. subst g'. repeat split.
  - apply rescan_inr in R. destruct R as [avg ->]. repeat split.
Qed.

Lemma rating_step_rating_ok (g g' : Game.t) :
  rating_ok g -> rating_step g g' -> rating_ok g'.
Proof.
  intros Hok [(r & Hr & U) | (rs & Hne & Hrs & R)].
  - apply updateRating_inr in U. subst g'.
    now apply updateRating_result_rating_ok.
  - apply rescan_inr in R. destruct R as [avg ->].
    split; [apply rebuilt_nonneg; unfold buckets_nonneg; cbn; lia |].
    split.
    + unfold buckets_match_count. cbn. rewrite rebuilt_sum by assumption.
      change (sumBuckets Game.zeroDistribution) with 0. lia.
    + cbn [Game.count Game.rating Game.with_rating].
      destruct rs; [congruence | cbn [length]; lia].
Qed.

Lemma touch_refl (db : Store) : touch db db.
Proof. now left. Qed.

Lemma touch_reviews (db : Store) (rs : list Review.t) (db' : Store) :
  touch (mkStore (games db) rs) db' -> touch db db'.
Proof. intros H. exact H. Qed.

Lemma postSave_touch (this : Review.t) (db : Store) :
  rating_in_range (Review.rating this) -> touch db (fst (postSave this db)).
Proof.
  intros Hr. rewrite postSave_exec.
  destruct (Review.Status_eqb _ _); [| apply touch_refl].
  destruct (games db !! Review.game this) as [game |] eqn:G;
    [| apply touch_refl].
  destruct (Game.updateRating game (Review.rating this)) as [e | game'] eqn:U;
    [apply touch_refl |].
  right. exists (Review.game this), game, game'.
  split; [exact G |]. split; [reflexivity |]. left. eauto.
Qed.

Lemma Review_save_touch (this : Review.t) (db : Store) :
  rating_in_range (Review.rating this) ->
  touch db (fst (Review_save this db)).
Proof.
  intros Hr. rewrite Review_save_exec.
  destruct (has_id _ _); [| apply touch_refl].
  pose proof (postSave_touch this
                (mkStore (games db) (replace_by_id this (reviews db))) Hr)
    as HP.
  destruct (postSave this _) as [db' [e | []]]; exact HP.
Qed.

Lemma touch_touches (db db' : Store) : touch db db' -> touches db db'.
Proof. intros H. exists db'. split; [exact H | apply touch_refl]. Qed.

Lemma touches_refl (db : Store) : touches db db.
Proof. apply touch_touches, touch_refl. Qed.

Lemma post_reviews_touch (user : ReqUser) (body : ReviewBody)
    (newId : ObjectId) (db : Store) :
  touch db (fst (post_reviews user body newId db)).
Proof.
  destruct (post_validators body) eqn:V;
    [| rewrite post_reviews_rejected by assumption; apply touch_refl].
  destruct (post_validators_inv body V) as (game & rating & n & EG & ER & EI & Hn).
  rewrite (post_reviews_exec user body newId db game rating n V EG ER EI Hn).
  destruct (games db !! game) as [g |] eqn:G; [| apply touch_refl].
  destruct (find _ (reviews db)); [apply touch_refl |].
  destruct (Review_validate_details true (body_details body));
    [apply touch_refl |].
  destruct (has_id newId (reviews db)); [apply touch_refl |].
  cbv zeta.
  destruct (Game.updateRating g n) as [e | g'] eqn:U; cbn [fst].
  - now left.
  - right. exists game, g, g'. split; [exact G |].
    split; [reflexivity |]. left. eauto.
Qed.

Lemma updateRating_raw_touch (id : ObjectId) (this : Game.t) (rating : Json)
    (db : Store) :
  games db !! id = Some this ->
  touch db (fst (updateRating_raw id this rating db)).
Proof.
  intros G. rewrite (updateRating_raw_exec id this rating db G).
  destruct (bucket rating) as [k |] eqn:B; [| apply touch_refl].
  apply bucket_integer in B. destruct B as [_ Hk].
  destruct (Game.updateRating this k) as [e | this'] eqn:U;
    [apply touch_refl |].
  right. exists id, this, this'. split; [exact G |].
  split; [reflexivity |]. left. eauto.
Qed.

Lemma put_reviews_touch (user : ReqUser) (id : ObjectId) (body : ReviewPatch)
    (db : Store) :
  touches db (fst (put_reviews user id body db)).
Proof.
  rewrite put_reviews_exec.
  destruct (negb (put_validators body)); [apply touches_refl |].
  destruct (find _ (reviews db)) as [review |]; [| apply touches_refl].
  destruct (forbidden review user); [apply touches_refl |].
  destruct (assign review body) as [e | review']; [apply touches_refl |].
  destruct (Review_validate review') as [e | []] eqn:V; [apply touches_refl |].
  apply Review_validate_range in V.
  destruct (Review_validate_details false (patch_details body)) as [e | []];
    [apply touches_refl |].
  pose proof (Review_save_touch review' db V) as HS.
  destruct (Review_save review' db) as [db1 [e | saved]]; cbn [fst] in *;
    [now apply touch_touches |].
  destruct (patch_rating body) as [rating |]; [| now apply touch_touches].
  destruct (truthy rating && strict_neq rating (Review.rating review'));
    [| now apply touch_touches].
  destruct (games db1 !! Review.game review') as [game |] eqn:G;
    [| now apply touch_touches].
  pose proof (updateRating_raw_touch _ game rating db1 G) as HU.
  exists db1. split; [exact HS |].
  now destruct (updateRating_raw (Review.game review') game rating db1)
    as [db2 [e | g']].
Qed.

Lemma postFindOneAndDelete_touch (doc : option Review.t) (db : Store) :
  Forall review_ok (reviews db) ->
  touch db (fst (postFindOneAndDelete doc db)).
Proof.
  intros Hrs. destruct doc as [doc |]; [| apply touch_refl].
  rewrite postFindOneAndDelete_exec.
  destruct (Review.Status_eqb _ _); [| apply touch_refl].
  destruct (games db !! Review.game doc) as [game |] eqn:G;
    [| apply touch_refl].
  cbv zeta. destruct (0 <? _) eqn:L; [| apply touch_refl].
  destruct (rescan game _) as [e | game'] eqn:R; [apply touch_refl |].
  right. exists (Review.game doc), game, game'.
  split; [exact G |]. split; [reflexivity |]. right.
  exists (activeReviewsOf (Review.game doc) (reviews db)).
  split; [intros E; rewrite E in L; discriminate |].
  split; [| exact R].
  apply activeReviewsOf_Forall.
  eapply List.Forall_impl; [| exact Hrs]. intros r Hr. apply Hr.
Qed.

Lemma delete_reviews_touch (user : ReqUser) (id : ObjectId) (db : Store) :
  Inv db -> touch db (fst (delete_reviews user id db)).
Proof.
  intros HI. unfold delete_reviews. rewrite try_catch_fst.
  apply mbind_fst; unfold Review_findById; intros db' x E;
    [discriminate | injection E as <- <-].
  destruct (find _ (reviews db)) as [review |]; [| apply touch_refl].
  destruct (forbidden review user); [apply touch_refl |].
  assert (HD : touch db (fst (Review_findByIdAndDelete id db))).
  { unfold Review_findByIdAndDelete.
    unfold mbind at 1. unfold Review_findById.
    unfold mbind at 1. unfold Review_remove.
    set (doc := find _ (reviews db)). set (db1 := mkStore _ _).
    assert (H1 : touch db1 (fst (postFindOneAndDelete doc db1)))
      by (apply postFindOneAndDelete_touch; unfold db1; cbn [reviews];
          apply remove_by_id_Forall; apply HI).
    unfold mbind.
    destruct (postFindOneAndDelete doc db1) as [db2 [e | []]]; exact H1. }
  apply mbind_fst; intros db' x E; rewrite E in HD; exact HD.
Qed.

Lemma post_reviews_helpful_touch (user : ReqUser) (id : ObjectId)
    (db : Store) :
  Inv db -> touch db (fst (post_reviews_helpful user id db)).
Proof.
  intros HI. unfold post_reviews_helpful. rewrite try_catch_fst.
  apply mbind_fst; unfold Review_findById; intros db' x E;
    [discriminate | injection E as <- <-].
  destruct (find _ (reviews db)) as [review |] eqn:F; [| apply touch_refl].
  pose proof (find_Forall review_ok _ _ _ (proj2 HI) F) as Hr.
  cbv zeta.
  assert (H : touch db
                (fst ((if Review.includes
                            (Review.helpful_users (Review.helpful review))
                            (req_id user)
                       then unmarkHelpful review (req_id user)
                       else markHelpful review (req_id user)) db))).
  { destruct (Review.includes _ _) eqn:E;
      [rewrite unmarkHelpful_exec | rewrite markHelpful_exec];
      rewrite E; now apply Review_save_touch. }
  apply mbind_fst; intros db' x E; rewrite E in H; exact H.
Qed.

Lemma post_reviews_report_touch (user : ReqUser) (id : ObjectId)
    (reason : option Review.Reason) (description : option String.string)
    (now : Z) (db : Store) :
  Inv db ->
  touch db (fst (post_reviews_report user id reason description now db)).
Proof.
  intros HI. unfold post_reviews_report. rewrite try_catch_fst.
  destruct reason as [reason |]; [| apply touch_refl].
  destruct (negb _); [apply touch_refl |].
  apply mbind_fst; unfold Review_findById; intros db' x E;
    [discriminate | injection E as <- <-].
  destruct (find _ (reviews db)) as [review |] eqn:F; [| apply touch_refl].
  pose proof (find_Forall review_ok _ _ _ (proj2 HI) F) as Hr.
  assert (H : touch db
                (fst (report review (req_id user) reason
                        (default String.EmptyString description) now db))).
  { rewrite report_exec. destruct (find _ (Review.reports review));
      [apply touch_refl | now apply Review_save_touch]. }
  apply mbind_fst; intros db' x E; rewrite E in H; exact H.
Qed.

Lemma handle_touch (rq : Request) (db : Store) :
  Inv db -> touches db (fst (handle rq db)).
Proof.
  destruct rq; cbn [handle]; intros HI;
    auto using touch_touches, post_reviews_touch, put_reviews_touch,
               delete_reviews_touch, post_reviews_helpful_touch,
               post_reviews_report_touch.
Qed.

(** ** The review routes write ratings only *)

Lemma frame_refl (db : Store) : frame db db.
Proof.
  intros id. destruct (games db !! id); [repeat split | exact I].
Qed.

Lemma frame_trans (db1 db2 db3 : Store) :
  frame db1 db2 -> frame db2 db3 -> frame db1 db3.
Proof.
  intros H12 H23 id. specialize (H12 id). specialize (H23 id).
  destruct (games db1 !! id), (games db2 !! id), (games db3 !! id);
    try contradiction; try exact I.
  destruct H12 as (A1 & A2 & A3), H23 as (B1 & B2 & B3).
  repeat split; congruence.
Qed.

Lemma framed_pure {A : Type} (a : A) : framed (pure a).
Proof. intros db. apply frame_refl. Qed.

Lemma framed_lift {A : Type} (r : result A) : framed (lift r).
Proof. intros db. apply frame_refl. Qed.

Lemma framed_bind {A B : Type} (c : M A) (k : A -> M B) :
  framed c -> (forall a, framed (k a)) -> framed (mbind c k).
Proof.
  intros Hc Hk db. unfold mbind. specialize (Hc db).
  destruct (c db) as [db' [e | a]]; [exact Hc |].
  eapply frame_trans; [exact Hc | apply Hk].
Qed.

Lemma framed_reads {A : Type} (f : Store -> A) :
  framed (fun db => (db, inr (f db))).
Proof. intros db. apply frame_refl. Qed.

Lemma framed_reviews (f : Store -> list Review.t) :
  framed (fun db => (mkStore (games db) (f db), inr tt)).
Proof. intros db id. cbn. destruct (games db !! id); [repeat split | exact I]. Qed.

Lemma framed_Game_write (id : ObjectId) (paths : Game.t -> Game.t) :
  (forall stored, same_besides_rating stored (paths stored)) ->
  framed (Game_write id paths).
Proof.
  intros Hp db. unfold Game_write.
  destruct (games db !! id) as [stored |] eqn:G; [| apply frame_refl].
  intros id'. cbn. destruct (decide (id = id')) as [<- | Hne].
  - rewrite G, lookup_insert_eq. apply Hp.
  - rewrite lookup_insert_ne by assumption.
    destruct (games db !! id'); [repeat split | exact I].
Qed.

Lemma framed_updateRating (id : ObjectId) (this : Game.t) (newRating : Z) :
  framed (updateRating id this newRating).
Proof.
  unfold updateRating. apply framed_bind; [apply framed_lift |]. intros this'.
  apply framed_bind; [| intros; apply framed_pure].
  apply framed_Game_write. intros stored. repeat split.
Qed.

Lemma framed_postSave (this : Review.t) : framed (postSave this).
Proof.
  unfold postSave. destruct (Review.Status_eqb _ _); [| apply framed_pure].
  apply framed_bind; [apply (framed_reads (fun db => games db !! _)) |].
  intros [game |]; [| apply framed_pure].
  apply framed_bind; [apply framed_updateRating | intros; apply framed_pure].
Qed.

Lemma framed_Review_update (this : Review.t) : framed (Review_update this).
Proof.
  intros db. unfold Review_update.
  destruct (has_id _ _);
    [apply (framed_reviews (fun db => replace_by_id this (reviews db)) db)
    | apply frame_refl].
Qed.

Lemma framed_Review_insert (this : Review.t) : framed (Review_insert this).
Proof.
  intros db. unfold Review_insert.
  destruct (has_id _ _);
    [apply frame_refl | apply (framed_reviews (fun db => reviews db ++ [this]) db)].
Qed.

Lemma framed_Review_save (this : Review.t) : framed (Review_save this).
Proof.
  unfold Review_save. apply framed_bind; [apply framed_Review_update |].
  intros _. apply framed_bind; [apply framed_postSave |].
  intros _. apply framed_pure.
Qed.

Lemma framed_updateRating_raw (id : ObjectId) (this : Game.t)
    (newRating : Json) :
  framed (updateRating_raw id this newRating).
Proof.
  unfold updateRating_raw.
  destruct (bucket newRating); [apply framed_updateRating | apply framed_lift].
Qed.

Lemma framed_Review_create (this : Review.t) (details : Details) :
  framed (Review_create this details).
Proof.
  unfold Review_create. apply framed_bind; [apply framed_lift |].
  intros _. apply framed_bind; [apply framed_lift |].
  intros _. apply framed_bind; [apply framed_Review_insert |].
  intros _. apply framed_bind; [apply framed_postSave |].
  intros _. apply framed_pure.
Qed.

Lemma framed_postFindOneAndDelete (doc : option Review.t) :
  framed (postFindOneAndDelete doc).
Proof.
  unfold postFindOneAndDelete. destruct doc as [doc |]; [| apply framed_pure].
  destruct (Review.Status_eqb _ _); [| apply framed_pure].
  apply framed_bind; [apply (framed_reads (fun db => games db !! _)) |].
  intros [game |]; [| apply framed_pure].
  apply framed_bind;
    [apply (framed_reads (fun db => activeReviewsOf _ (reviews db))) |].
  intros rs. destruct (0 <? _); [| apply framed_pure].
  apply framed_bind; [apply framed_lift |]. intros game'.
  apply framed_Game_write. intros stored. repeat split.
Qed.

Lemma framed_Review_findById (id : ObjectId) : framed (Review_findById id).
Proof.
  apply (framed_reads
           (fun db => find (fun r => N.eqb (Review._id r) id) (reviews db))).
Qed.

Lemma framed_handler (c : M Z) (db : Store) :
  framed c -> frame db (fst (try_catch c db)).
Proof. intros H. rewrite try_catch_fst. apply H. Qed.

Lemma handle_frame (rq : Request) (db : Store) :
  frame db (fst (handle rq db)).
Proof.
  destruct rq as [user body newId | user id body | user id
                  | user id | user id reason description now];
    cbn [handle].
  - apply framed_handler.
    destruct (negb (post_validators body)); [apply framed_pure |].
    destruct (body_game body) as [game |]; [| apply framed_pure].
    apply framed_bind; [apply (framed_reads (fun db => games db !! _)) |].
    intros [gameExists |]; [| apply framed_pure].
    apply framed_bind;
      [apply (framed_reads (fun db => find _ (reviews db))) |].
    intros [existing |]; [apply framed_pure |].
    destruct (body_rating body) as [rating |]; [| apply framed_lift].
    apply framed_bind; [apply framed_lift |]. intros rating'.
    apply framed_bind; [apply framed_Review_create |]. intros _.
    apply framed_bind; [apply framed_updateRating_raw |]. intros _.
    apply framed_pure.
  - apply framed_handler.
    destruct (negb (put_validators body)); [apply framed_pure |].
    apply framed_bind; [apply framed_Review_findById |].
    intros [review |]; [| apply framed_pure].
    destruct (forbidden review user); [apply framed_pure |].
    apply framed_bind; [apply framed_lift |]. intros review'.
    apply framed_bind; [apply framed_lift |]. intros _.
    apply framed_bind; [apply framed_lift |]. intros _.
    apply framed_bind; [apply framed_Review_save |]. intros _.
    apply framed_bind; [| intros; apply framed_pure].
    destruct (patch_rating body) as [rating |]; [| apply framed_pure].
    destruct (_ && _); [| apply framed_pure].
    apply framed_bind; [apply (framed_reads (fun db => games db !! _)) |].
    intros [game |]; [| apply framed_pure].
    apply framed_bind; [apply framed_updateRating_raw | intros; apply framed_pure].
  - apply framed_handler.
    apply framed_bind; [apply framed_Review_findById |].
    intros [review |]; [| apply framed_pure].
    destruct (forbidden review user); [apply framed_pure |].
    apply framed_bind; [| intros; apply framed_pure].
    unfold Review_findByIdAndDelete.
    apply framed_bind; [apply framed_Review_findById |]. intros doc.
    apply framed_bind;
      [apply (framed_reviews (fun db => remove_by_id id (reviews db))) |].
    intros _.
    apply framed_bind; [apply framed_postFindOneAndDelete |]. intros _.
    apply framed_pure.
  - apply framed_handler.
    apply framed_bind; [apply framed_Review_findById |].
    intros [review |]; [| apply framed_pure].
    cbv zeta. apply framed_bind; [| intros; apply framed_pure].
    destruct (Review.includes _ _).
    + unfold unmarkHelpful. cbv zeta.
      destruct (-1 <? _); [apply framed_Review_save | apply framed_pure].
    + unfold markHelpful.
      destruct (negb _); [apply framed_Review_save | apply framed_pure].
  - apply framed_handler.
    destruct reason as [reason |]; [| apply framed_pure].
    destruct (negb _); [apply framed_pure |].
    apply framed_bind; [apply framed_Review_findById |].
    intros [review |]; [| apply framed_pure].
    apply framed_bind; [| intros; apply framed_pure].
    unfold report. cbv zeta.
    destruct (find _ _); [apply framed_pure | apply framed_Review_save].
Qed.

Lemma serve_frame (rqs : list Request) :
  forall db, frame db (fst (serve rqs db)).
Proof.
  induction rqs as [| rq rqs IH]; intros db; [apply frame_refl |].
  cbn [serve]. pose proof (handle_frame rq db) as H1.
  destruct (handle rq db) as [db1 code]. cbn [fst] in H1.
  specialize (IH db1). destruct (serve rqs db1) as [db2 codes].
  cbn [fst] in *. eapply frame_trans; eassumption.
Qed.

(** X1: whatever requests the review routes serve, on whatever store, they
    neither add nor remove a game, and they leave the category, the stats
    (play count, play times, favourite count) and the status of every game
    as they were: the rating is the only path of a game they write. *)
Theorem review_routes_write_ratings_only
    (rqs : list Request) (db : Store) (id : ObjectId) :
  (games (fst (serve rqs db)) !! id = None <-> games db !! id = None) /\
  (forall g g',
      games db !! id = Some g ->
      games (fst (serve rqs db)) !! id = Some g' ->
      Game.category g' = Game.category g /\
      Game.stats g' = Game.stats g /\
      Game.status g' = Game.status g).
Proof.
  pose proof (serve_frame rqs db id) as H.
  destruct (games db !! id) as [g |], (games (fst (serve rqs db)) !! id)
    as [g' |]; try contradiction.
  - split; [split; discriminate |]. intros g0 g0' E E'.
    injection E as <-. injection E' as <-. exact H.
  - split; [tauto |]. discriminate.
Qed.

(** ** Invariants of the stored ratings *)

Lemma touch_games (P : Game.t -> Prop) (db db' : Store) :
  (forall g g', rating_ok g -> P g -> rating_step g g' -> P g') ->
  (forall id g, games db !! id = Some g -> rating_ok g) ->
  (forall id g, games db !! id = Some g -> P g) ->
  touch db db' ->
  forall id g, games db' !! id = Some g -> P g.
Proof.
  intros Hstep Hok HP [E | (id0 & g0 & g0' & G & E & S)] id g Hl.
  - rewrite E in Hl. eauto.
  - rewrite E in Hl. destruct (decide (id0 = id)) as [<- | Hne].
    + rewrite lookup_insert_eq in Hl. injection Hl as <-. eauto.
    + rewrite lookup_insert_ne in Hl by assumption. eauto.
Qed.

Lemma touches_games (P : Game.t -> Prop) (db db' : Store) :
  (forall g g', rating_ok g -> P g -> rating_step g g' -> P g') ->
  (forall id g, games db !! id = Some g -> rating_ok g) ->
  (forall id g, games db !! id = Some g -> P g) ->
  touches db db' ->
  forall id g, games db' !! id = Some g -> P g.
Proof.
  intros Hstep Hok HP (db1 & T1 & T2).
  apply (touch_games P db1 db' Hstep); [| | exact T2].
  - apply (touch_games rating_ok db db1); try assumption.
    intros g g' H _ S. now apply (rating_step_rating_ok g).
  - now apply (touch_games P db db1 Hstep).
Qed.

Lemma serve_games (P : Game.t -> Prop) :
  (forall g g', rating_ok g -> P g -> rating_step g g' -> P g') ->
  forall rqs db,
    Inv db ->
    (forall id g, games db !! id = Some g -> P g) ->
    forall id g, games (fst (serve rqs db)) !! id = Some g -> P g.
Proof.
  intros Hstep. induction rqs as [| rq rqs IH]; intros db HI HP;
    [exact HP |].
  cbn [serve].
  pose proof (handle_Inv rq db HI) as HI1.
  pose proof (touches_games P db _ Hstep (proj1 HI) HP (handle_touch rq db HI))
    as HP1.
  destruct (handle rq db) as [db1 code]. cbn [fst] in HI1, HP1.
  specialize (IH db1 HI1 HP1). destruct (serve rqs db1) as [db2 codes].
  exact IH.
Qed.

Lemma reachable_games (P : Game.t -> Prop) :
  (forall g, Game.rating g = Game.defaultRating -> P g) ->
  (forall g g', rating_ok g -> P g -> rating_step g g' -> P g') ->
  forall db, reachable db ->
  forall id g, games db !! id = Some g -> P g.
Proof.
  intros Hinit Hstep db (db0 & rqs & H0 & ->).
  apply (serve_games P Hstep); [now apply initial_Inv |].
  intros id g Hl. apply Hinit. destruct H0 as [_ Hg]. eauto.
Qed.

Lemma rating_step_mean_ok (g g' : Game.t) :
  rating_ok g -> rating_step g g' -> mean_ok g'.
Proof.
  intros (Hn & Hc & _) [(r & Hr & U) | (rs & Hne & Hrs & R)].
  - split; [| now apply (updateRating_average_bounds g g' r)].
    apply updateRating_inr in U. subst g'.
    unfold updateRating_result.
    cbn [Game.rating Game.with_rating Game.average Game.count
         Game.distribution].
    apply quotient_times.
    unfold buckets_match_count, buckets_nonneg, sumBuckets in *. lia.
  - split; [| now apply (rescan_average_bounds g g' rs)].
    rewrite (rescan_average g g' rs Hne R).
    cbn [Game.average Game.count Game.distribution].
    rewrite fold_ratings_shift, rebuilt_total by assumption.
    change (Game.totalRating Game.zeroDistribution) with 0.
    apply quotient_times. destruct rs; [congruence | cbn [length]; lia].
Qed.

(** X2: in every store the review routes can lead to, the average of every
    game is the weighted mean of its distribution (average * count is the
    sum of star value times bucket over the five buckets) and lies
    between 0 and 5. *)
Theorem average_is_weighted_mean (db : Store) (id : ObjectId) (g : Game.t) :
  reachable db ->
  games db !! id = Some g ->
  (Game.average (Game.rating g) * inject_Z (Game.count (Game.rating g))
   == inject_Z
        (1 * Game.star1 (Game.distribution (Game.rating g))
         + 2 * Game.star2 (Game.distribution (Game.rating g))
         + 3 * Game.star3 (Game.distribution (Game.rating g))
         + 4 * Game.star4 (Game.distribution (Game.rating g))
         + 5 * Game.star5 (Game.distribution (Game.rating g))))%Q /\
  (0 <= Game.average (Game.rating g))%Q /\
  (Game.average (Game.rating g) <= 5)%Q.
Proof.
  intros Hreach Hl. rewrite <- totalRating_unfold.
  apply (reachable_games mean_ok) with (db := db) (id := id);
    [| | assumption | assumption].
  - intros g0 E. unfold mean_ok. rewrite E. cbn.
    split; [reflexivity |]. split; discriminate.
  - intros g0 g0' Hok _ S. now apply (rating_step_mean_ok g0).
Qed.

Lemma average_is_weighted_mean_witness :
  reachable
    (fst (serve (map (submit 1%N) example_submissions) example_store)) /\
  ((16 # 4) * inject_Z 4
   == inject_Z (1 * 1 + 2 * 0 + 3 * 0 + 4 * 0 + 5 * 3))%Q /\
  (0 <= 16 # 4)%Q /\ (16 # 4 <= 5)%Q.
Proof.
  assert (R : reachable
                (fst (serve (map (submit 1%N) example_submissions)
                        example_store))).
  { exists example_store, (map (submit 1%N) example_submissions).
    split; [exact example_store_initial | reflexivity]. }
  split; [exact R |].
  apply (average_is_weighted_mean _ 1%N
           (Game.mkGame 7%N
              (Game.mkRating (16 # 4) 4 (Game.mkDistribution 1 0 0 0 3))
              Game.defaultStats Game.active) R).
  vm_compute. reflexivity.
Defined.

(** ** Outcomes of a submission *)

Lemma rating_ok_game_ok (g : Game.t) : rating_ok g -> game_ok g.
Proof. intros (Hn & Hc & _). now split. Qed.

(** X3: in a store the review routes can lead to, a submission to an
    existing game, by a user without an active review of that game and
    under an unused id, whose rating is one of 1..5 as a number or as its
    numeral, with a content of 1 to 2000 characters, a title of at most
    100, pros and cons of at most 100 each, a play time that is not
    negative and one of the three difficulties, is answered 201; it
    appends the new review with the schema defaults and raises the game's
    rating.count by exactly 1 and the bucket of the rating by 1, leaving
    the other buckets as they were. *)
Theorem well_formed_submission_accepted
    (db : Store) (user : ReqUser) (game : ObjectId) (rating : Json) (r : Z)
    (details : Details) (newId : ObjectId) (g : Game.t) :
  reachable db ->
  rating_in_range r ->
  (exists q, rating = JNumber q /\ (q == inject_Z r)%Q) \/
  rating = JString (star_name r) ->
  (exists c, content details = Some c /\ (1 <= String.length c <= 2000)%nat) ->
  (forall t, title details = Some t -> (String.length t <= 100)%nat) ->
  (forall p, In p (pros details) -> (String.length p <= 100)%nat) ->
  (forall c, In c (cons details) -> (String.length c <= 100)%nat) ->
  (forall t, playTime details = Some t -> (0 <= t)%Q) ->
  (forall s, difficulty details = Some s ->
     s = "easy" \/ s = "medium" \/ s = "hard") ->
  games db !! game = Some g ->
  (forall rv, In rv (reviews db) ->
     Review.game rv = game -> Review.user rv = req_id user ->
     Review.status rv <> Review.active) ->
  (forall rv, In rv (reviews db) -> Review._id rv <> newId) ->
  exists g',
    post_reviews user (mkReviewBody (Some game) (Some rating) details) newId db
    = (mkStore (<[game := g']> (games db))
         (reviews db ++ [Review.fresh newId game (req_id user) r]),
       201) /\
    Game.count (Game.rating g') = Game.count (Game.rating g) + 1 /\
    Game.get (Game.distribution (Game.rating g')) r
    = Game.get (Game.distribution (Game.rating g)) r + 1 /\
    (forall k, k <> r ->
       Game.get (Game.distribution (Game.rating g')) k
       = Game.get (Game.distribution (Game.rating g)) k).
Proof.
  intros Hreach Hr Hnames Hc Ht Hp Hn Hplay Hd Hg Huser Hid.
  apply reachable_Inv in Hreach. destruct Hreach as [Hok _].
  exists (updateRating_result g r). split; [| split; [| split]].
  - apply post_reviews_created; try assumption.
    + repeat split; assumption.
    + apply (rating_ok_game_ok g (Hok game g Hg)).
  - reflexivity.
  - cbn. now apply get_set.
  - intros k Hk. cbn.
    destruct (Game.distribution (Game.rating g)) as [a b c d e].
    star_cases r Hr; unfold Game.get, Game.set; cbn;
      repeat match goal with
             | |- context [k =? ?n] =>
                 destruct (Z.eqb_spec k n); [subst; try congruence |]
             end; reflexivity.
Qed.

Lemma well_formed_submission_accepted_witness :
  exists g',
    post_reviews example_user
      (mkReviewBody (Some 1%N) (Some (JString "5")) example_details) 100%N
      example_store
    = (mkStore (<[1%N := g']> (games example_store))
         (reviews example_store ++ [Review.fresh 100%N 1%N 10%N 5]), 201) /\
    Game.count (Game.rating g') = 0 + 1.
Proof.
  destruct example_details_ok as (Hc & Ht & Hp & Hn & Hplay & Hd).
  destruct (well_formed_submission_accepted example_store example_user 1%N
              (JString "5") 5 example_details 100%N example_game)
    as (g' & H & Hcount & _); try assumption.
  - exists example_store, []. split; [exact example_store_initial | reflexivity].
  - unfold rating_in_range. lia.
  - now right.
  - vm_compute. reflexivity.
  - intros r [].
  - intros r [].
  - exists g'. split; [exact H | exact Hcount].
Defined.


(** ** Outcomes of a deletion *)

Lemma postFindOneAndDelete_touch_reviews (doc : option Review.t) (db : Store) :
  reviews (fst (postFindOneAndDelete doc db)) = reviews db.
Proof.
  destruct doc as [doc |]; [| reflexivity].
  rewrite postFindOneAndDelete_exec. cbv zeta.
  repeat match goal with
         | |- context [if ?b then _ else _] => destruct b
         | |- context [match ?x with _ => _ end] => destruct x
         end; reflexivity.
Qed.

Lemma sumReviewRatings_bounds (rs : list Review.t) :
  Forall (fun r => rating_in_range (Review.rating r)) rs ->
  Z.of_nat (length rs) <= sumReviewRatings rs <= 5 * Z.of_nat (length rs).
Proof.
  unfold sumReviewRatings, sumRatings.
  induction 1 as [| r rs Hr Hrs IH]; [cbn; lia |].
  cbn [map fold_right length]. unfold rating_in_range in Hr. lia.
Qed.

Lemma rescan_succeeds (g : Game.t) (rs : list Review.t) :
  rs <> [] ->
  Forall (fun r => rating_in_range (Review.rating r)) rs ->
  rescan g rs
  = inr (Game.with_rating g
           (Game.mkRating
              (Qdiv (inject_Z (sumReviewRatings rs))
                    (inject_Z (Z.of_nat (length rs))))
              (Z.of_nat (length rs))
              (rebuilt rs Game.zeroDistribution))).
Proof.
  intros Hne Hrs. unfold rescan.
  assert (Hlen : 0 < Z.of_nat (length rs))
    by (destruct rs; [congruence | cbn [length]; lia]).
  rewrite js_div_inject_Z by lia. cbn [bind].
  rewrite fold_ratings_shift, Z.add_0_l.
  unfold Game.validate. cbn [Game.rating Game.with_rating Game.average].
  pose proof (sumReviewRatings_bounds rs Hrs) as B.
  destruct (quotient_bounds (sumReviewRatings rs) (Z.of_nat (length rs)) 0 5)
    as [H0 H5]; [lia | lia |].
  apply Qle_bool_iff in H0, H5. change (inject_Z 0) with 0%Q in H0.
  change (inject_Z 5) with 5%Q in H5. now rewrite H0, H5.
Qed.

Lemma rebuilt_get (rs : list Review.t) (k : Z) :
  forall d,
    Forall (fun r => rating_in_range (Review.rating r)) rs ->
    Game.get (rebuilt rs d) k
    = Game.get d k
      + Z.of_nat (length (List.filter (fun r => Review.rating r =? k) rs)).
Proof.
  induction rs as [| r rs IH]; intros d H; [cbn; lia |].
  inversion H as [| ? ? Hr Hrs]; subst.
  change (rebuilt (r :: rs) d)
    with (rebuilt rs (Game.set d (Review.rating r)
                        (Game.get d (Review.rating r) + 1))).
  rewrite IH by assumption. cbn [List.filter].
  destruct (Z.eqb_spec (Review.rating r) k) as [<- | Hne].
  - rewrite get_set by assumption. cbn [length]. lia.
  - assert (E : Game.get (Game.set d (Review.rating r)
                            (Game.get d (Review.rating r) + 1)) k
                = Game.get d k).
    { destruct d as [a b c e f]. revert Hr Hne.
      generalize (Review.rating r) as n. intros n Hr Hne.
      star_cases n Hr; unfold Game.get, Game.set; cbn;
        repeat match goal with
               | |- context [k =? ?n] =>
                   destruct (Z.eqb_spec k n); [subst; try congruence |]
               end; reflexivity. }
    rewrite E. reflexivity.
Qed.

Lemma activeReviewsOf_filter (gameId : ObjectId) (rs : list Review.t) :
  activeReviewsOf gameId rs
  = List.filter
      (fun r => N.eqb (Review.game r) gameId
                && Review.Status_eqb (Review.status r) Review.active)
      rs.
Proof.
  unfold activeReviewsOf. induction rs as [| r rs IH]; [reflexivity |].
  cbn [List.filter]. rewrite filter_cons, IH.
  destruct (_ && _); destruct (decide _) as [d | d]; try reflexivity.
  - now destruct d.
  - now destruct d.
Qed.

(** X5: in a store the review routes can lead to, when the author or an
    admin deletes an active review of an existing game and other active
    reviews of that game remain (reviews left in the collection whose game
    is that game and whose status is active), the request is answered 200,
    the review is gone, and the game's rating is rebuilt from these
    reviews: count is their number, average is the mean of their ratings,
    and bucket k holds the number of them with rating k. *)
Theorem delete_recomputes_rating
    (db : Store) (user : ReqUser) (id : ObjectId) (review : Review.t)
    (g : Game.t) :
  let rest :=
    List.filter
      (fun r => N.eqb (Review.game r) (Review.game review)
                && Review.Status_eqb (Review.status r) Review.active)
      (remove_by_id id (reviews db)) in
  reachable db ->
  find (fun r => N.eqb (Review._id r) id) (reviews db) = Some review ->
  forbidden review user = false ->
  Review.status review = Review.active ->
  games db !! Review.game review = Some g ->
  rest <> [] ->
  exists g',
    delete_reviews user id db
    = (mkStore (<[Review.game review := g']> (games db))
         (remove_by_id id (reviews db)), 200) /\
    Game.count (Game.rating g') = Z.of_nat (length rest) /\
    (Game.average (Game.rating g')
     == inject_Z (sumReviewRatings rest) / inject_Z (Z.of_nat (length rest)))%Q /\
    (forall k, rating_in_range k ->
       Game.get (Game.distribution (Game.rating g')) k
       = Z.of_nat (length (List.filter (fun r => Review.rating r =? k) rest))).
Proof.
  intros rest Hreach F Hperm Hact G Hne.
  apply reachable_Inv in Hreach. destruct Hreach as [_ Hrs].
  assert (Erest : activeReviewsOf (Review.game review)
                    (remove_by_id id (reviews db)) = rest)
    by apply activeReviewsOf_filter.
  assert (Hrest : Forall (fun r => rating_in_range (Review.rating r)) rest).
  { rewrite <- Erest. apply activeReviewsOf_Forall, remove_by_id_Forall.
    exact Hrs. }
  eexists. split; [| split; [| split]].
  - unfold delete_reviews, try_catch.
    unfold mbind at 1. unfold Review_findById. rewrite F, Hperm.
    unfold mbind at 1. unfold Review_findByIdAndDelete.
    unfold mbind at 1. unfold Review_findById. rewrite F.
    unfold mbind at 1. unfold Review_remove.
    unfold mbind at 1. rewrite postFindOneAndDelete_exec.
    cbn [games reviews]. rewrite Hact, G. cbn [Review.Status_eqb]. cbv zeta.
    rewrite Erest. rewrite (rescan_succeeds g rest Hne Hrest).
    assert (L : (0 <? Z.of_nat (length rest)) = true)
      by (apply Z.ltb_lt; destruct rest; [congruence | cbn [length]; lia]).
    rewrite L. reflexivity.
  - reflexivity.
  - reflexivity.
  - intros k Hk. cbn. rewrite rebuilt_get by assumption.
    star_cases k Hk; reflexivity.
Qed.

Lemma delete_reviews_exec (user : ReqUser) (id : ObjectId) (db : Store) :
  delete_reviews user id db =
  match find (fun r => N.eqb (Review._id r) id) (reviews db) with
  | None => (db, 404)
  | Some review =>
      if forbidden review user then (db, 403)
      else
        match Review_findByIdAndDelete id db with
        | (db', inr _) => (db', 200)
        | (db', inl _) => (db', 500)
        end
  end.
Proof.
  unfold delete_reviews, try_catch. unfold mbind at 1.
  unfold Review_findById. cbn beta iota.
  destruct (find _ (reviews db)) as [review |]; [| reflexivity].
  destruct (forbidden review user); [reflexivity |].
  unfold mbind, pure.
  now destruct (Review_findByIdAndDelete id db) as [db' [e | doc]].
Qed.

Lemma Review_findByIdAndDelete_reviews (id : ObjectId) (db : Store) :
  reviews (fst (Review_findByIdAndDelete id db))
  = remove_by_id id (reviews db).
Proof.
  unfold Review_findByIdAndDelete.
  unfold mbind at 1. unfold Review_findById. cbn beta iota.
  unfold mbind at 1. unfold Review_remove. cbn beta iota.
  set (doc := find _ (reviews db)). set (db1 := mkStore _ _).
  pose proof (postFindOneAndDelete_touch_reviews doc db1) as HR.
  unfold mbind, pure.
  destruct (postFindOneAndDelete doc db1) as [db2 [e | []]]; exact HR.
Qed.

(** X6: a deletion is answered 404 exactly when no review has the id, and
    403 exactly when the first review with the id belongs to another user
    and the requester is not an admin; in both cases the store is left
    exactly as it was.  Otherwise that review is taken out of the
    collection and no other review is touched. *)
Theorem delete_authorization
    (db : Store) (user : ReqUser) (id : ObjectId) :
  let found := find (fun r => N.eqb (Review._id r) id) (reviews db) in
  let out := delete_reviews user id db in
  (snd out = 404 <-> found = None) /\
  (snd out = 403 <->
   exists review,
     found = Some review /\ Review.user review <> req_id user /\
     req_role user <> role_admin) /\
  (snd out = 404 \/ snd out = 403 -> fst out = db) /\
  (snd out <> 404 -> snd out <> 403 ->
   reviews (fst out) = remove_by_id id (reviews db)).
Proof.
  cbv zeta. rewrite delete_reviews_exec.
  destruct (find _ (reviews db)) as [review |] eqn:F.
  - assert (Hf : forbidden review user = true <->
                 Review.user review <> req_id user /\
                 req_role user <> role_admin).
    { unfold forbidden. rewrite andb_true_iff, !negb_true_iff.
      rewrite N.eqb_neq. destruct (req_role user); cbn; intuition congruence. }
    destruct (forbidden review user) eqn:Hperm.
    + cbn. split; [split; discriminate |]. split; [| split].
      * split; [intros _; exists review; split; [reflexivity | now apply Hf]
               | reflexivity].
      * reflexivity.
      * congruence.
    + pose proof (Review_findByIdAndDelete_reviews id db) as Hrv.
      assert (Hnf : ~ (exists rv,
                          Some review = Some rv /\
                          Review.user rv <> req_id user /\
                          req_role user <> role_admin)).
      { intros (rv & E & H). injection E as <-. apply Hf in H. congruence. }
      destruct (Review_findByIdAndDelete id db) as [db' [e | doc]];
        cbn [fst snd] in *;
        (split; [split; discriminate |]);
        (split; [split; [discriminate | intros H; now destruct Hnf] |]);
        (split; [intros [H | H]; discriminate | intros _ _; exact Hrv]).
  - cbn. split; [split; reflexivity |]. split; [| split].
    + split; [discriminate | intros (rv & E & _); discriminate].
    + reflexivity.
    + congruence.
Qed.

(** ** Every save of a review runs the post-save hook *)

Lemma find_by_id_has_id (id : ObjectId) (rs : list Review.t) (r : Review.t) :
  find (fun r => N.eqb (Review._id r) id) rs = Some r ->
  Review._id r = id /\ has_id id rs = true.
Proof.
  intros H. apply find_some in H. destruct H as [Hin Heq].
  split; [now apply N.eqb_eq |].
  unfold has_id. apply existsb_exists. now exists r.
Qed.

Lemma replace_by_id_length (this : Review.t) (rs : list Review.t) :
  length (replace_by_id this rs) = length rs.
Proof.
  induction rs as [| r rs IH]; [reflexivity |]. cbn.
  destruct (N.eqb _ _); cbn; congruence.
Qed.

Lemma find_replace_by_id (this : Review.t) (rs : list Review.t) :
  has_id (Review._id this) rs = true ->
  find (fun r => N.eqb (Review._id r) (Review._id this)) (replace_by_id this rs)
  = Some this.
Proof.
  unfold has_id. induction rs as [| r rs IH]; cbn; [discriminate |].
  destruct (N.eqb (Review._id r) (Review._id this)) eqn:E; cbn.
  - intros _. now rewrite N.eqb_refl.
  - intros H. rewrite E. now apply IH.
Qed.

Lemma replace_by_id_twice (this that : Review.t) (rs : list Review.t) :
  Review._id that = Review._id this ->
  replace_by_id this (replace_by_id that rs) = replace_by_id this rs.
Proof.
  intros Hid. induction rs as [| r rs IH]; [reflexivity |]. cbn.
  rewrite Hid. destruct (N.eqb (Review._id r) (Review._id this)) eqn:E; cbn.
  - now rewrite Hid, N.eqb_refl.
  - now rewrite E, IH.
Qed.

Lemma replace_by_id_found (this : Review.t) (rs : list Review.t) :
  find (fun r => N.eqb (Review._id r) (Review._id this)) rs = Some this ->
  replace_by_id this rs = rs.
Proof.
  induction rs as [| r rs IH]; [reflexivity |]. cbn.
  destruct (N.eqb (Review._id r) (Review._id this)) eqn:E.
  - intros H. now injection H as ->.
  - intros H. now rewrite IH.
Qed.

Lemma postSave_succeeds (this : Review.t) (db : Store) :
  (forall id g, games db !! id = Some g -> rating_ok g) ->
  rating_in_range (Review.rating this) ->
  postSave this db =
  if Review.Status_eqb (Review.status this) Review.active then
    match games db !! Review.game this with
    | Some game =>
        (mkStore (<[Review.game this :=
                      updateRating_result game (Review.rating this)]>
                    (games db)) (reviews db), inr tt)
    | None => (db, inr tt)
    end
  else (db, inr tt).
Proof.
  intros Hok Hr. rewrite postSave_exec.
  destruct (Review.Status_eqb _ _); [| reflexivity].
  destruct (games db !! Review.game this) as [game |] eqn:G; [| reflexivity].
  rewrite updateRating_succeeds; [reflexivity | assumption | |];
    apply (rating_ok_game_ok game (Hok _ _ G)).
Qed.

Lemma Review_save_succeeds (this : Review.t) (db : Store) :
  (forall id g, games db !! id = Some g -> rating_ok g) ->
  rating_in_range (Review.rating this) ->
  has_id (Review._id this) (reviews db) = true ->
  Review_save this db =
  (mkStore
     (if Review.Status_eqb (Review.status this) Review.active then
        match games db !! Review.game this with
        | Some game =>
            <[Review.game this :=
                updateRating_result game (Review.rating this)]> (games db)
        | None => games db
        end
      else games db)
     (replace_by_id this (reviews db)),
   inr this).
Proof.
  intros Hok Hr Hid. rewrite Review_save_exec, Hid.
  rewrite postSave_succeeds by assumption. cbn [games reviews].
  destruct (Review.Status_eqb _ _); [| reflexivity].
  now destruct (games db !! Review.game this).
Qed.

Lemma post_reviews_helpful_exec (user : ReqUser) (id : ObjectId)
    (db : Store) :
  post_reviews_helpful user id db =
  match find (fun r => N.eqb (Review._id r) id) (reviews db) with
  | None => (db, 404)
  | Some review =>
      try_catch
        (Review_save
           (if Review.includes (Review.helpful_users (Review.helpful review))
                               (req_id user)
            then unmarked review (req_id user)
            else marked review (req_id user)) ;;; pure 200) db
  end.
Proof.
  unfold post_reviews_helpful, try_catch at 1. unfold mbind at 1.
  unfold Review_findById. cbn beta iota.
  destruct (find _ (reviews db)) as [review |]; [| reflexivity].
  cbv zeta. unfold try_catch.
  assert (E : (if Review.includes
                    (Review.helpful_users (Review.helpful review)) (req_id user)
               then unmarkHelpful review (req_id user)
               else markHelpful review (req_id user))
              = Review_save
                  (if Review.includes
                        (Review.helpful_users (Review.helpful review))
                        (req_id user)
                   then unmarked review (req_id user)
                   else marked review (req_id user))).
  { destruct (Review.includes _ _) eqn:I.
    - unfold unmarkHelpful. cbv zeta.
      apply includes_In, indexOf_in, Z.ltb_lt in I. now rewrite I.
    - unfold markHelpful. now rewrite I. }
  now rewrite E.
Qed.

(** X7: in a store the review routes can lead to, a helpful vote (in
    either direction) on an active review of an existing game is answered
    200 and, because the review is saved, runs updateRating with the
    review's rating once more: the game's rating.count grows by 1 and the
    bucket of that rating by 1, although the number of reviews is
    unchanged. *)
Theorem helpful_vote_recounts_rating
    (db : Store) (user : ReqUser) (id : ObjectId) (review : Review.t)
    (g : Game.t) :
  reachable db ->
  find (fun r => N.eqb (Review._id r) id) (reviews db) = Some review ->
  Review.status review = Review.active ->
  games db !! Review.game review = Some g ->
  exists db' g',
    post_reviews_helpful user id db = (db', 200) /\
    length (reviews db') = length (reviews db) /\
    games db' !! Review.game review = Some g' /\
    Game.count (Game.rating g') = Game.count (Game.rating g) + 1 /\
    Game.get (Game.distribution (Game.rating g')) (Review.rating review)
    = Game.get (Game.distribution (Game.rating g)) (Review.rating review) + 1.
Proof.
  intros Hreach F Hact G. apply reachable_Inv in Hreach.
  destruct Hreach as [Hok Hrs].
  pose proof (find_Forall review_ok _ _ _ Hrs F) as Hr.
  destruct (find_by_id_has_id _ _ _ F) as [Hid Hhas].
  set (this := if Review.includes
                    (Review.helpful_users (Review.helpful review)) (req_id user)
               then unmarked review (req_id user)
               else marked review (req_id user)).
  assert (Hsame : Review._id this = id /\ Review.game this = Review.game review
                  /\ Review.rating this = Review.rating review
                  /\ Review.status this = Review.status review).
  { unfold this. destruct (Review.includes _ _); cbn; auto. }
  destruct Hsame as (S1 & S2 & S3 & S4).
  exists (mkStore (<[Review.game review :=
                       updateRating_result g (Review.rating review)]>
                     (games db))
            (replace_by_id this (reviews db))),
    (updateRating_result g (Review.rating review)).
  split; [| split; [| split; [| split]]].
  - rewrite post_reviews_helpful_exec, F. fold this. unfold try_catch, mbind.
    rewrite Review_save_succeeds; try assumption.
    + rewrite S4, Hact, S2, G, S3. reflexivity.
    + now rewrite S3.
    + now rewrite S1.
  - cbn [reviews]. apply replace_by_id_length.
  - cbn [games]. apply lookup_insert_eq.
  - reflexivity.
  - cbn. now apply get_set.
Qed.

(** ** A helpful vote given and taken back *)

Lemma indexOf_snoc (l : list ObjectId) (x : ObjectId) :
  ~ In x l -> Review.indexOf (l ++ [x]) x = Z.of_nat (length l).
Proof.
  induction l as [| y l IH]; intros H; cbn [app Review.indexOf length].
  - now rewrite N.eqb_refl.
  - destruct (N.eqb y x) eqn:E.
    + apply N.eqb_eq in E. exfalso. apply H. now left.
    + rewrite IH by (intros Hin; apply H; now right).
      destruct (Z.of_nat (length l) <? 0) eqn:L; [apply Z.ltb_lt in L |]; lia.
Qed.

Lemma splice1_snoc {A : Type} (l : list A) (x : A) :
  Review.splice1 (l ++ [x]) (Z.of_nat (length l)) = l.
Proof.
  unfold Review.splice1. rewrite Nat2Z.id.
  rewrite firstn_app, Nat.sub_diag, firstn_all. cbn [firstn].
  rewrite app_nil_r.
  rewrite skipn_all2 by (rewrite length_app; cbn; lia).
  apply app_nil_r.
Qed.

Lemma unmarked_marked (this : Review.t) (userId : ObjectId) :
  ~ In userId (Review.helpful_users (Review.helpful this)) ->
  helpful_counted this ->
  unmarked (marked this userId) userId = this.
Proof.
  intros Hnot Hc. unfold unmarked, marked, helpful_counted in *.
  destruct this as [i gm u r [c users] rps st]. cbn in *.
  rewrite indexOf_snoc, splice1_snoc by assumption.
  unfold Review.with_helpful. cbn. now rewrite Hc.
Qed.

(** X8: in a store the review routes can lead to, two helpful requests in
    a row on a review whose helpful.count is the number of its listed
    users, by a user who was not listed, are both answered 200 and leave
    the collection of reviews exactly as it was: the vote is given, then
    taken back. *)
Theorem helpful_toggle_twice
    (db : Store) (user : ReqUser) (id : ObjectId) (review : Review.t) :
  reachable db ->
  find (fun r => N.eqb (Review._id r) id) (reviews db) = Some review ->
  Review.helpful_count (Review.helpful review)
  = Z.of_nat (length (Review.helpful_users (Review.helpful review))) ->
  ~ In (req_id user) (Review.helpful_users (Review.helpful review)) ->
  snd (serve [PostHelpful user id; PostHelpful user id] db) = [200; 200] /\
  reviews (fst (serve [PostHelpful user id; PostHelpful user id] db))
  = reviews db.
Proof.
  intros Hreach F Hc Hnot. apply reachable_Inv in Hreach.
  pose proof (handle_Inv (PostHelpful user id) db Hreach) as HI1.
  destruct Hreach as [Hok Hrs].
  pose proof (find_Forall review_ok _ _ _ Hrs F) as Hr.
  destruct (find_by_id_has_id _ _ _ F) as [Hid Hhas].
  assert (I0 : Review.includes
                 (Review.helpful_users (Review.helpful review)) (req_id user)
               = false).
  { destruct (Review.includes _ _) eqn:I; [| reflexivity].
    apply includes_In in I. contradiction. }
  set (m := marked review (req_id user)).
  assert (Hm : Review._id m = id) by exact Hid.
  cbn [serve handle] in *.
  rewrite post_reviews_helpful_exec, F, I0 in HI1 |- *. fold m in HI1 |- *.
  unfold try_catch, mbind in HI1 |- *.
  rewrite Review_save_succeeds in HI1 |- *;
    [| assumption | exact Hr | now rewrite Hm
     | assumption | exact Hr | now rewrite Hm].
  unfold pure in HI1 |- *. cbn [fst] in HI1.
  set (db1 := mkStore _ _) in *.
  assert (F1 : find (fun r => N.eqb (Review._id r) id) (reviews db1)
               = Some m).
  { pose proof (find_replace_by_id m (reviews db)) as X.
    rewrite Hm in X. apply X, Hhas. }
  assert (I1 : Review.includes (Review.helpful_users (Review.helpful m))
                 (req_id user) = true).
  { apply includes_In. unfold m, marked. cbn. apply in_or_app. right.
    now left. }
  rewrite post_reviews_helpful_exec, F1, I1.
  assert (Hum : unmarked m (req_id user) = review)
    by (apply unmarked_marked; assumption).
  rewrite Hum.
  destruct HI1 as [Hok1 _].
  destruct (find_by_id_has_id _ _ _ F1) as [_ Hhas1].
  unfold try_catch, mbind.
  rewrite Review_save_succeeds;
    [| assumption | exact Hr | now rewrite Hid].
  unfold pure. cbn [fst snd reviews].
  split; [reflexivity |].
  unfold db1. cbn [reviews].
  rewrite replace_by_id_twice by (now rewrite Hm, Hid).
  apply replace_by_id_found. now rewrite Hid.
Qed.

(** ** The level of a review *)

Lemma Qle_bool_inject_Z (p : Z) (q : positive) (r : Z) :
  Qle_bool (p # q) (inject_Z r) = (p <=? r * Z.pos q).
Proof. unfold Qle_bool. cbn. now rewrite Z.mul_1_r. Qed.

(** X9: the rating of a review is an integer, so its ratingLevel is never
    good: it is excellent exactly for a rating of 5 or more, very-good for
    4, fair for 3, and poor for 2 or less. *)
Theorem review_level_skips_good (this : Review.t) :
  Review_ratingLevel this <> Game.good /\
  (Review_ratingLevel this = Game.excellent <-> 5 <= Review.rating this) /\
  (Review_ratingLevel this = Game.very_good <-> Review.rating this = 4) /\
  (Review_ratingLevel this = Game.fair <-> Review.rating this = 3) /\
  (Review_ratingLevel this = Game.poor <-> Review.rating this <= 2).
Proof.
  unfold Review_ratingLevel.
  change 4%Q with (4 # 1). change 3%Q with (3 # 1).
  rewrite !Qle_bool_inject_Z.
  destruct (Z.leb_spec 45 (Review.rating this * 10));
    [| destruct (Z.leb_spec 4 (Review.rating this * 1));
       [| destruct (Z.leb_spec 35 (Review.rating this * 10));
          [| destruct (Z.leb_spec 3 (Review.rating this * 1))]]];
    repeat split; intros; try discriminate; try reflexivity; lia.
Qed.

(** ** The level and the achievements of a user *)

Lemma level_points (this : User.t) :
  (0 <= User.totalPlayTime (User.stats this))%Q ->
  0 <= User.gamesPlayed (User.stats this) ->
  0 <= User.reviewsPosted (User.stats this) ->
  (0 <= (inject_Z (User.gamesPlayed (User.stats this)) * 10
         + User.totalPlayTime (User.stats this) * (1 # 10)
         + inject_Z (User.reviewsPosted (User.stats this)) * 5) / 100)%Q.
Proof.
  intros Ht Hg Hr.
  rewrite Zle_Qle in Hg, Hr. change (inject_Z 0) with 0%Q in Hg, Hr.
  apply Qle_shift_div_l; [reflexivity |]. lra.
Qed.

(** X10: a user with non-negative statistics has level 1 or more; posting
    a review or playing a game never lowers the level; and as long as no
    play time is recorded the level is 1 plus the integer part of
    (10 * gamesPlayed + 5 * reviewsPosted) / 100. *)
Theorem level_from_points (this : User.t) :
  0 <= User.gamesPlayed (User.stats this) ->
  0 <= User.reviewsPosted (User.stats this) ->
  (0 <= User.totalPlayTime (User.stats this))%Q ->
  1 <= User.level this /\
  User.level this <= User.level (User.incrementReviewStats this) /\
  (forall playTime : Q,
      (0 <= playTime)%Q ->
      User.level this <= User.level (User.incrementGameStats this playTime)) /\
  ((User.totalPlayTime (User.stats this) == 0)%Q ->
   User.level this
   = (10 * User.gamesPlayed (User.stats this)
      + 5 * User.reviewsPosted (User.stats this)) / 100 + 1).
Proof.
  intros Hg Hr Ht. split; [| split; [| split]].
  - unfold User.level. cbv zeta.
    pose proof (Qfloor_resp_le _ _ (level_points this Ht Hg Hr)) as H.
    change (Qfloor 0) with 0 in H. lia.
  - unfold User.level, User.incrementReviewStats. cbv zeta.
    cbn [User.stats User.with_stats User.gamesPlayed User.totalPlayTime
         User.reviewsPosted].
    apply Z.add_le_mono_r, Qfloor_resp_le.
    apply Qmult_le_compat_r; [| discriminate].
    rewrite inject_Z_plus. change (inject_Z 1) with 1%Q. lra.
  - intros playTime Hp. unfold User.level, User.incrementGameStats.
    cbv zeta.
    cbn [User.stats User.with_stats User.gamesPlayed User.totalPlayTime
         User.reviewsPosted].
    apply Z.add_le_mono_r, Qfloor_resp_le.
    apply Qmult_le_compat_r; [| discriminate].
    rewrite inject_Z_plus. change (inject_Z 1) with 1%Q. lra.
  - intros H0. unfold User.level. cbv zeta. f_equal.
    assert (E : ((inject_Z (User.gamesPlayed (User.stats this)) * 10
                  + User.totalPlayTime (User.stats this) * (1 # 10)
                  + inject_Z (User.reviewsPosted (User.stats this)) * 5) / 100
                 == (10 * User.gamesPlayed (User.stats this)
                     + 5 * User.reviewsPosted (User.stats this)) # 100)%Q).
    { rewrite H0. rewrite (Qmake_Qdiv _ 100).
      rewrite inject_Z_plus, !inject_Z_mult.
      change (inject_Z (Z.pos 100)) with 100%Q.
      change (inject_Z 10) with 10%Q. change (inject_Z 5) with 5%Q. field. }
    rewrite (Qfloor_comp _ _ E). reflexivity.
Qed.

Lemma level_from_points_witness :
  1 <= User.level (User.mkUser 10%N [] (User.mkStats 7 0 12 [])) /\
  User.level (User.mkUser 10%N [] (User.mkStats 7 0 12 []))
  = (10 * 7 + 5 * 12) / 100 + 1.
Proof.
  destruct (level_from_points (User.mkUser 10%N [] (User.mkStats 7 0 12 [])))
    as (H1 & _ & _ & H4); cbn; try lia; try discriminate.
  split; [exact H1 | apply H4; reflexivity].
Defined.

Lemma existsb_eqb_In (a : String.string) (l : list String.string) :
  existsb (String.eqb a) l = true <-> In a l.
Proof.
  rewrite existsb_exists. split.
  - intros (x & Hx & E). apply String.eqb_eq in E. now subst.
  - intros H. exists a. split; [assumption | apply String.eqb_refl].
Qed.

(** X11: addAchievement keeps the earlier achievements in their order and
    lists the new one; adding an achievement the user already has changes
    nothing, so adding twice is adding once, and a list without duplicates
    stays without duplicates. *)
Theorem achievement_added_once (this : User.t) (achievement : String.string) :
  let added := User.addAchievement this achievement in
  In achievement (User.achievements (User.stats added)) /\
  (In achievement (User.achievements (User.stats this)) -> added = this) /\
  (~ In achievement (User.achievements (User.stats this)) ->
   User.achievements (User.stats added)
   = User.achievements (User.stats this) ++ [achievement]) /\
  User.addAchievement added achievement = added /\
  (List.NoDup (User.achievements (User.stats this)) ->
   List.NoDup (User.achievements (User.stats added))) /\
  User.gamesPlayed (User.stats added) = User.gamesPlayed (User.stats this) /\
  User.reviewsPosted (User.stats added) = User.reviewsPosted (User.stats this).
Proof.
  cbv zeta. unfold User.addAchievement.
  destruct (existsb _ (User.achievements (User.stats this))) eqn:E; cbn [negb].
  - pose proof (proj1 (existsb_eqb_In _ _) E) as Hin.
    rewrite E. cbn [negb]. repeat split; auto. contradiction.
  - assert (Hnot : ~ In achievement (User.achievements (User.stats this)))
      by (intros H; apply existsb_eqb_In in H; congruence).
    cbn [User.stats User.with_stats User.achievements User.gamesPlayed
         User.reviewsPosted].
    assert (Hin : In achievement
                    (User.achievements (User.stats this) ++ [achievement]))
      by (apply in_or_app; right; now left).
    rewrite (proj2 (existsb_eqb_In _ _) Hin). cbn [negb].
    repeat split; auto; try contradiction.
    intros Hnd. now apply NoDup_snoc.
Qed.

(** ** Views and favourites of a game *)

Lemma game_eta (g : Game.t) :
  Game.mkGame (Game.category g) (Game.rating g)
    (Game.mkStats (Game.playCount (Game.stats g))
       (Game.totalPlayTime (Game.stats g))
       (Game.averagePlayTime (Game.stats g))
       (Game.favoriteCount (Game.stats g)))
    (Game.status g) = g.
Proof. now destruct g as [c r [] s]. Qed.

(** X12: a view of an existing game by a logged-in user is answered 200,
    adds 1 to the game's playCount and to the user's gamesPlayed, and keeps
    averagePlayTime * playCount equal to totalPlayTime; no play time is
    ever recorded (totalPlayTime keeps its value, so a game that starts at
    0 keeps average play time 0), and the rating, the favourite count, the
    category and the status are untouched.  A view without a user changes
    nothing. *)
Theorem view_counts_one_play
    (db : Store) (user : User.t) (id : ObjectId) (game : Game.t) :
  games db !! id = Some game ->
  0 <= Game.playCount (Game.stats game) ->
  get_games_id None id db = (db, None, 200) /\
  exists game',
    get_games_id (Some user) id db
    = (mkStore (<[id := game']> (games db)) (reviews db),
       Some (User.incrementGameStats user 0), 200) /\
    Game.playCount (Game.stats game') = Game.playCount (Game.stats game) + 1 /\
    (Game.totalPlayTime (Game.stats game')
     == Game.totalPlayTime (Game.stats game))%Q /\
    (Game.averagePlayTime (Game.stats game')
     * inject_Z (Game.playCount (Game.stats game'))
     == Game.totalPlayTime (Game.stats game'))%Q /\
    ((Game.totalPlayTime (Game.stats game) == 0)%Q ->
     (Game.averagePlayTime (Game.stats game') == 0)%Q) /\
    Game.favoriteCount (Game.stats game')
    = Game.favoriteCount (Game.stats game) /\
    Game.rating game' = Game.rating game /\
    Game.category game' = Game.category game /\
    Game.status game' = Game.status game /\
    User.gamesPlayed (User.stats (User.incrementGameStats user 0))
    = User.gamesPlayed (User.stats user) + 1.
Proof.
  intros G Hp. unfold get_games_id. rewrite G. split; [reflexivity |].
  unfold mbind, lift, Game.updateStats, Game_write. cbv zeta.
  rewrite js_div_inject_Z by lia. cbn [bind ret]. rewrite G.
  eexists. split; [reflexivity |].
  cbn [updateStats_paths Game.with_stats Game.stats Game.playCount
       Game.totalPlayTime Game.averagePlayTime Game.favoriteCount
       Game.rating Game.category Game.status].
  assert (Hne : ~ (inject_Z (Game.playCount (Game.stats game) + 1) == 0)%Q).
  { intros E. unfold Qeq in E. cbn in E. lia. }
  repeat split.
  - ring.
  - field. exact Hne.
  - intros H0. rewrite H0. field. exact Hne.
Qed.

Lemma view_counts_one_play_witness :
  exists game',
    get_games_id (Some (User.mkUser 10%N [] (User.mkStats 0 0 0 []))) 1%N
      example_store
    = (mkStore (<[1%N := game']> (games example_store))
         (reviews example_store),
       Some (User.incrementGameStats
               (User.mkUser 10%N [] (User.mkStats 0 0 0 [])) 0), 200) /\
    Game.playCount (Game.stats game') = 0 + 1.
Proof.
  destruct (view_counts_one_play example_store
              (User.mkUser 10%N [] (User.mkStats 0 0 0 [])) 1%N example_game)
    as (_ & game' & H & Hp & _).
  - vm_compute. reflexivity.
  - cbn. lia.
  - exists game'. split; [exact H | exact Hp].
Defined.

Lemma favorite_paths_increment (game : Game.t) :
  favorite_paths (Game.incrementFavorites game) game
  = Game.incrementFavorites game.
Proof. reflexivity. Qed.

Lemma favorite_paths_decrement (game : Game.t) :
  favorite_paths (Game.decrementFavorites game) game
  = Game.decrementFavorites game.
Proof.
  unfold Game.decrementFavorites. destruct (0 <? _); [reflexivity |].
  unfold favorite_paths, Game.with_stats. apply game_eta.
Qed.

Lemma post_games_favorite_exec (user : User.t) (id : ObjectId) (db : Store)
    (game : Game.t) :
  games db !! id = Some game ->
  post_games_favorite user id db =
  if Review.includes (User.favoriteCategories user) (Game.category game) then
    (mkStore (<[id := Game.decrementFavorites game]> (games db)) (reviews db),
     User.with_favoriteCategories user
       (List.filter (fun catId => negb (N.eqb catId (Game.category game)))
          (User.favoriteCategories user)),
     200,
     Some (mkFavoriteAnswer false
             (Game.favoriteCount (Game.stats (Game.decrementFavorites game)))))
  else
    (mkStore (<[id := Game.incrementFavorites game]> (games db)) (reviews db),
     User.with_favoriteCategories user
       (User.favoriteCategories user ++ [Game.category game]),
     200,
     Some (mkFavoriteAnswer true
             (Game.favoriteCount (Game.stats (Game.incrementFavorites game))))).
Proof.
  intros G. unfold post_games_favorite. rewrite G. cbv zeta.
  unfold Game_write. rewrite G.
  destruct (Review.includes _ _); cbn [negb];
    [now rewrite favorite_paths_decrement
    | now rewrite favorite_paths_increment].
Qed.

Lemma filter_out_snoc (l : list ObjectId) (c : ObjectId) :
  ~ In c l ->
  List.filter (fun catId => negb (N.eqb catId c)) (l ++ [c]) = l.
Proof.
  intros H. rewrite List.filter_app. cbn. rewrite N.eqb_refl. cbn.
  rewrite app_nil_r. induction l as [| x l IH]; [reflexivity |]. cbn.
  destruct (N.eqb x c) eqn:E.
  - apply N.eqb_eq in E. exfalso. apply H. now left.
  - cbn. f_equal. apply IH. intros Hin. apply H. now right.
Qed.

Lemma filter_out_notin (l : list ObjectId) (c : ObjectId) :
  ~ In c (List.filter (fun catId => negb (N.eqb catId c)) l).
Proof.
  intros H. apply filter_In in H. destruct H as [_ H].
  now rewrite N.eqb_refl in H.
Qed.

Lemma decrement_increment (game : Game.t) :
  0 <= Game.favoriteCount (Game.stats game) ->
  Game.decrementFavorites (Game.incrementFavorites game) = game.
Proof.
  intros H. unfold Game.decrementFavorites, Game.incrementFavorites.
  cbn [Game.stats Game.with_stats Game.favoriteCount Game.playCount
       Game.totalPlayTime Game.averagePlayTime Game.category Game.rating
       Game.status].
  destruct (0 <? _) eqn:E; [| apply Z.ltb_ge in E; lia].
  unfold Game.with_stats. cbn.
  replace (Game.favoriteCount (Game.stats game) + 1 - 1)
    with (Game.favoriteCount (Game.stats game)) by lia.
  apply game_eta.
Qed.

(** X13: when the category of an existing game is not among the user's
    favourite categories and the game's favoriteCount is not negative, two
    favourite requests in a row are both answered 200, the first with
    isFavorited true and favoriteCount + 1, the second with isFavorited
    false and the old favoriteCount, and they leave the games and the user
    document exactly as they were. *)
Theorem favorite_toggle_twice
    (db : Store) (user : User.t) (id : ObjectId) (game : Game.t) :
  games db !! id = Some game ->
  ~ In (Game.category game) (User.favoriteCategories user) ->
  0 <= Game.favoriteCount (Game.stats game) ->
  exists db1 user1,
    post_games_favorite user id db
    = (db1, user1, 200,
       Some (mkFavoriteAnswer true
               (Game.favoriteCount (Game.stats game) + 1))) /\
    post_games_favorite user1 id db1
    = (db, user, 200,
       Some (mkFavoriteAnswer false (Game.favoriteCount (Game.stats game)))).
Proof.
  intros G Hnot Hc.
  assert (I0 : Review.includes (User.favoriteCategories user)
                 (Game.category game) = false).
  { destruct (Review.includes _ _) eqn:I; [| reflexivity].
    apply includes_In in I. contradiction. }
  eexists. eexists. split.
  - rewrite (post_games_favorite_exec user id db game G), I0. reflexivity.
  - rewrite (post_games_favorite_exec _ id _ (Game.incrementFavorites game))
      by (cbn [games]; apply lookup_insert_eq).
    cbn [User.favoriteCategories User.with_favoriteCategories games reviews
         Game.category Game.incrementFavorites Game.with_stats].
    assert (I1 : Review.includes
                   (User.favoriteCategories user ++ [Game.category game])
                   (Game.category game) = true)
      by (apply includes_In, in_or_app; right; now left).
    rewrite I1.
    fold (Game.with_stats game
            (Game.mkStats (Game.playCount (Game.stats game))
               (Game.totalPlayTime (Game.stats game))
               (Game.averagePlayTime (Game.stats game))
               (Game.favoriteCount (Game.stats game) + 1))).
    fold (Game.incrementFavorites game).
    rewrite decrement_increment by assumption.
    rewrite insert_insert_eq, insert_id by assumption.
    rewrite store_eta, filter_out_snoc by assumption.
    unfold User.with_favoriteCategories. cbn. now destruct user.
Qed.

(** X14: the favourite flag is kept per category, not per game.  When two
    different games share a category that is not among the user's
    favourites, a favourite request on the first followed by one on the
    second adds 1 to the first game's favoriteCount, answers the second
    with isFavorited false, takes 1 from the second game's favoriteCount
    unless it is 0, and leaves the category outside the user's favourites;
    the first game keeps the added favourite. *)
Theorem favorite_is_per_category
    (db : Store) (user : User.t) (a b : ObjectId) (ga gb : Game.t) :
  a <> b ->
  games db !! a = Some ga ->
  games db !! b = Some gb ->
  Game.category ga = Game.category gb ->
  ~ In (Game.category ga) (User.favoriteCategories user) ->
  exists db1 user1 db2,
    post_games_favorite user a db
    = (db1, user1, 200,
       Some (mkFavoriteAnswer true (Game.favoriteCount (Game.stats ga) + 1))) /\
    post_games_favorite user1 b db1
    = (db2, user, 200,
       Some (mkFavoriteAnswer false
               (if 0 <? Game.favoriteCount (Game.stats gb)
                then Game.favoriteCount (Game.stats gb) - 1
                else Game.favoriteCount (Game.stats gb)))) /\
    games db2 !! a = Some (Game.incrementFavorites ga) /\
    games db2 !! b = Some (Game.decrementFavorites gb).
Proof.
  intros Hab Ga Gb Hcat Hnot.
  assert (I0 : Review.includes (User.favoriteCategories user)
                 (Game.category ga) = false).
  { destruct (Review.includes _ _) eqn:I; [| reflexivity].
    apply includes_In in I. contradiction. }
  eexists. eexists. eexists. split; [| split; [| split]].
  - rewrite (post_games_favorite_exec user a db ga Ga), I0. reflexivity.
  - rewrite (post_games_favorite_exec _ b _ gb)
      by (cbn [games]; now rewrite lookup_insert_ne).
    cbn [User.favoriteCategories User.with_favoriteCategories games reviews].
    rewrite <- Hcat.
    assert (I1 : Review.includes
                   (User.favoriteCategories user ++ [Game.category ga])
                   (Game.category ga) = true)
      by (apply includes_In, in_or_app; right; now left).
    rewrite I1, filter_out_snoc by assumption.
    assert (Eu : User.with_favoriteCategories
                   (User.with_favoriteCategories user
                      (User.favoriteCategories user ++ [Game.category ga]))
                   (User.favoriteCategories user) = user)
      by now destruct user.
    assert (Ec : Game.favoriteCount (Game.stats (Game.decrementFavorites gb))
                 = if 0 <? Game.favoriteCount (Game.stats gb)
                   then Game.favoriteCount (Game.stats gb) - 1
                   else Game.favoriteCount (Game.stats gb))
      by (unfold Game.decrementFavorites; now destruct (0 <? _)).
    rewrite Eu, Ec. reflexivity.
  - cbn [games]. rewrite lookup_insert_ne by congruence.
    apply lookup_insert_eq.
  - cbn [games]. apply lookup_insert_eq.
Qed.

(** ** Paged lists *)

Lemma ceil_div_spec (total : nat) (limit : Z) :
  0 < limit ->
  exists n,
    ceil_div total limit = Finite n /\
    (n - 1) * limit < Z.of_nat total <= n * limit.
Proof.
  intros Hl. unfold ceil_div.
  destruct (Z.eqb_spec limit 0) as [-> | _]; [lia |].
  set (q := (inject_Z (Z.of_nat total) / inject_Z limit)%Q).
  exists (Qceiling q). split; [reflexivity |].
  assert (Hq : (q * inject_Z limit == inject_Z (Z.of_nat total))%Q)
    by (apply quotient_times; lia).
  assert (Hpos : (0 < inject_Z limit)%Q)
    by (change 0%Q with (inject_Z 0); rewrite <- Zlt_Qlt; exact Hl).
  pose proof (Qceiling_lt q) as Hlo. pose proof (Qle_ceiling q) as Hhi.
  split.
  - rewrite Zlt_Qlt, inject_Z_mult, <- Hq.
    apply Qmult_lt_compat_r; assumption.
  - rewrite Zle_Qle, inject_Z_mult, <- Hq.
    apply Qmult_le_compat_r; [assumption | now apply Qlt_le_weak].
Qed.

Lemma firstn_plus {A : Type} (a b : nat) (l : list A) :
  firstn (a + b) l = firstn a l ++ firstn b (skipn a l).
Proof.
  revert l. induction a as [| a IH]; intros l; [reflexivity |].
  destruct l as [| x l]; cbn; [now destruct b | now rewrite IH].
Qed.

Lemma pages_concat {A : Type} (L : nat) (found : list A) (k : nat) :
  flat_map (fun p => firstn L (skipn ((p - 1) * L) found)) (seq 1 k)
  = firstn (k * L) found.
Proof.
  induction k as [| k IH]; [reflexivity |].
  rewrite seq_S, flat_map_app, IH. cbn [flat_map]. rewrite app_nil_r.
  replace (1 + k - 1)%nat with k by lia.
  replace (S k * L)%nat with (k * L + L)%nat by lia.
  symmetry. apply firstn_plus.
Qed.

Lemma flat_map_ext_on {A B : Type} (f g : A -> list B) (l : list A) :
  (forall a, In a l -> f a = g a) -> flat_map f l = flat_map g l.
Proof.
  induction l as [| x l IH]; intros H; [reflexivity |]. cbn.
  rewrite (H x) by now left. f_equal. apply IH. intros a Ha. apply H.
  now right.
Qed.

Lemma list_page_slice {A : Type} (found : list A) (page limit : Z) :
  1 <= page -> 1 <= limit ->
  list_page found page limit
  = Some (firstn (Z.to_nat limit)
            (skipn ((Z.to_nat page - 1) * Z.to_nat limit) found),
          mkPagination page (ceil_div (length found) limit)
            (Z.of_nat (length found))
            (js_lt page (ceil_div (length found) limit)) (1 <? page)).
Proof.
  intros Hp Hl. unfold list_page, cursor. cbv zeta.
  destruct (Z.ltb_spec ((page - 1) * limit) 0) as [H | _]; [nia |].
  destruct (Z.eqb_spec limit 0) as [-> | _]; [lia |].
  rewrite Z.abs_eq by lia.
  replace (Z.to_nat ((page - 1) * limit))
    with ((Z.to_nat page - 1) * Z.to_nat limit)%nat by nia.
  reflexivity.
Qed.

(** X15: for a page number and a limit of at least 1, the paging block
    answers with the documents number (page-1)*limit+1 to page*limit of
    the sorted query result, at most limit of them and none exactly when
    the result has no more than (page-1)*limit documents; totalPages is
    the least n with total <= n * limit; hasNext is true exactly when the
    result goes on after this page, and hasPrev exactly when page > 1. *)
Theorem page_is_a_slice (A : Type) (found : list A) (page limit : Z) :
  1 <= page -> 1 <= limit ->
  exists docs n,
    list_page found page limit
    = Some (docs,
            mkPagination page (Finite n) (Z.of_nat (length found))
              (page <? n) (1 <? page)) /\
    docs = firstn (Z.to_nat limit)
             (skipn (Z.to_nat ((page - 1) * limit)) found) /\
    Z.of_nat (length docs)
    = Z.max 0 (Z.min limit (Z.of_nat (length found) - (page - 1) * limit)) /\
    (n - 1) * limit < Z.of_nat (length found) <= n * limit /\
    ((page <? n) = true <-> page * limit < Z.of_nat (length found)) /\
    (docs = [] <-> n < page).
Proof.
  intros Hp Hl.
  destruct (ceil_div_spec (length found) limit) as (n & Hn & Hlo & Hhi);
    [lia |].
  exists (firstn (Z.to_nat limit)
            (skipn (Z.to_nat ((page - 1) * limit)) found)), n.
  assert (Hlen : Z.of_nat
                   (length (firstn (Z.to_nat limit)
                              (skipn (Z.to_nat ((page - 1) * limit)) found)))
                 = Z.max 0 (Z.min limit
                              (Z.of_nat (length found) - (page - 1) * limit))).
  { rewrite length_firstn, length_skipn. nia. }
  split; [| split; [reflexivity | split; [exact Hlen | split; [lia | split]]]].
  - rewrite list_page_slice, Hn by assumption. cbn [js_lt].
    replace (Z.to_nat ((page - 1) * limit))
      with ((Z.to_nat page - 1) * Z.to_nat limit)%nat by nia.
    reflexivity.
  - rewrite Z.ltb_lt. split; intros H; nia.
  - split; intros H.
    + rewrite H in Hlen. cbn [length] in Hlen. nia.
    + apply length_zero_iff_nil. nia.
Qed.

Lemma page_is_a_slice_witness :
  exists docs n,
    list_page [10; 20; 30; 40; 50] 2 2
    = Some (docs, mkPagination 2 (Finite n) 5 (2 <? n) (1 <? 2)) /\
    docs = [30; 40] /\ n = 3.
Proof.
  destruct (page_is_a_slice Z [10; 20; 30; 40; 50] 2 2)
    as (docs & n & H & Hd & _ & Hn & _); [lia | lia |].
  exists docs, n. split; [exact H |]. split; [exact Hd |].
  cbn in Hn. lia.
Defined.

(** X16: for a limit of at least 1, the pages 1 to totalPages, one after
    the other, are the sorted query result: no document is left out and
    none is listed twice. *)
Theorem pages_cover_the_result (A : Type) (found : list A) (limit : Z) :
  1 <= limit ->
  exists n,
    ceil_div (length found) limit = Finite n /\
    flat_map
      (fun p =>
         match list_page found (Z.of_nat p) limit with
         | Some (docs, _) => docs
         | None => []
         end)
      (seq 1 (Z.to_nat n))
    = found.
Proof.
  intros Hl.
  destruct (ceil_div_spec (length found) limit) as (n & Hn & Hlo & Hhi);
    [lia |].
  exists n. split; [exact Hn |].
  rewrite (flat_map_ext_on _
             (fun p => firstn (Z.to_nat limit)
                         (skipn ((p - 1) * Z.to_nat limit) found))).
  - rewrite pages_concat. apply firstn_all2. nia.
  - intros p Hin. apply in_seq in Hin.
    rewrite list_page_slice by lia. now rewrite Nat2Z.id.
Qed.

Lemma pages_cover_the_result_witness :
  exists n,
    ceil_div (length [10; 20; 30; 40; 50]) 2 = Finite n /\
    flat_map
      (fun p =>
         match list_page [10; 20; 30; 40; 50] (Z.of_nat p) 2 with
         | Some (docs, _) => docs
         | None => []
         end)
      (seq 1 (Z.to_nat n))
    = [10; 20; 30; 40; 50].
Proof. apply (pages_cover_the_result Z [10; 20; 30; 40; 50] 2). lia. Defined.

(** X17: the edges of the paging block.  With a limit of at least 1, a
    page number of 0 or less asks the store to skip a negative number of
    documents and the request fails.  With limit 0 every page is the whole
    result, and for a non-empty result totalPages is infinite and hasNext
    is true on every page. *)
Theorem paging_edges (A : Type) (found : list A) (page limit : Z) :
  (1 <= limit -> page <= 0 -> list_page found page limit = None) /\
  (limit = 0 ->
   exists pagination,
     list_page found page limit = Some (found, pagination) /\
     (found <> [] ->
      totalPages pagination = PosInfinity /\ hasNext pagination = true) /\
     (found = [] ->
      totalPages pagination = NotANumber /\ hasNext pagination = false)).
Proof.
  split.
  - intros Hl Hp. unfold list_page, cursor. cbv zeta.
    destruct (Z.ltb_spec ((page - 1) * limit) 0) as [_ | H];
      [reflexivity | nia].
  - intros ->. unfold list_page, cursor. cbv zeta.
    rewrite Z.mul_0_r. cbn [Z.ltb Z.compare Z.eqb Z.to_nat skipn].
    eexists. split; [reflexivity |].
    cbn [totalPages hasNext]. unfold ceil_div. cbn [Z.eqb].
    destruct found; split; intros H; try congruence; now split.
Qed.

Lemma paging_edges_witness :
  list_page [10; 20; 30] 0 2 = None /\
  exists pagination,
    list_page [10; 20; 30] 7 0 = Some ([10; 20; 30], pagination) /\
    totalPages pagination = PosInfinity /\ hasNext pagination = true.
Proof.
  destruct (paging_edges Z [10; 20; 30] 0 2) as [H1 _].
  destruct (paging_edges Z [10; 20; 30] 7 0)
    as [_ (pagination & H2 & H3 & _)]; [reflexivity |].
  split; [apply H1; lia |].
  exists pagination. split; [exact H2 |]. apply H3. discriminate.
Defined.

(** ** The most played games *)


Lemma insert_by_plays_perm (x : ObjectId * Game.t)
    (l : list (ObjectId * Game.t)) :
  Permutation (x :: l) (insert_by_plays x l).
Proof.
  induction l as [| y l IH]; cbn; [reflexivity |].
  destruct (_ <? _); [reflexivity |].
  rewrite perm_swap. now apply perm_skip.
Qed.

Lemma sort_by_plays_perm (l : list (ObjectId * Game.t)) :
  Permutation l (sort_by_plays l).
Proof.
  induction l as [| x l IH]; cbn; [reflexivity |].
  rewrite <- insert_by_plays_perm. now apply perm_skip.
Qed.

Lemma insert_by_plays_sorted (x : ObjectId * Game.t)
    (l : list (ObjectId * Game.t)) :
  StronglySorted more_plays l ->
  StronglySorted more_plays (insert_by_plays x l).
Proof.
  induction l as [| y l IH]; intros H; cbn.
  - constructor; constructor.
  - inversion H as [| ? ? Hl Hy]; subst.
    destruct (Z.ltb_spec (Game.playCount (Game.stats (snd y)))
                (Game.playCount (Game.stats (snd x)))) as [Hlt | Hge].
    + constructor; [assumption |]. constructor.
      * unfold more_plays. lia.
      * eapply List.Forall_impl; [| exact Hy].
        intros z Hz. unfold more_plays in *. lia.
    + constructor; [now apply IH |].
      apply (Permutation_Forall (insert_by_plays_perm x l)).
      constructor; [exact Hge | exact Hy].
Qed.

Lemma sort_by_plays_sorted (l : list (ObjectId * Game.t)) :
  StronglySorted more_plays (sort_by_plays l).
Proof.
  induction l as [| x l IH]; cbn; [constructor |].
  now apply insert_by_plays_sorted.
Qed.

Lemma sorted_app_order (l1 l2 : list (ObjectId * Game.t)) :
  StronglySorted more_plays (l1 ++ l2) ->
  forall x y, In x l1 -> In y l2 -> more_plays x y.
Proof.
  induction l1 as [| a l1 IH]; intros H x y Hx Hy; [contradiction |].
  cbn in H. inversion H as [| ? ? Hl Ha]; subst.
  destruct Hx as [-> | Hx].
  - rewrite List.Forall_forall in Ha. apply Ha, in_or_app. now right.
  - now apply IH.
Qed.

Lemma sorted_firstn (n : nat) (l : list (ObjectId * Game.t)) :
  StronglySorted more_plays l -> StronglySorted more_plays (firstn n l).
Proof.
  revert l. induction n as [| n IH]; intros l H; [constructor |].
  destruct l as [| a l]; [constructor |].
  inversion H as [| ? ? Hl Ha]; subst. cbn. constructor; [now apply IH |].
  rewrite List.Forall_forall in *. intros z Hz. apply Ha.
  rewrite <- (firstn_skipn n l). apply in_or_app. now left.
Qed.

(** X18: getPopularGames answers with active games of the store, each
    with its stored document, in order of decreasing playCount, at most
    |limit| of them unless limit is 0; an active game that is left out has
    no more plays than any game that is listed, and with limit 0 every
    active game is listed. *)
Theorem popular_games_are_the_most_played (limit : Z) (db : Store) :
  let listed := getPopularGames limit db in
  (forall id g, In (id, g) listed ->
     games db !! id = Some g /\ Game.status g = Game.active) /\
  (limit <> 0 -> Z.of_nat (length listed) <= Z.abs limit) /\
  StronglySorted more_plays listed /\
  (forall id g,
     games db !! id = Some g -> Game.status g = Game.active ->
     ~ In (id, g) listed ->
     limit <> 0 /\ forall x, In x listed -> more_plays x (id, g)).
Proof.
  cbv zeta. unfold getPopularGames. cbv zeta.
  set (active := List.filter _ (map_to_list (games db))).
  set (found := sort_by_plays active).
  assert (Hperm : Permutation active found) by apply sort_by_plays_perm.
  assert (Hsorted : StronglySorted more_plays found)
    by apply sort_by_plays_sorted.
  assert (Hin : forall id g,
             In (id, g) found <->
             games db !! id = Some g /\ Game.status g = Game.active).
  { intros id g. rewrite <- (Permutation_in' eq_refl Hperm).
    unfold active. rewrite filter_In, <- list_elem_of_In.
    rewrite elem_of_map_to_list. cbn [snd].
    destruct (Game.status g); cbn; intuition congruence. }
  set (listed := if limit =? 0 then found
                 else firstn (Z.to_nat (Z.abs limit)) found).
  assert (Hsplit : exists rest, found = listed ++ rest /\
                                (limit = 0 -> rest = [])).
  { unfold listed. destruct (Z.eqb_spec limit 0) as [-> | Hne].
    - exists []. split; [now rewrite app_nil_r | reflexivity].
    - exists (skipn (Z.to_nat (Z.abs limit)) found).
      split; [now rewrite firstn_skipn | contradiction]. }
  destruct Hsplit as (rest & Hfound & Hrest).
  split; [| split; [| split]].
  - intros id g H. apply Hin. rewrite Hfound. apply in_or_app. now left.
  - intros Hne. unfold listed. destruct (Z.eqb_spec limit 0); [contradiction |].
    rewrite length_firstn. lia.
  - unfold listed. destruct (limit =? 0); [assumption |].
    now apply sorted_firstn.
  - intros id g G Hact Hnot.
    assert (Hf : In (id, g) found) by (apply Hin; now split).
    rewrite Hfound in Hf. apply in_app_or in Hf.
    destruct Hf as [Hf | Hf]; [contradiction |].
    split.
    + intros H0. rewrite (Hrest H0) in Hf. contradiction.
    + intros x Hx. rewrite Hfound in Hsorted.
      now apply (sorted_app_order listed rest Hsorted).
Qed.

(** ** The rounding of the category rollup *)






(** The rounding at work: two active games with averages 1.1 and 4.6
    have the mean 2.85, which rounds to 2.9; as doubles their sum is
    5.699999999999999, ten times the mean is 28.499999999999996, and
    updateStats stores 2.8. *)
Example rollup_of_doubles :
  exists this',
    Category.updateStats example_shelf (Category.mkCategory 9%N
                                          (Category.mkStats 0 0 0))
    = inr this' /\
    Category.averageRating (Category.stats this') = fl (28 # 10) /\
    Math_round (((11 # 10) + (46 # 10)) / 2 * 10) = 29.
Proof.
  eexists. split; [vm_compute; reflexivity |].
  split; [vm_compute; reflexivity | reflexivity].
Qed.

(** ** The review statistics of a user *)

Lemma fold_helpful_shift (rs : list Review.t) :
  forall a,
    fold_left (fun s r => s + Review.helpful_count (Review.helpful r)) rs a
    = a + countsHeld rs.
Proof.
  induction rs as [| r rs IH]; intros a; [cbn; lia |].
  cbn [fold_left]. rewrite IH. unfold countsHeld. cbn [fold_right]. lia.
Qed.

Lemma countsHeld_votesHeld (rs : list Review.t) :
  (forall r, In r rs ->
     Review.helpful_count (Review.helpful r)
     = Z.of_nat (length (Review.helpful_users (Review.helpful r)))) ->
  countsHeld rs = votesHeld rs.
Proof.
  induction rs as [| r rs IH]; intros H; [reflexivity |].
  unfold countsHeld, votesHeld in *. cbn [fold_right].
  rewrite IH by (intros r' Hr'; apply H; now right).
  rewrite (H r) by now left. reflexivity.
Qed.

(** X20: in a store the review routes can lead to, the review statistics
    of a user count the user's active reviews; totalHelpful is the sum of
    the helpful.count fields of these reviews, which is the number of
    helpful votes they hold when each of them has as many voters as its
    helpful.count says; when there is at least one such review,
    averageRating is the double nearest to the mean of their ratings and
    lies between 1 and 5 (there being fewer than 2^50 of them), and when
    there is none all three figures are 0. *)
Theorem user_review_statistics (db : Store) (userId : ObjectId) :
  let mine :=
    List.filter
      (fun r => N.eqb (Review.user r) userId
                && Review.Status_eqb (Review.status r) Review.active)
      (reviews db) in
  reachable db ->
  totalReviews (reviewStats userId db) = Z.of_nat (length mine) /\
  totalHelpful (reviewStats userId db)
  = fold_right (fun r s => Review.helpful_count (Review.helpful r) + s) 0 mine /\
  ((forall r, In r mine ->
      Review.helpful_count (Review.helpful r)
      = Z.of_nat (length (Review.helpful_users (Review.helpful r)))) ->
   totalHelpful (reviewStats userId db)
   = fold_right
       (fun r s =>
          Z.of_nat (length (Review.helpful_users (Review.helpful r))) + s)
       0 mine) /\
  (mine <> [] ->
   averageRating (reviewStats userId db)
   = fl (inject_Z (sumReviewRatings mine)
         / inject_Z (Z.of_nat (length mine))) /\
   (Z.of_nat (length mine) < 2 ^ 50 ->
    (1 <= averageRating (reviewStats userId db))%Q /\
    (averageRating (reviewStats userId db) <= 5)%Q)) /\
  (mine = [] -> reviewStats userId db = mkReviewStats 0 0 0).
Proof.
  intros mine Hreach. apply reachable_Inv in Hreach.
  destruct Hreach as [_ Hrs].
  assert (Hv : Forall (fun r => rating_in_range (Review.rating r)) mine).
  { unfold mine. apply List.Forall_forall. intros r Hin.
    apply filter_In in Hin. rewrite List.Forall_forall in Hrs.
    apply Hrs, Hin. }
  fold (countsHeld mine). fold (votesHeld mine).
  unfold reviewStats. cbv zeta. fold mine.
  destruct mine as [| r rs] eqn:E.
  - cbn [totalReviews totalHelpful length Z.of_nat].
    repeat split; try reflexivity; congruence.
  - rewrite <- E in *.
    cbn [totalReviews totalHelpful averageRating].
    rewrite fold_helpful_shift, fold_ratings_shift, !Z.add_0_l.
    split; [reflexivity |]. split; [reflexivity |].
    split; [intros Hc; now apply countsHeld_votesHeld |].
    split; [| rewrite E; discriminate].
    intros _. split; [reflexivity |]. intros _.
    assert (Hlen : 0 < Z.of_nat (length mine))
      by (rewrite E; cbn [length]; lia).
    pose proof (sumReviewRatings_bounds mine Hv) as B.
    destruct (quotient_bounds (sumReviewRatings mine)
                (Z.of_nat (length mine)) 1 5) as [H1 H5]; [lia | lia |].
    split.
    + exact (fl_ge_integer _ 1 5 ltac:(lia) H1 H5 eq_refl).
    + apply (fl_le_integer _ 5); [| exact H5 | reflexivity].
      apply Qle_trans with (inject_Z 1); [discriminate | exact H1].
Qed.

Lemma user_review_statistics_witness :
  reachable
    (fst (serve (map (submit 1%N) example_submissions) example_store)) /\
  totalReviews
    (reviewStats 13%N
       (fst (serve (map (submit 1%N) example_submissions) example_store)))
  = 1.
Proof.
  assert (R : reachable
                (fst (serve (map (submit 1%N) example_submissions)
                        example_store))).
  { exists example_store, (map (submit 1%N) example_submissions).
    split; [exact example_store_initial | reflexivity]. }
  split; [exact R |].
  destruct (user_review_statistics _ 13%N R) as (H & _).
  rewrite H. vm_compute. reflexivity.
Defined.

(** ** The further properties at concrete inputs *)

Lemma example_reviewed_reachable : reachable example_reviewed.
Proof.
  eexists example_store, _. split; [exact example_store_initial |].
  reflexivity.
Qed.

Lemma delete_recomputes_rating_witness :
  exists g',
    delete_reviews example_user 100%N example_reviewed
    = (mkStore (<[1%N := g']> (games example_reviewed))
         (remove_by_id 100%N (reviews example_reviewed)), 200) /\
    Game.count (Game.rating g') = 1 /\
    (Game.average (Game.rating g') == 3)%Q.
Proof.
  destruct (delete_recomputes_rating example_reviewed example_user 100%N
              (Review.fresh 100%N 1%N 10%N 5) example_reviewed_game)
    as (g' & H & Hc & Ha & _).
  - exact example_reviewed_reachable.
  - vm_compute. reflexivity.
  - vm_compute. reflexivity.
  - reflexivity.
  - vm_compute. reflexivity.
  - vm_compute. discriminate.
  - exists g'. split; [exact H |]. split; [exact Hc |].
    rewrite Ha. vm_compute. reflexivity.
Defined.

Lemma helpful_vote_recounts_rating_witness :
  exists db' g',
    post_reviews_helpful (mkReqUser 11%N role_user) 100%N example_reviewed
    = (db', 200) /\
    length (reviews db') = length (reviews example_reviewed) /\
    games db' !! 1%N = Some g' /\
    Game.count (Game.rating g') = 2 + 1.
Proof.
  destruct (helpful_vote_recounts_rating example_reviewed
              (mkReqUser 11%N role_user) 100%N
              (Review.fresh 100%N 1%N 10%N 5) example_reviewed_game)
    as (db' & g' & H & Hl & Hg & Hc & _).
  - exact example_reviewed_reachable.
  - vm_compute. reflexivity.
  - reflexivity.
  - vm_compute. reflexivity.
  - exists db', g'. repeat split; assumption.
Defined.

Lemma helpful_toggle_twice_witness :
  snd (serve [PostHelpful (mkReqUser 11%N role_user) 100%N;
              PostHelpful (mkReqUser 11%N role_user) 100%N] example_reviewed)
  = [200; 200] /\
  reviews
    (fst (serve [PostHelpful (mkReqUser 11%N role_user) 100%N;
                 PostHelpful (mkReqUser 11%N role_user) 100%N]
            example_reviewed))
  = reviews example_reviewed.
Proof.
  apply (helpful_toggle_twice example_reviewed (mkReqUser 11%N role_user)
           100%N (Review.fresh 100%N 1%N 10%N 5)).
  - exact example_reviewed_reachable.
  - vm_compute. reflexivity.
  - reflexivity.
  - intros [].
Defined.

Lemma favorite_toggle_twice_witness :
  exists db1 user1,
    post_games_favorite example_account 1%N example_store
    = (db1, user1, 200, Some (mkFavoriteAnswer true (0 + 1))) /\
    post_games_favorite user1 1%N db1
    = (example_store, example_account, 200, Some (mkFavoriteAnswer false 0)).
Proof.
  apply (favorite_toggle_twice example_store example_account 1%N example_game).
  - vm_compute. reflexivity.
  - intros [].
  - cbn. lia.
Defined.

Lemma favorite_is_per_category_witness :
  exists db1 user1 db2,
    post_games_favorite example_account 1%N example_catalog
    = (db1, user1, 200, Some (mkFavoriteAnswer true (0 + 1))) /\
    post_games_favorite user1 2%N db1
    = (db2, example_account, 200, Some (mkFavoriteAnswer false 0)) /\
    (Game.favoriteCount <$> (Game.stats <$> games db2 !! 1%N)) = Some 1 /\
    (Game.favoriteCount <$> (Game.stats <$> games db2 !! 2%N)) = Some 0.
Proof.
  destruct (favorite_is_per_category example_catalog example_account 1%N 2%N
              (Game.mkGame 7%N
                 (Game.mkRating 4 1 (Game.mkDistribution 0 0 0 1 0))
                 Game.defaultStats Game.active)
              (Game.mkGame 7%N
                 (Game.mkRating 2 1 (Game.mkDistribution 0 1 0 0 0))
                 Game.defaultStats Game.active))
    as (db1 & user1 & db2 & H1 & H2 & Ha & Hb).
  - discriminate.
  - vm_compute. reflexivity.
  - vm_compute. reflexivity.
  - reflexivity.
  - intros [].
  - exists db1, user1, db2. split; [exact H1 |]. split; [exact H2 |].
    rewrite Ha, Hb. split; reflexivity.
Defined.
